(** * Smart Payment Orchestration: the scoring and decision engine

    A shallow embedding of [orchestrator.js] (the module behind [POST /decide]):
    [supportsMethod], [feeAmountCents], [evaluateProcessor] and [decide]; and
    of [server.js]: [paymentInputFromPayload] and the handler of
    [POST /decide].

    - JavaScript numbers are IEEE 754 binary64 values.  They are modelled by
      [spec_float] with the operations of [SpecFloat] at precision 53 and
      maximal exponent 1024, so rounding, overflow, signed zeros, infinities
      and NaN are the ones the program meets at run time.
    - The module reads two module-level objects ([processors], [rules]) and
      its argument, creates arrays with [filter] and [map] and sorts arrays in
      place.  Objects and arrays live in a heap; [decide] is a computation in
      a state monad over that heap which may throw. *)

From Stdlib Require Import ZArith Lia Bool List String Ascii.
From Stdlib Require Import DecimalString SpecFloat QArith Qround.
Import ListNotations.

Open Scope Z_scope.

(** ** JavaScript numbers *)

Module Js.

Definition prec : Z := 53.
Definition emax : Z := 1024.

Definition number : Type := spec_float.

Definition NaN : number := S754_nan.
Definition Infinity : number := S754_infinity false.
Definition zero : number := S754_zero false.

(** An integer literal.  Exact below 2^53. *)
Definition of_Z (z : Z) : number := binary_normalize prec emax z 0 false.

Definition mul : number -> number -> number := SFmul prec emax.
Definition add : number -> number -> number := SFadd prec emax.
Definition sub : number -> number -> number := SFsub prec emax.
Definition div : number -> number -> number := SFdiv prec emax.

(** The decimal literal [n / d] ([d] a power of ten), as a source literal or
    a JSON number is read: the binary64 value nearest to the quotient.
    Division is correctly rounded and both operands are exact. *)
Definition decimal (n d : Z) : number := div (of_Z n) (of_Z d).

Definition one : number := of_Z 1.

Definition is_nan (x : number) : bool :=
  match x with S754_nan => true | _ => false end.

Definition is_finite (x : number) : bool :=
  match x with S754_zero _ | S754_finite _ _ _ => true | _ => false end.

(** [x < y], [x > y], [x <= y], [x >= y]: false as soon as an operand is NaN. *)
Definition ltb (x y : number) : bool := SFltb x y.
Definition gtb (x y : number) : bool := SFltb y x.
Definition leb (x y : number) : bool := SFleb x y.
Definition geb (x y : number) : bool := SFleb y x.

(** [Math.max(x, y)] and [Math.min(x, y)]: NaN if an argument is NaN, and
    [+0] counts as larger than [-0]. *)
Definition max (x y : number) : number :=
  if is_nan x || is_nan y then NaN
  else if ltb x y then y
  else if ltb y x then x
  else match x, y with
       | S754_zero sx, S754_zero sy => S754_zero (sx && sy)
       | _, _ => x
       end.

Definition min (x y : number) : number :=
  if is_nan x || is_nan y then NaN
  else if ltb x y then x
  else if ltb y x then y
  else match x, y with
       | S754_zero sx, S754_zero sy => S754_zero (sx || sy)
       | _, _ => x
       end.

(** [Math.round(x)]: the integral number closest to [x], the one closer to
    +Infinity in a tie; NaN, infinities, zeros and integral values are
    returned as they are, and a result of zero keeps the sign of [x].
    For [x = ±m·2^e] with [e < 0] the integer is
    [floor (x + 1/2) = floor ((±2m + 2^-e) / 2^(1-e))]. *)
Definition round (x : number) : number :=
  match x with
  | S754_finite s m e =>
      if 0 <=? e then x
      else
        let n := (2 * cond_Zopp s (Zpos m) + 2 ^ (- e)) / 2 ^ (1 - e) in
        match n with
        | Z0 => S754_zero s
        | _ => of_Z n
        end
  | _ => x
  end.

(** [x || 0] where [x] is a number or [undefined] (a missing property):
    [undefined], [NaN], [+0] and [-0] are falsy. *)
Definition or_zero (x : option number) : number :=
  match x with
  | Some (S754_finite s m e) => S754_finite s m e
  | Some (S754_infinity s) => S754_infinity s
  | _ => zero
  end.

End Js.

(** ** Number to string conversions and [Array.prototype.sort] *)

Module JsLib.
Import Js.
Local Open Scope string_scope.
Local Open Scope Z_scope.

(** Decimal digits of a non-negative integer. *)
Definition digits_of (n : Z) : string :=
  NilZero.string_of_uint (N.to_uint (Z.to_N n)).

Fixpoint zeros (k : nat) : string :=
  match k with
  | O => EmptyString
  | S k' => String "0" (zeros k')
  end.

(** The digits of [n] with a decimal point before the last [f] of them,
    padded with zeros on the left up to [f + 1] digits. *)
Definition fixed_point (f : nat) (n : Z) : string :=
  let m := digits_of n in
  let m := zeros (S f - String.length m)%nat ++ m in
  match f with
  | O => m
  | _ => let k := String.length m in
         substring 0 (k - f)%nat m ++ "." ++ substring (k - f)%nat f m
  end.

(** [Number::toString] for an integral value [X = m·2^e] of at least 10^21
    (so [0 <= e]): the shortest digit string [s] that reads back as the same
    binary64 value, the closest to [X] when several have that length, printed
    in exponent notation. *)
Section Shortest.
Variables (m : positive) (e : Z).

Let X : Z := Zpos m * 2 ^ e.
Let up : Z := 2 ^ (e - 1).
Let down : Z := if Zpos m =? 2 ^ (prec - 1) then 2 ^ (e - 2) else 2 ^ (e - 1).

(** [V] is read back as [X]: it lies within half a unit in the last place,
    the bounds included when the mantissa is even. *)
Definition reads_back (V : Z) : bool :=
  if Z.even (Zpos m)
  then (X - down <=? V) && (V <=? X + up)
  else (X - down <? V) && (V <? X + up).

Definition decimal_length : Z := Z.of_nat (String.length (digits_of X)).

(** The best [k]-digit candidate, if one reads back. *)
Definition candidate (k : Z) : option Z :=
  let p := 10 ^ (decimal_length - k) in
  let lo := X / p in
  let hi := lo + 1 in
  match reads_back (lo * p), reads_back (hi * p) with
  | true, false => Some lo
  | false, true => Some hi
  | false, false => None
  | true, true =>
      match (X - lo * p) ?= (hi * p - X) with
      | Lt => Some lo
      | Gt => Some hi
      | Eq => Some (if Z.even lo then lo else hi)
      end
  end.

Fixpoint shortest (fuel : nat) (k : Z) : Z * Z :=
  match candidate k, fuel with
  | Some s, _ => (s, k)
  | None, S fuel' => shortest fuel' (k + 1)
  | None, O => (X, decimal_length)
  end.

Definition exponential : string :=
  let '(s, k) := shortest 17 1 in
  let '(s, n) := if s =? 10 ^ k then (s / 10, decimal_length + 1)
                 else (s, decimal_length) in
  let ds := digits_of s in
  let frac := substring 1 (String.length ds - 1)%nat ds in
  substring 0 1 ds ++ (if String.eqb frac EmptyString then EmptyString else "." ++ frac)
    ++ "e+" ++ digits_of (n - 1).
End Shortest.

(** [x.toFixed(f)] for [0 <= f <= 100]: the sign, then the integer [n]
    closest to [|x|·10^f] (the larger one in a tie) printed with [f]
    fraction digits; at or above 10^21 the result of [Number::toString].
    A binary64 value with a negative exponent is below 2^53, so only
    integral values reach 10^21. *)
Definition toFixed (f : nat) (x : number) : string :=
  match x with
  | S754_nan => "NaN"
  | S754_infinity false => "Infinity"
  | S754_infinity true => "-Infinity"
  | S754_zero _ => fixed_point f 0
  | S754_finite s m e =>
      let sign := if s then "-" else EmptyString in
      let scale := 10 ^ Z.of_nat f in
      if 0 <=? e then
        if 10 ^ 21 <=? Zpos m * 2 ^ e
        then sign ++ exponential m e
        else sign ++ fixed_point f (Zpos m * 2 ^ e * scale)
      else sign ++ fixed_point f ((2 * scale * Zpos m + 2 ^ (- e)) / 2 ^ (1 - e))
  end.

(** [Array.prototype.sort(cmp)].  The sort is stable (ECMAScript 2019), a
    comparator result of NaN counts as [+0], and [x] is moved behind [y]
    when [cmp(x, y) > 0].  [insert] places an element that preceded all of
    [l] in the array; it stays in front of the elements it is not greater
    than, which is what stability asks for.  When the comparator is not
    consistent (some keys are NaN and the others are not all equal)
    ECMAScript leaves the order to the engine, and the engines differ.
    [sort] stands for [Array.prototype.sort] where the comparator is
    consistent: where the keys are all numbers, or where every comparison
    gives NaN or 0, which no stable sort answers by moving an element.  The
    statements that depend on the order of a sorted array keep to these
    cases. *)
Section Sort.
Context {A : Type} (cmp : A -> A -> number).

Definition after (x y : A) : bool := gtb (cmp x y) zero.

Fixpoint insert (x : A) (l : list A) : list A :=
  match l with
  | [] => [x]
  | y :: l' => if after x y then y :: insert x l' else x :: l
  end.

Fixpoint sort (l : list A) : list A :=
  match l with
  | [] => []
  | x :: l' => insert x (sort l')
  end.
End Sort.

(** The comparator [(a, b) => key(b) - key(a)]. *)
Definition descending {A : Type} (key : A -> number) (a b : A) : number :=
  sub (key b) (key a).

End JsLib.

(** ** Data model

    Records for the JSON objects the module handles.  A property the code
    tolerates to be missing is an [option] ([None] is [undefined]). *)

Record Processor := {
  name : string;
  fee_percentage : option Js.number;
  fee_flat_cents : option Js.number;
  settlement_time_days : Js.number;
  success_rate : Js.number;
  supports_card : bool;
  supports_ach : bool;
  instant_payout : bool;
  requires_whitelist : option bool
}.

Record RuleThresholds := {
  min_relative_savings_to_switch : Js.number;
  min_success_rate : Js.number
}.

Record ScoringWeights := {
  fee_weight : Js.number;
  settlement_weight : Js.number;
  risk_weight : Js.number;
  switch_bonus : Js.number;
  instant_payout_bonus : Js.number;
  slow_settlement_penalty : Js.number
}.

Record Rules := {
  rule_thresholds : RuleThresholds;
  scoring_weights : ScoringWeights
}.

Record Merchant := {
  merchant_id : string;
  cash_flow_sensitivity : Js.number;
  whitelisted_for : option (list string)
}.

(** [metadata] is never read by the module and is left out. *)
Record Payment := {
  amount_cents : Js.number;
  currency : string;
  payment_method : string;
  merchant : Merchant
}.

(** What [evaluateProcessor] returns.  [passesStrict] is the value of an
    [&&]/[||] chain and can be [undefined] ([None]). *)
Record Evaluation := {
  processor : Processor;
  fee_cents : Js.number;
  saving_pct_vs_stripe : Js.number;
  settlement_score : Js.number;
  risk_score : Js.number;
  score : Js.number;
  passesStrict : option bool
}.

(** What [decide] returns. *)
Record Decision := {
  chosen : string;
  expected_net_cents : Js.number;
  details : Evaluation;
  reason : string
}.

(** ** Heap, exceptions and the monad of computations *)

Module Heap.

(** The objects the module touches: the [processors] array, the [rules]
    object, a payment, and the arrays of evaluations it builds. *)
Inductive object :=
| ProcessorArray (ps : list Processor)
| EvaluationArray (es : list Evaluation)
| RulesObject (r : Rules)
| PaymentObject (p : Payment).

(** References are indices; a new object is placed at the end. *)
Definition ref : Type := nat.
Definition heap : Type := list object.

(** A thrown error, identified by the name of its constructor. *)
Record error := { error_name : string }.

(** Reading a property of [undefined], or calling a method an object does
    not have, throws a [TypeError]. *)
Definition TypeError : error := {| error_name := "TypeError" |}.

Inductive outcome (A : Type) :=
| Return (a : A)
| Throw (e : error).
Arguments Return {A} a.
Arguments Throw {A} e.

Definition M (A : Type) : Type := heap -> outcome A * heap.

Definition ret {A} (a : A) : M A := fun h => (Return a, h).

Definition throw {A} (e : error) : M A := fun h => (Throw e, h).

Definition bind {A B} (m : M A) (k : A -> M B) : M B :=
  fun h =>
    match m h with
    | (Return a, h') => k a h'
    | (Throw e, h') => (Throw e, h')
    end.

Definition load (l : ref) : M object :=
  fun h =>
    match nth_error h l with
    | Some o => (Return o, h)
    | None => (Throw TypeError, h)
    end.

Definition alloc (o : object) : M ref :=
  fun h => (Return (List.length h), (h ++ [o])%list).

Fixpoint update (l : ref) (o : object) (h : heap) : heap :=
  match h, l with
  | [], _ => []
  | _ :: h', O => o :: h'
  | o' :: h', S l' => o' :: update l' o h'
  end.

Definition store (l : ref) (o : object) : M unit :=
  fun h => (Return tt, update l o h).

(** A callback run on each element in turn, as [Array.prototype.map] does;
    the first exception ends the loop. *)
Fixpoint mapM {A B} (f : A -> M B) (l : list A) : M (list B) :=
  match l with
  | [] => ret []
  | x :: l' =>
      bind (f x) (fun y => bind (mapM f l') (fun ys => ret (y :: ys)))
  end.

End Heap.

Import Heap.

Declare Scope js_scope.
Delimit Scope js_scope with js.
Notation "x <- m ;; k" := (bind m (fun x => k))
  (at level 100, m at next level, right associativity) : js_scope.
Notation "m ;;; k" := (bind m (fun _ => k))
  (at level 100, right associativity) : js_scope.

(** ** The orchestrator *)

Section Orchestrator.

(** [const processors = require("../jsons/processors.json")] and
    [const rules = require("../jsons/rules.json")]: the two module-level
    references, bound once when the module is loaded. *)
Variables (processors rules : ref).

Local Open Scope js_scope.
Local Open Scope string_scope.

(** *** Typed access to the heap *)

Definition load_processors (l : ref) : M (list Processor) :=
  o <- load l;;
  match o with
  | ProcessorArray ps => ret ps
  | _ => throw TypeError
  end.

Definition load_evaluations (l : ref) : M (list Evaluation) :=
  o <- load l;;
  match o with
  | EvaluationArray es => ret es
  | _ => throw TypeError
  end.

Definition load_rules (l : ref) : M Rules :=
  o <- load l;;
  match o with
  | RulesObject r => ret r
  | _ => throw TypeError
  end.

Definition load_payment (l : ref) : M Payment :=
  o <- load l;;
  match o with
  | PaymentObject p => ret p
  | _ => throw TypeError
  end.

(** [arr.filter(f)]: a new array with the elements [f] accepts, in order. *)
Definition filter_processors (arr : ref) (f : Processor -> bool) : M ref :=
  ps <- load_processors arr;;
  alloc (ProcessorArray (filter f ps)).

Definition filter_evaluations (arr : ref) (f : Evaluation -> bool) : M ref :=
  es <- load_evaluations arr;;
  alloc (EvaluationArray (filter f es)).

(** [arr.map(f)]: a new array with the results of the callback, which may
    read the heap and throw. *)
Definition map_processors (arr : ref) (f : Processor -> M Evaluation) : M ref :=
  ps <- load_processors arr;;
  es <- mapM f ps;;
  alloc (EvaluationArray es).

(** [arr.sort(cmp)]: sorts the array in place and returns the same
    reference. *)
Definition sort_evaluations (arr : ref)
    (cmp : Evaluation -> Evaluation -> Js.number) : M ref :=
  es <- load_evaluations arr;;
  store arr (EvaluationArray (JsLib.sort cmp es));;;
  ret arr.

(** [arr.length] and [arr[i]]; an index out of range reads [undefined]. *)
Definition array_length (arr : ref) : M nat :=
  es <- load_evaluations arr;;
  ret (List.length es).

Definition array_get (arr : ref) (i : nat) : M (option Evaluation) :=
  es <- load_evaluations arr;;
  ret (nth_error es i).

(** Truthiness of a boolean that may be [undefined]. *)
Definition truthy (b : option bool) : bool :=
  match b with
  | Some true => true
  | _ => false
  end.

(** *** [supportsMethod] *)

Definition supportsMethod (processor : Processor) (method : string) : bool :=
  if String.eqb method "card" then supports_card processor
  else if String.eqb method "ach" then supports_ach processor
  else false.

(** *** [feeAmountCents] *)

Definition feeAmountCents (processor : Processor) (payment : Payment) : Js.number :=
  let pct := Js.or_zero (fee_percentage processor) in
  let flat := Js.or_zero (fee_flat_cents processor) in
  let fee := Js.round (Js.add (Js.mul (amount_cents payment) pct) flat) in
  fee.

(** *** [evaluateProcessor]

    [processors.find(...)] is [undefined] when no processor is named
    "Stripe"; [feeAmountCents(undefined, payment)] then throws on its first
    property read. *)

Definition evaluateProcessor (processor : Processor) (payment : Payment) : M Evaluation :=
  let fee := feeAmountCents processor payment in
  ps <- load_processors processors;;
  match find (fun p => String.eqb (name p) "Stripe") ps with
  | None => throw TypeError
  | Some stripe =>
      let stripeFee := feeAmountCents stripe payment in
      let saving_pct_vs_stripe := Js.div (Js.sub stripeFee fee) stripeFee in
      let settlement_factor :=
        Js.max Js.zero
          (Js.sub Js.one
             (Js.div (Js.mul (settlement_time_days processor)
                             (cash_flow_sensitivity (merchant payment)))
                     (Js.of_Z 5))) in
      let settlement_score := Js.min Js.one (Js.max Js.zero settlement_factor) in
      let risk_score := success_rate processor in
      r <- load_rules rules;;
      let thresholds := rule_thresholds r in
      let weights := scoring_weights r in
      let bonus := Js.zero in
      let bonus :=
        if Js.geb saving_pct_vs_stripe (min_relative_savings_to_switch thresholds)
        then Js.add bonus (switch_bonus weights) else bonus in
      let bonus :=
        if instant_payout processor
        then Js.add bonus (instant_payout_bonus weights) else bonus in
      let bonus :=
        if Js.gtb (cash_flow_sensitivity (merchant payment)) (Js.decimal 85 100)
           && Js.gtb (settlement_time_days processor) Js.one
        then Js.sub bonus (slow_settlement_penalty weights) else bonus in
      let score :=
        Js.add
          (Js.add
             (Js.add (Js.mul (fee_weight weights) (Js.max Js.zero saving_pct_vs_stripe))
                     (Js.mul (settlement_weight weights) settlement_score))
             (Js.mul (risk_weight weights) risk_score))
          bonus in
      let passesStrict :=
        if Js.geb (success_rate processor) (min_success_rate thresholds)
        then
          if negb (truthy (requires_whitelist processor)) then Some true
          else match whitelisted_for (merchant payment) with
               | None => None
               | Some names => Some (existsb (String.eqb (name processor)) names)
               end
        else Some false in
      ret {| processor := processor;
             fee_cents := fee;
             saving_pct_vs_stripe := saving_pct_vs_stripe;
             settlement_score := settlement_score;
             risk_score := risk_score;
             score := score;
             passesStrict := passesStrict |}
  end.

(** *** [decide] *)

Definition fallback_reason : string :=
  "No candidate passed strict constraints — falling back to highest success_rate".

Definition decide (payment_ref : ref) : M Decision :=
  payment <- load_payment payment_ref;;
  candidates <-
    filter_processors processors
      (fun p => supportsMethod p (payment_method payment));;
  evaluations <- map_processors candidates (fun p => evaluateProcessor p payment);;
  viable <- filter_evaluations evaluations (fun e => truthy (passesStrict e));;
  n <- array_length viable;;
  if Nat.eqb n 0 then
    sorted <-
      sort_evaluations evaluations
        (fun a b => Js.sub (success_rate (processor b)) (success_rate (processor a)));;
    first <- array_get sorted 0;;
    match first with
    | None => throw TypeError
    | Some fallback =>
        ret {| chosen := name (processor fallback);
               expected_net_cents :=
                 Js.round (Js.sub (amount_cents payment)
                                  (feeAmountCents (processor fallback) payment));
               details := fallback;
               reason := fallback_reason |}
    end
  else
    sort_evaluations viable (fun a b => Js.sub (score b) (score a));;;
    first <- array_get viable 0;;
    match first with
    | None => throw TypeError
    | Some winner =>
        ret {| chosen := name (processor winner);
               expected_net_cents :=
                 Js.round (Js.sub (amount_cents payment)
                                  (feeAmountCents (processor winner) payment));
               details := winner;
               reason := "Selected by scoring rules (score="
                           ++ JsLib.toFixed 3 (score winner) ++ ")" |}
    end.

End Orchestrator.

(** ** Configuration and scenarios *)

Module Scenario.
Local Open Scope string_scope.

(** Modelled from the spec: [jsons/processors.json] is not part of the
    sources; the processors below carry the fees, settlement times and
    success rates the specification and the README list for the default
    catalog. *)
Definition Stripe : Processor :=
  {| name := "Stripe";
     fee_percentage := Some (Js.decimal 2 100);
     fee_flat_cents := Some (Js.of_Z 30);
     settlement_time_days := Js.of_Z 2;
     success_rate := Js.decimal 98 100;
     supports_card := true;
     supports_ach := true;
     instant_payout := false;
     requires_whitelist := None |}.

Definition LocalProcessorA : Processor :=
  {| name := "LocalProcessorA";
     fee_percentage := Some (Js.decimal 25 1000);
     fee_flat_cents := Some (Js.of_Z 25);
     settlement_time_days := Js.of_Z 1;
     success_rate := Js.decimal 965 1000;
     supports_card := true;
     supports_ach := false;
     instant_payout := false;
     requires_whitelist := None |}.

Definition FastPayout : Processor :=
  {| name := "FastPayout";
     fee_percentage := Some (Js.decimal 34 1000);
     fee_flat_cents := Some (Js.of_Z 10);
     settlement_time_days := Js.of_Z 0;
     success_rate := Js.decimal 96 100;
     supports_card := true;
     supports_ach := false;
     instant_payout := true;
     requires_whitelist := None |}.

Definition ACHProvider : Processor :=
  {| name := "ACHProvider";
     fee_percentage := Some (Js.decimal 8 1000);
     fee_flat_cents := Some (Js.of_Z 25);
     settlement_time_days := Js.of_Z 3;
     success_rate := Js.decimal 99 100;
     supports_card := false;
     supports_ach := true;
     instant_payout := false;
     requires_whitelist := None |}.

(** The catalog of Scenarios A and B, and the four default processors of
    the README. *)
Definition catalog : list Processor := [Stripe; LocalProcessorA].
Definition default_catalog : list Processor :=
  [Stripe; LocalProcessorA; FastPayout; ACHProvider].

(** Modelled from the spec: [jsons/rules.json] is not part of the sources;
    these are the default thresholds and weights the specification gives. *)
Definition default_rules : Rules :=
  {| rule_thresholds :=
       {| min_relative_savings_to_switch := Js.decimal 2 100;
          min_success_rate := Js.decimal 90 100 |};
     scoring_weights :=
       {| fee_weight := Js.of_Z 10;
          settlement_weight := Js.of_Z 4;
          risk_weight := Js.of_Z 6;
          switch_bonus := Js.decimal 15 10;
          instant_payout_bonus := Js.of_Z 1;
          slow_settlement_penalty := Js.of_Z 2 |} |}.

Definition with_min_success_rate (x : Js.number) (r : Rules) : Rules :=
  {| rule_thresholds :=
       {| min_relative_savings_to_switch :=
            min_relative_savings_to_switch (rule_thresholds r);
          min_success_rate := x |};
     scoring_weights := scoring_weights r |}.

(** The request body of the README: 1250 cents by card, cash-flow
    sensitivity 0.7. *)
Definition payment_of (amount : Js.number) (method : string)
    (whitelist : option (list string)) : Payment :=
  {| amount_cents := amount;
     currency := "usd";
     payment_method := method;
     merchant := {| merchant_id := "m_1";
                    cash_flow_sensitivity := Js.decimal 7 10;
                    whitelisted_for := whitelist |} |}.

Definition card_payment : Payment := payment_of (Js.of_Z 1250) "card" None.

(** A heap with the catalog at reference 0, the rules at 1 and the payment
    at 2. *)
Definition heap_of (ps : list Processor) (r : Rules) (p : Payment) : heap :=
  [ProcessorArray ps; RulesObject r; PaymentObject p].

Definition run (ps : list Processor) (r : Rules) (p : Payment) : outcome Decision * heap :=
  decide 0%nat 1%nat 2%nat (heap_of ps r p).

End Scenario.

(** ** Exact values of numbers

    What the statements below say about numbers is said about their exact
    values, not about the way they are represented. *)

Module Exact.
Import Js.

Definition emin : Z := -1074.

(** The binary64 values: a mantissa of at most 53 bits in canonical position
    and an exponent within range. *)
Definition valid (x : number) : Prop := valid_binary prec emax x = true.

(** What every result of an arithmetic operation satisfies, whatever its
    operands look like. *)
Definition wf (x : number) : Prop :=
  match x with
  | S754_finite _ m e => emin <= e /\ Zpos m < 2 ^ 53
  | _ => True
  end.

(** Exact values in units of [2^emin], of which every binary64 value is an
    integral multiple, extended with the two infinities. *)
Inductive ext := NegInf | Fin (z : Z) | PosInf.

Definition value (x : number) : option ext :=
  match x with
  | S754_nan => None
  | S754_infinity s => Some (if s then NegInf else PosInf)
  | S754_zero _ => Some (Fin 0)
  | S754_finite s m e => Some (Fin (cond_Zopp s (Zpos m * 2 ^ (e - emin))))
  end.

Definition ext_compare (a b : ext) : comparison :=
  match a, b with
  | NegInf, NegInf => Eq
  | NegInf, _ => Lt
  | _, NegInf => Gt
  | PosInf, PosInf => Eq
  | PosInf, _ => Gt
  | _, PosInf => Lt
  | Fin x, Fin y => x ?= y
  end.

(** The order of two numbers; NaN compares with nothing. *)
Definition compare (x y : number) : option comparison :=
  match value x, value y with
  | Some a, Some b => Some (ext_compare a b)
  | _, _ => None
  end.

Definition lt (x y : number) : Prop := compare x y = Some Lt.
Definition eq (x y : number) : Prop := compare x y = Some Eq.
Definition le (x y : number) : Prop := lt x y \/ eq x y.

(** The value as a rational, for a finite number. *)
Definition to_Q (x : number) : option Q :=
  match x with
  | S754_zero _ => Some 0%Q
  | S754_finite s m e =>
      Some (if 0 <=? e then inject_Z (cond_Zopp s (Zpos m) * 2 ^ e)
            else Qmake (cond_Zopp s (Zpos m)) (Z.to_pos (2 ^ (- e))))
  | _ => None
  end.

(** Rounding to the nearest integer, a tie going up. *)
Definition round_half_up (q : Q) : Z := Qfloor (q + (1 # 2)).

(** [Number.isInteger]. *)
Definition is_integer (x : number) : bool :=
  match x with
  | S754_zero _ => true
  | S754_finite _ m e => (0 <=? e) || (Zpos m mod 2 ^ (- e) =? 0)
  | _ => false
  end.

(** A finite number that is not negative. *)
Definition nonneg (x : number) : Prop :=
  match x with
  | S754_zero _ | S754_finite false _ _ => True
  | _ => False
  end.

Definition is_zero (x : number) : bool :=
  match x with
  | S754_zero _ => true
  | _ => false
  end.

(** A property that is missing, or holds a finite number that is not
    negative. *)
Definition nonneg_option (x : option number) : Prop :=
  match x with
  | Some v => is_finite v = true /\ geb v zero = true
  | None => True
  end.

(** The results of rounding a non-negative mantissa to sign [s]: an exponent
    of at least [lo], and not zero when [nonzero] holds. *)
Definition rounded (s : bool) (lo : Z) (nonzero : Prop) (x : number) : Prop :=
  match x with
  | S754_zero s' => s' = s /\ ~ nonzero
  | S754_infinity s' => s' = s
  | S754_finite s' m' e' => s' = s /\ emin <= e' /\ lo <= e' /\ Zpos m' < 2 ^ 53
  | S754_nan => False
  end.

End Exact.

(** ** The decision as a function of what the heap holds

    [decide] reads three objects and only ever writes to arrays it has
    created, so its outcome and the objects it leaves behind are functions of
    the catalog, the rules and the payment.  These functions are what the
    heap computation is shown to compute ([decide_run] below). *)

Module Pure.
Local Open Scope string_scope.

Fixpoint traverse {A B} (f : A -> outcome B) (l : list A) : outcome (list B) :=
  match l with
  | [] => Return []
  | x :: l' =>
      match f x with
      | Throw e => Throw e
      | Return y =>
          match traverse f l' with
          | Throw e => Throw e
          | Return ys => Return (y :: ys)
          end
      end
  end.

(** [evaluateProcessor] run where [processors] and [rules] hold [ps] and [r]. *)
Definition evaluate (ps : list Processor) (r : Rules) (p : Processor) (pay : Payment)
  : outcome Evaluation :=
  fst (evaluateProcessor 0%nat 1%nat p pay [ProcessorArray ps; RulesObject r]).

Definition baseline (ps : list Processor) : option Processor :=
  find (fun p => String.eqb (name p) "Stripe") ps.

Definition candidates (ps : list Processor) (pay : Payment) : list Processor :=
  filter (fun p => supportsMethod p (payment_method pay)) ps.

Definition evaluations (ps : list Processor) (r : Rules) (pay : Payment)
  : outcome (list Evaluation) :=
  traverse (fun p => evaluate ps r p pay) (candidates ps pay).

Definition viable (es : list Evaluation) : list Evaluation :=
  filter (fun e => truthy (passesStrict e)) es.

(** The two comparators handed to [sort]. *)
Definition by_success_rate (a b : Evaluation) : Js.number :=
  Js.sub (success_rate (processor b)) (success_rate (processor a)).

Definition by_score (a b : Evaluation) : Js.number :=
  Js.sub (score b) (score a).

Definition score_reason (e : Evaluation) : string :=
  "Selected by scoring rules (score=" ++ JsLib.toFixed 3 (score e) ++ ")".

Definition decision (pay : Payment) (e : Evaluation) (why : string) : Decision :=
  {| chosen := name (processor e);
     expected_net_cents :=
       Js.round (Js.sub (amount_cents pay) (feeAmountCents (processor e) pay));
     details := e;
     reason := why |}.

Definition head_or_throw (es : list Evaluation) (k : Evaluation -> Decision)
  : outcome Decision :=
  match es with
  | [] => Throw TypeError
  | e :: _ => Return (k e)
  end.

(** The outcome of [decide], given what the evaluation of the candidates
    gave. *)
Definition select (pay : Payment) (ev : outcome (list Evaluation)) : outcome Decision :=
  match ev with
  | Throw e => Throw e
  | Return es =>
      match viable es with
      | [] =>
          head_or_throw (JsLib.sort by_success_rate es)
            (fun e => decision pay e fallback_reason)
      | _ :: _ =>
          head_or_throw (JsLib.sort by_score (viable es))
            (fun e => decision pay e (score_reason e))
      end
  end.

Definition decide (ps : list Processor) (r : Rules) (pay : Payment) : outcome Decision :=
  select pay (evaluations ps r pay).

(** The objects a call leaves on the heap, in the order of their creation:
    [candidates], [evaluations], [viable].  The array that was sorted is
    [evaluations] on the fallback path and [viable] otherwise. *)
Definition cells (cands : list Processor) (ev : outcome (list Evaluation)) : list object :=
  ProcessorArray cands ::
  match ev with
  | Throw _ => []
  | Return es =>
      match viable es with
      | [] => [EvaluationArray (JsLib.sort by_success_rate es); EvaluationArray []]
      | v => [EvaluationArray es; EvaluationArray (JsLib.sort by_score v)]
      end
  end.

Definition allocated (ps : list Processor) (r : Rules) (pay : Payment) : list object :=
  cells (candidates ps pay) (evaluations ps r pay).

End Pure.

(** ** Further configurations *)

Module Examples.
Import Scenario.
Local Open Scope string_scope.

(** Scenario B: the minimal success rate raised to 0.99. *)
Definition strict_rules : Rules := with_min_success_rate (Js.decimal 99 100) default_rules.

(** Scenario C: a processor with the best success rate that requires a
    whitelist. *)
Definition GatedFast : Processor :=
  {| name := "GatedFast";
     fee_percentage := Some (Js.decimal 15 1000);
     fee_flat_cents := Some (Js.of_Z 10);
     settlement_time_days := Js.of_Z 0;
     success_rate := Js.decimal 99 100;
     supports_card := true;
     supports_ach := false;
     instant_payout := true;
     requires_whitelist := Some true |}.

Definition gated_catalog : list Processor := [Stripe; LocalProcessorA; GatedFast].

(** Scenario D: a method no processor supports. *)
Definition wire_payment : Payment := payment_of (Js.of_Z 1250) "wire" None.

(** A processor with the fees, settlement time and success rate of Stripe,
    listed before it. *)
Definition TwinA : Processor :=
  {| name := "TwinA";
     fee_percentage := Some (Js.decimal 2 100);
     fee_flat_cents := Some (Js.of_Z 30);
     settlement_time_days := Js.of_Z 2;
     success_rate := Js.decimal 98 100;
     supports_card := true;
     supports_ach := true;
     instant_payout := false;
     requires_whitelist := None |}.

Definition twin_catalog : list Processor := [TwinA; Stripe].

(** A baseline that charges a percentage only, and a payment of nothing. *)
Definition percentage_only : Processor :=
  {| name := "Stripe";
     fee_percentage := Some (Js.decimal 2 100);
     fee_flat_cents := None;
     settlement_time_days := Js.of_Z 2;
     success_rate := Js.decimal 98 100;
     supports_card := true;
     supports_ach := true;
     instant_payout := false;
     requires_whitelist := None |}.

Definition zero_payment : Payment := payment_of (Js.of_Z 0) "card" None.

(** A fee of 1000 percent, and an amount near the top of the binary64
    range. *)
Definition usurer : Processor :=
  {| name := "Usurer";
     fee_percentage := Some (Js.of_Z 10);
     fee_flat_cents := Some (Js.of_Z 0);
     settlement_time_days := Js.of_Z 1;
     success_rate := Js.decimal 98 100;
     supports_card := true;
     supports_ach := false;
     instant_payout := false;
     requires_whitelist := None |}.

Definition huge_payment : Payment := payment_of (Js.of_Z (10 ^ 308)) "card" None.

(** The evaluations of the candidates, computed. *)
Definition evaluated (ps : list Processor) (r : Rules) (pay : Payment) : list Evaluation :=
  match Pure.evaluations ps r pay with
  | Return es => es
  | Throw _ => []
  end.

Definition scenario_A_evaluations : list Evaluation :=
  Eval vm_compute in evaluated catalog default_rules card_payment.

Definition scenario_B_evaluations : list Evaluation :=
  Eval vm_compute in evaluated catalog strict_rules card_payment.

Definition gated_evaluations : list Evaluation :=
  Eval vm_compute in evaluated gated_catalog default_rules card_payment.

Definition twin_evaluations : list Evaluation :=
  Eval vm_compute in evaluated twin_catalog default_rules card_payment.

End Examples.

(** ** The server

    [server.js] answers [POST /decide]: it completes the body of the request
    with defaults, hands the result to [decide], and answers with the
    decision, or with status 500 and the message of the error it has caught. *)

(** The body of a request as [bodyParser.json()] delivers it, in the shape
    the header of [server.js] documents.  [currency], [payment_method] and
    [merchant] may be missing ([None], which stands for [null] as well);
    [metadata] is passed on and never read.  A merchant that gives no
    [cash_flow_sensitivity] has NaN for it: the engine multiplies and
    compares it, and [undefined] is NaN there. *)
Module Payload.
Record t := {
  amount_cents : Js.number;
  currency : option string;
  payment_method : option string;
  merchant : option Merchant
}.
End Payload.

(** [x || d] for a string that may be missing: [undefined], [null] and the
    empty string are falsy. *)
Definition or_string (x : option string) (d : string) : string :=
  match x with
  | Some (String c s) => String c s
  | _ => d
  end.

(** [x || d] for an object that may be missing; every object is truthy. *)
Definition or_object {A : Type} (x : option A) (d : A) : A :=
  match x with
  | Some o => o
  | None => d
  end.

(** What the handler sends, [res.json(decision)] with the status left at 200
    or [res.status(500).json({ error: err.message })], and what it prints
    with [console.error].  An error stands for its message, whose wording is
    the engine's. *)
Inductive Body :=
| DecisionBody (decision : Decision)
| ErrorBody (err : error).

Record Response := {
  status : Z;
  body : Body
}.

Record Handled := {
  response : Response;
  console : list error
}.

(** [try { ... } catch (err) { ... }] *)
Definition try_catch {A : Type} (m : M A) (handler : error -> M A) : M A :=
  fun h =>
    match m h with
    | (Return a, h') => (Return a, h')
    | (Throw err, h') => handler err h'
    end.

Section Server.

Variables (processors rules : ref).

Local Open Scope js_scope.
Local Open Scope string_scope.

(** The object literal [paymentInputFromPayload] returns. *)
Definition payment_input (p : Payload.t) : Payment :=
  {| amount_cents := Payload.amount_cents p;
     currency := or_string (Payload.currency p) "usd";
     payment_method := or_string (Payload.payment_method p) "card";
     merchant :=
       or_object (Payload.merchant p)
         {| merchant_id := "m_default";
            cash_flow_sensitivity := Js.decimal 5 10;
            whitelisted_for := None |} |}.

(** *** [paymentInputFromPayload]: a new object. *)
Definition paymentInputFromPayload (p : Payload.t) : M ref :=
  alloc (PaymentObject (payment_input p)).

(** *** The handler of [POST /decide] *)
Definition post_decide (payload : Payload.t) : M Handled :=
  try_catch
    (payment <- paymentInputFromPayload payload;;
     decision <- decide processors rules payment;;
     ret {| response := {| status := 200; body := DecisionBody decision |};
            console := [] |})
    (fun err =>
       ret {| response := {| status := 500; body := ErrorBody err |};
              console := [err] |}).

End Server.

(** The request of the README, and a request that gives the amount only. *)
Module Requests.
Local Open Scope string_scope.

Definition readme_request : Payload.t :=
  {| Payload.amount_cents := Js.of_Z 1250;
     Payload.currency := Some "usd";
     Payload.payment_method := Some "card";
     Payload.merchant :=
       Some {| merchant_id := "m_1";
               cash_flow_sensitivity := Js.decimal 7 10;
               whitelisted_for := None |} |}.

Definition bare_request : Payload.t :=
  {| Payload.amount_cents := Js.of_Z 1250;
     Payload.currency := None;
     Payload.payment_method := None;
     Payload.merchant := None |}.

Definition wire_request : Payload.t :=
  {| Payload.amount_cents := Js.of_Z 1250;
     Payload.currency := Some "usd";
     Payload.payment_method := Some "wire";
     Payload.merchant := None |}.

(** A request that spells out what [bare_request] leaves to the defaults,
    but for the currency and the merchant's id. *)
Definition explicit_request : Payload.t :=
  {| Payload.amount_cents := Js.of_Z 1250;
     Payload.currency := Some "eur";
     Payload.payment_method := Some "card";
     Payload.merchant :=
       Some {| merchant_id := "m_9";
               cash_flow_sensitivity := Js.decimal 5 10;
               whitelisted_for := None |} |}.

End Requests.

(** Further catalogs and payments. *)
Module Samples.
Import Scenario.
Local Open Scope string_scope.

(** The payment of the README in another currency, from another merchant. *)
Definition euro_payment : Payment :=
  {| amount_cents := Js.of_Z 1250;
     currency := "eur";
     payment_method := "card";
     merchant := {| merchant_id := "m_2";
                    cash_flow_sensitivity := Js.decimal 7 10;
                    whitelisted_for := None |} |}.

(** The default catalog without its processor for ACH only, and a catalog
    without "Stripe". *)
Definition card_catalog : list Processor := [Stripe; LocalProcessorA; FastPayout].
Definition lone_catalog : list Processor := [LocalProcessorA].

(** The catalog of Scenario A, the other way round. *)
Definition reversed_catalog : list Processor := [LocalProcessorA; Stripe].

(** The heap of the server before a request: the catalog and the rules. *)
Definition server_heap : heap :=
  [ProcessorArray default_catalog; RulesObject default_rules].

(** A payment from a merchant whose [cash_flow_sensitivity] is missing:
    [undefined] is NaN in the products and comparisons it enters.  Its
    evaluations against the default catalog, computed. *)
Definition unrated_payment : Payment :=
  {| amount_cents := Js.of_Z 1250;
     currency := "usd";
     payment_method := "card";
     merchant := {| merchant_id := "m_3";
                    cash_flow_sensitivity := Js.NaN;
                    whitelisted_for := None |} |}.

Definition unrated_evaluations : list Evaluation :=
  Eval vm_compute in Examples.evaluated default_catalog default_rules unrated_payment.

(** A processor that names no fee. *)
Definition FreeRider : Processor :=
  {| name := "FreeRider";
     fee_percentage := None;
     fee_flat_cents := None;
     settlement_time_days := Js.of_Z 1;
     success_rate := Js.decimal 95 100;
     supports_card := true;
     supports_ach := false;
     instant_payout := false;
     requires_whitelist := None |}.

(** A processor with the fees, settlement time and success rate of
    LocalProcessorA under another name.  Listed behind a baseline that
    charges a percentage only, for a payment of nothing: the baseline's
    score is NaN and the scores of the two others are equal. *)
Definition LocalTwin : Processor :=
  {| name := "LocalTwin";
     fee_percentage := Some (Js.decimal 25 1000);
     fee_flat_cents := Some (Js.of_Z 25);
     settlement_time_days := Js.of_Z 1;
     success_rate := Js.decimal 965 1000;
     supports_card := true;
     supports_ach := false;
     instant_payout := false;
     requires_whitelist := None |}.

Definition nan_first_catalog : list Processor :=
  [Examples.percentage_only; LocalProcessorA; LocalTwin].

(** A processor that pays two and a half cents back on every payment. *)
Definition Rebate : Processor :=
  {| name := "Rebate";
     fee_percentage := None;
     fee_flat_cents := Some (Js.decimal (-25) 10);
     settlement_time_days := Js.of_Z 1;
     success_rate := Js.decimal 95 100;
     supports_card := true;
     supports_ach := false;
     instant_payout := false;
     requires_whitelist := None |}.

(** The request of [unrated_payment]: a merchant object with an [id] and
    nothing else. *)
Definition unrated_request : Payload.t :=
  {| Payload.amount_cents := Js.of_Z 1250;
     Payload.currency := Some "usd";
     Payload.payment_method := Some "card";
     Payload.merchant :=
       Some {| merchant_id := "m_3";
               cash_flow_sensitivity := Js.NaN;
               whitelisted_for := None |} |}.

End Samples.

(** The heap holds the catalog [ps] at [processors], the rules [r] at [rules]
    and the payment [pay] at [payment]. *)
Definition snapshot (h : heap) (processors rules payment : ref)
    (ps : list Processor) (r : Rules) (pay : Payment) : Prop :=
  nth_error h processors = Some (ProcessorArray ps) /\
  nth_error h rules = Some (RulesObject r) /\
  nth_error h payment = Some (PaymentObject pay).

(** All numbers of a processor, of the rules and of a payment are binary64
    values. *)
Definition valid_option (x : option Js.number) : Prop :=
  match x with
  | Some v => Exact.valid v
  | None => True
  end.

Definition valid_processor (p : Processor) : Prop :=
  valid_option (fee_percentage p) /\ valid_option (fee_flat_cents p) /\
  Exact.valid (settlement_time_days p) /\ Exact.valid (success_rate p).

Definition valid_rules (r : Rules) : Prop :=
  Exact.valid (min_relative_savings_to_switch (rule_thresholds r)) /\
  Exact.valid (min_success_rate (rule_thresholds r)) /\
  Exact.valid (fee_weight (scoring_weights r)) /\
  Exact.valid (settlement_weight (scoring_weights r)) /\
  Exact.valid (risk_weight (scoring_weights r)) /\
  Exact.valid (switch_bonus (scoring_weights r)) /\
  Exact.valid (instant_payout_bonus (scoring_weights r)) /\
  Exact.valid (slow_settlement_penalty (scoring_weights r)).

Definition valid_payment (pay : Payment) : Prop :=
  Exact.valid (amount_cents pay) /\
  Exact.valid (cash_flow_sensitivity (merchant pay)).

(** [w] is the first element of [l] with the greatest key: the elements
    before it have a smaller key, those after it none greater. *)
Definition first_max {A} (key : A -> Js.number) (l : list A) (w : A) : Prop :=
  exists l1 l2,
    l = (l1 ++ w :: l2)%list /\
    (forall x, In x l1 -> Exact.lt (key x) (key w)) /\
    (forall x, In x l2 -> Exact.le (key x) (key w)).

(** Keys that can be ordered: numbers that are not NaN. *)
Definition ordered_keys {A} (key : A -> Js.number) (l : list A) : Prop :=
  forall x, In x l -> Exact.wf (key x) /\ Js.is_nan (key x) = false.

(** The key of the fallback path. *)
Definition rate (e : Evaluation) : Js.number := success_rate (processor e).

(** The name of [p] is not on the merchant's whitelist. *)
Definition not_whitelisted (p : Processor) (pay : Payment) : Prop :=
  match whitelisted_for (merchant pay) with
  | Some names => ~ In (name p) names
  | None => True
  end.

(** The number [x] is the integer [n]: its exact value is [n], that is
    [n * 2^1074] units of [2^-1074]. *)
Definition is_the_integer (x : Js.number) (n : Z) : Prop :=
  Exact.value x = Some (Exact.Fin (n * 2 ^ 1074)).

(** The fee formula in the words of the specification: the binary64 value
    of [amount_cents * fee_percentage + fee_flat_cents], where a
    [fee_percentage] or a [fee_flat_cents] that is missing counts as 0.
    [feeAmountCents] is compared with it below. *)
Definition missing_as_zero (x : option Js.number) : Js.number :=
  match x with
  | Some v => v
  | None => Js.zero
  end.

Definition fee_formula (p : Processor) (pay : Payment) : Js.number :=
  Js.add (Js.mul (amount_cents pay) (missing_as_zero (fee_percentage p)))
         (missing_as_zero (fee_flat_cents p)).

(** A property that is missing, or holds a number (not NaN). *)
Definition number_option (x : option Js.number) : Prop :=
  match x with
  | Some v => Js.is_nan v = false
  | None => True
  end.

(** Two numbers that are the same but for the sign of a zero. *)
Definition same_number (x y : Js.number) : Prop :=
  x = y \/ (Exact.is_zero x = true /\ Exact.is_zero y = true).

(** A property that is missing or holds a falsy number: [undefined], [NaN],
    [+0] or [-0]. *)
Definition falsy (x : option Js.number) : Prop :=
  match x with
  | None | Some S754_nan | Some (S754_zero _) => True
  | Some _ => False
  end.

(** * Facts about binary64 arithmetic *)

Module NumFacts.
Import Js Exact.

Lemma fexp_eq e : fexp prec emax e = Z.max (e - 53) emin.
Proof. reflexivity. Qed.

Lemma digits2_pos_bounds (m : positive) :
  2 ^ (Zpos (digits2_pos m) - 1) <= Zpos m < 2 ^ Zpos (digits2_pos m).
Proof.
  induction m as [m IH | m IH |]; cbn [digits2_pos].
  - rewrite Pos2Z.inj_succ. change (Zpos m~1) with (2 * Zpos m + 1).
    replace (Z.succ (Zpos (digits2_pos m)) - 1)
      with (Z.succ (Zpos (digits2_pos m) - 1)) by lia.
    rewrite !Z.pow_succ_r by lia.
    revert IH.
    generalize (2 ^ (Zpos (digits2_pos m) - 1)), (2 ^ Zpos (digits2_pos m)). lia.
  - rewrite Pos2Z.inj_succ. change (Zpos m~0) with (2 * Zpos m).
    replace (Z.succ (Zpos (digits2_pos m)) - 1)
      with (Z.succ (Zpos (digits2_pos m) - 1)) by lia.
    rewrite !Z.pow_succ_r by lia.
    revert IH.
    generalize (2 ^ (Zpos (digits2_pos m) - 1)), (2 ^ Zpos (digits2_pos m)). lia.
  - cbn. lia.
Qed.

Lemma Zdigits2_bounds m : 0 < m -> 2 ^ (Zdigits2 m - 1) <= m < 2 ^ Zdigits2 m.
Proof. destruct m as [| p | p]; try lia. intros _. apply digits2_pos_bounds. Qed.

Lemma Zdigits2_unique m d :
  2 ^ (d - 1) <= m < 2 ^ d -> 0 < d -> Zdigits2 m = d.
Proof.
  intros [Hlo Hhi] Hd.
  assert (Hm : 0 < m).
  { eapply Z.lt_le_trans; [| exact Hlo]. apply Z.pow_pos_nonneg; lia. }
  destruct (Zdigits2_bounds m Hm) as [Hlo' Hhi'].
  assert (Hpos : 0 < Zdigits2 m) by (destruct m; cbn; lia).
  destruct (Z.lt_trichotomy (Zdigits2 m) d) as [Hlt | [Heq | Hgt]]; [| exact Heq |].
  - exfalso. assert (2 ^ Zdigits2 m <= 2 ^ (d - 1)) by (apply Z.pow_le_mono_r; lia). lia.
  - exfalso. assert (2 ^ d <= 2 ^ (Zdigits2 m - 1)) by (apply Z.pow_le_mono_r; lia). lia.
Qed.

Lemma shr_1_m (r : shr_record) :
  0 <= shr_m r -> shr_m (shr_1 r) = shr_m r / 2.
Proof.
  destruct r as [m b s]; cbn [shr_m]; intros Hm.
  destruct m as [| p | p]; [reflexivity | | lia].
  destruct p as [p | p |]; cbn [shr_1 shr_m].
  - change (Zpos p~1) with (2 * Zpos p + 1). apply Z.div_unique with (r := 1); lia.
  - change (Zpos p~0) with (2 * Zpos p). apply Z.div_unique with (r := 0); lia.
  - reflexivity.
Qed.

Lemma iter_shr_1_m (p : positive) : forall r : shr_record,
  0 <= shr_m r -> shr_m (SpecFloat.iter_pos shr_1 p r) = shr_m r / 2 ^ Zpos p.
Proof.
  induction p as [p IH | p IH |]; intros r Hr; cbn [SpecFloat.iter_pos].
  - assert (H1 : 0 <= shr_m (shr_1 r)) by (rewrite shr_1_m by lia; apply Z.div_pos; lia).
    assert (H2 : 0 <= shr_m (SpecFloat.iter_pos shr_1 p (shr_1 r)))
      by (rewrite IH by lia; apply Z.div_pos; [lia | apply Z.pow_pos_nonneg; lia]).
    rewrite IH, IH, shr_1_m by lia.
    rewrite !Z.div_div by (try apply Z.pow_pos_nonneg; lia).
    f_equal. change (Zpos p~1) with (2 * Zpos p + 1).
    replace (2 * Zpos p + 1) with (1 + Zpos p + Zpos p) by lia.
    rewrite !Z.pow_add_r by lia. rewrite Z.pow_1_r. lia.
  - assert (H2 : 0 <= shr_m (SpecFloat.iter_pos shr_1 p r))
      by (rewrite IH by lia; apply Z.div_pos; [lia | apply Z.pow_pos_nonneg; lia]).
    rewrite IH, IH by lia.
    rewrite !Z.div_div by (try apply Z.pow_pos_nonneg; lia).
    f_equal. change (Zpos p~0) with (2 * Zpos p).
    replace (2 * Zpos p) with (Zpos p + Zpos p) by lia.
    rewrite !Z.pow_add_r by lia. lia.
  - rewrite shr_1_m by lia. reflexivity.
Qed.

Lemma shr_record_of_loc_m m l : shr_m (shr_record_of_loc m l) = m.
Proof. destruct l as [| []]; reflexivity. Qed.

(** What [shr_fexp] does to the mantissa and to the exponent. *)
Lemma shr_fexp_spec m e l r e' :
  0 <= m ->
  shr_fexp prec emax m e l = (r, e') ->
  0 <= shr_m r < 2 ^ 53 /\ e <= e' /\ emin <= e' /\
  (0 < m -> emin <= e -> 0 < shr_m r).
Proof.
  intros Hm. unfold shr_fexp, shr. rewrite fexp_eq.
  assert (Hsmall : Zdigits2 m <= 53 -> m < 2 ^ 53).
  { intros Hd. destruct (Z.eq_dec m 0) as [-> | Hn]; [reflexivity |].
    pose proof (Zdigits2_bounds m ltac:(lia)) as [_ Hhi].
    eapply Z.lt_le_trans; [exact Hhi |]. apply Z.pow_le_mono_r; lia. }
  destruct (Z.max (Zdigits2 m + e - 53) emin - e) as [| p | p] eqn:Hn;
    intros [= <- <-]; rewrite ?shr_record_of_loc_m.
  - unfold emin in *. repeat split; lia.
  - rewrite iter_shr_1_m by (rewrite shr_record_of_loc_m; lia).
    rewrite shr_record_of_loc_m.
    repeat split; try (unfold emin in *; lia).
    + apply Z.div_pos; [lia | apply Z.pow_pos_nonneg; lia].
    + apply Z.div_lt_upper_bound; [apply Z.pow_pos_nonneg; lia |].
      destruct (Z.eq_dec m 0) as [-> | Hnz].
      { apply Z.mul_pos_pos; apply Z.pow_pos_nonneg; lia. }
      pose proof (Zdigits2_bounds m ltac:(lia)) as [Hlo Hhi].
      assert (0 < Zdigits2 m) by (destruct m; cbn; lia).
      rewrite <- Z.pow_add_r by lia.
      eapply Z.lt_le_trans; [exact Hhi |]. apply Z.pow_le_mono_r; lia.
    + intros Hpos He.
      pose proof (Zdigits2_bounds m Hpos) as [Hlo _].
      apply Z.div_str_pos. split; [apply Z.pow_pos_nonneg; lia |].
      eapply Z.le_trans; [| exact Hlo].
      apply Z.pow_le_mono_r; unfold emin in *; lia.
  - unfold emin in *. repeat split; lia.
Qed.

(** A mantissa already in canonical position is left alone. *)
Lemma shr_fexp_canonical m e l :
  Z.max (Zdigits2 m + e - 53) emin <= e ->
  shr_fexp prec emax m e l = (shr_record_of_loc m l, e).
Proof.
  intros H. unfold shr_fexp, shr. rewrite fexp_eq.
  destruct (Z.max (Zdigits2 m + e - 53) emin - e) eqn:Hn; try reflexivity. lia.
Qed.

Lemma round_nearest_even_bounds m l :
  m <= round_nearest_even m l <= m + 1.
Proof.
  destruct l as [| []]; cbn [round_nearest_even]; try lia.
  destruct (Z.even m); lia.
Qed.

Lemma binary_round_aux_rounded s m e l :
  0 <= m ->
  rounded s e (0 < m /\ emin <= e) (binary_round_aux prec emax s m e l).
Proof.
  intros Hm. unfold binary_round_aux.
  destruct (shr_fexp prec emax m e l) as [r1 e1] eqn:H1.
  destruct (shr_fexp_spec _ _ _ _ _ Hm H1) as (Hr1 & He1 & Hmin1 & Hpos1).
  pose proof (round_nearest_even_bounds (shr_m r1) (loc_of_shr_record r1)) as Hrne.
  destruct (shr_fexp prec emax _ e1 loc_Exact) as [r2 e2] eqn:H2.
  assert (Hm2 : 0 <= round_nearest_even (shr_m r1) (loc_of_shr_record r1)) by lia.
  destruct (shr_fexp_spec _ _ _ _ _ Hm2 H2) as (Hr2 & He2 & Hmin2 & Hpos2).
  destruct (shr_m r2) as [| p | p] eqn:Hp; cbn [rounded].
  - split; [reflexivity |]. intros [Hpos He].
    specialize (Hpos1 Hpos He). lia.
  - destruct (_ <=? _); cbn [rounded]; [| reflexivity]. repeat split; lia.
  - lia.
Qed.

Lemma iter_xO (m d : positive) : Zpos (Pos.iter xO m d) = Zpos m * 2 ^ Zpos d.
Proof.
  induction d as [| d IH] using Pos.peano_ind.
  - cbn. lia.
  - rewrite Pos.iter_succ, Pos2Z.inj_succ, Z.pow_succ_r by lia.
    change (Zpos (Pos.iter xO m d)~0) with (2 * Zpos (Pos.iter xO m d)).
    rewrite IH. lia.
Qed.

Lemma shl_align_spec m e e' m1 e1 :
  shl_align m e e' = (m1, e1) ->
  e1 = Z.min e e' /\ Zpos m1 = Zpos m * 2 ^ (e - e1).
Proof.
  unfold shl_align. destruct (e' - e) as [| d | d] eqn:Hd; intros [= <- <-].
  - split; [lia |]. rewrite Z.sub_diag. cbn. lia.
  - split; [lia |]. rewrite Z.sub_diag. cbn. lia.
  - split; [lia |]. rewrite iter_xO. do 2 f_equal. lia.
Qed.

Lemma binary_round_rounded s m e :
  rounded s (Z.min e (fexp prec emax (Zpos (digits2_pos m) + e))) (emin <= e)
    (binary_round prec emax s m e).
Proof.
  unfold binary_round.
  destruct (shl_align m e _) as [m1 e1] eqn:Hal.
  apply shl_align_spec in Hal as [He1 Hm1].
  pose proof (binary_round_aux_rounded s (Zpos m1) e1 loc_Exact ltac:(lia)) as H.
  rewrite fexp_eq in He1.
  destruct (binary_round_aux _ _ _ _ _ _); cbn [rounded] in *; try tauto.
  - destruct H as [-> H]. split; [reflexivity |]. intros He. apply H.
    unfold emin in *. lia.
  - rewrite fexp_eq. intuition lia.
Qed.

Lemma rounded_wf s lo P x : rounded s lo P x -> wf x.
Proof. destruct x; cbn; tauto. Qed.

Lemma rounded_not_nan s lo P x : rounded s lo P x -> is_nan x = false.
Proof. destruct x; cbn; tauto. Qed.

Lemma binary_normalize_cases z e :
  emin <= e ->
  match binary_normalize prec emax z e false with
  | S754_zero s => s = false /\ z = 0
  | S754_infinity s => if s then z < 0 else 0 < z
  | S754_finite s m e' => (if s then z < 0 else 0 < z) /\ emin <= e' /\ Zpos m < 2 ^ 53
  | S754_nan => False
  end.
Proof.
  intros He. destruct z as [| p | p]; cbn [binary_normalize].
  - split; reflexivity.
  - pose proof (binary_round_rounded false p e) as H.
    destruct (binary_round _ _ _ _ _); cbn [rounded] in H; try tauto.
    + subst. lia.
    + destruct H as (-> & ? & _ & ?). repeat split; lia.
  - pose proof (binary_round_rounded true p e) as H.
    destruct (binary_round _ _ _ _ _); cbn [rounded] in H; try tauto.
    + subst. lia.
    + destruct H as (-> & ? & _ & ?). repeat split; lia.
Qed.

Lemma binary_normalize_wf z e s : wf (binary_normalize prec emax z e s).
Proof.
  destruct z as [| p | p]; cbn [binary_normalize]; [exact I | |];
    eapply rounded_wf, binary_round_rounded.
Qed.

Lemma binary_normalize_not_nan z e s : is_nan (binary_normalize prec emax z e s) = false.
Proof.
  destruct z as [| p | p]; cbn [binary_normalize]; [reflexivity | |];
    eapply rounded_not_nan, binary_round_rounded.
Qed.

End NumFacts.

(** * Facts about the arithmetic operations *)

Module OpFacts.
Import Js Exact NumFacts.

Lemma valid_wf x : valid x -> wf x.
Proof.
  destruct x as [| | | s m e]; try (intros _; exact I).
  unfold wf, valid, valid_binary, bounded, canonical_mantissa. rewrite fexp_eq.
  intros H. apply andb_prop in H as [H _]. apply Z.eqb_eq in H.
  pose proof (digits2_pos_bounds m) as [_ Hhi].
  split; [lia |].
  eapply Z.lt_le_trans; [exact Hhi |]. apply Z.pow_le_mono_r; lia.
Qed.

Lemma mul_wf x y : wf (mul x y).
Proof.
  destruct x as [sx | sx | | sx mx ex], y as [sy | sy | | sy my ey]; try exact I.
  unfold mul, SFmul. eapply rounded_wf, binary_round_aux_rounded. lia.
Qed.

Lemma mul_not_nan x y :
  is_finite x = true -> is_finite y = true -> is_nan (mul x y) = false.
Proof.
  destruct x as [sx | sx | | sx mx ex], y as [sy | sy | | sy my ey];
    cbn [is_finite]; try discriminate; try reflexivity.
  intros _ _. unfold mul, SFmul. eapply rounded_not_nan, binary_round_aux_rounded. lia.
Qed.

Lemma add_wf x y : wf x -> wf y -> wf (add x y).
Proof.
  destruct x as [sx | sx | | sx mx ex], y as [sy | sy | | sy my ey];
    intros Hx Hy; try exact I; try exact Hx; try exact Hy;
    try (destruct sx, sy; exact I).
  apply binary_normalize_wf.
Qed.

Lemma sub_wf x y : wf x -> wf y -> wf (sub x y).
Proof.
  destruct x as [sx | sx | | sx mx ex], y as [sy | sy | | sy my ey];
    intros Hx Hy; try exact I; try exact Hx; try exact Hy;
    try (destruct sx, sy; exact I).
  apply binary_normalize_wf.
Qed.

Lemma div_core_nonneg m1 e1 m2 e2 :
  0 <= fst (fst (SFdiv_core_binary prec emax (Zpos m1) e1 (Zpos m2) e2)).
Proof.
  unfold SFdiv_core_binary.
  set (s := _ - _ - _).
  set (m' := match s with Z0 => _ | Zpos _ => _ | Zneg _ => _ end).
  assert (Hm : 0 <= m').
  { unfold m'. destruct s; try lia. apply Z.shiftl_nonneg. lia. }
  destruct (Z.div_eucl m' (Zpos m2)) as [q r] eqn:E. cbn [fst].
  assert (q = m' / Zpos m2) as -> by (unfold Z.div; rewrite E; reflexivity).
  apply Z.div_pos; lia.
Qed.

Lemma div_finite_rounded sx mx ex sy my ey :
  rounded (xorb sx sy)
    (snd (fst (SFdiv_core_binary prec emax (Zpos mx) ex (Zpos my) ey))) False
    (div (S754_finite sx mx ex) (S754_finite sy my ey)).
Proof.
  unfold div, SFdiv.
  pose proof (div_core_nonneg mx ex my ey) as Hq.
  destruct (SFdiv_core_binary _ _ _ _ _ _) as [[q e'] l]. cbn [fst snd] in *.
  pose proof (binary_round_aux_rounded (xorb sx sy) q e' l Hq) as H.
  destruct (binary_round_aux _ _ _ _ _ _); cbn [rounded] in *; intuition.
Qed.

Lemma div_wf x y : wf (div x y).
Proof.
  destruct x as [sx | sx | | sx mx ex], y as [sy | sy | | sy my ey]; try exact I.
  eapply rounded_wf, div_finite_rounded.
Qed.

Lemma max_wf x y : wf x -> wf y -> wf (max x y).
Proof.
  intros Hx Hy. unfold max.
  destruct (is_nan x || is_nan y); [exact I |].
  destruct (ltb x y); [exact Hy |]. destruct (ltb y x); [exact Hx |].
  destruct x, y; auto; exact I.
Qed.

Lemma min_wf x y : wf x -> wf y -> wf (min x y).
Proof.
  intros Hx Hy. unfold min.
  destruct (is_nan x || is_nan y); [exact I |].
  destruct (ltb x y); [exact Hx |]. destruct (ltb y x); [exact Hy |].
  destruct x, y; auto; exact I.
Qed.

Lemma of_Z_wf z : wf (of_Z z).
Proof. apply binary_normalize_wf. Qed.

Lemma round_wf x : wf x -> wf (round x).
Proof.
  destruct x as [| | | s m e]; cbn [round]; auto.
  intros H. destruct (0 <=? e); [exact H |].
  destruct (_ / _); [exact I | |]; apply of_Z_wf.
Qed.

Lemma or_zero_wf x : valid_option x -> wf (or_zero x).
Proof.
  destruct x as [[| | | s m e] |]; cbn; auto. intros H. apply (valid_wf _ H).
Qed.

(** ** Order *)

Lemma scaled_pos m e : emin <= e -> 0 < Zpos m * 2 ^ (e - emin).
Proof. intros He. apply Z.mul_pos_pos; [lia | apply Z.pow_pos_nonneg; lia]. Qed.

Lemma compare_scaled a b k : 0 < k -> (a * k ?= b * k) = (a - b ?= 0).
Proof.
  intros Hk. destruct (Z.compare_spec (a - b) 0) as [Hc | Hc | Hc].
  - apply Z.compare_eq_iff. f_equal. lia.
  - apply Z.compare_lt_iff. apply Z.mul_lt_mono_pos_r; lia.
  - apply Z.compare_gt_iff. apply Z.mul_lt_mono_pos_r; lia.
Qed.

Lemma aligned_value s m e ez m1 :
  ez <= e -> emin <= ez ->
  Zpos m1 = Zpos m * 2 ^ (e - ez) ->
  cond_Zopp s (Zpos m * 2 ^ (e - emin)) = cond_Zopp s (Zpos m1) * 2 ^ (ez - emin).
Proof.
  intros H1 H2 ->.
  replace (e - emin) with ((e - ez) + (ez - emin)) by lia.
  rewrite Z.pow_add_r by lia.
  destruct s; cbn [cond_Zopp]; ring.
Qed.

(** The sign of a difference is the order of the exact values: nothing is
    lost to rounding, a non-zero difference of two binary64 values being at
    least [2^emin] in magnitude. *)
Lemma sub_sign x y :
  wf x -> wf y ->
  match compare x y with
  | Some Gt => gtb (sub x y) zero = true
  | Some Lt => ltb (sub x y) zero = true
  | _ => gtb (sub x y) zero = false /\ ltb (sub x y) zero = false
  end.
Proof.
  intros Hx Hy.
  destruct x as [sx | sx | | sx mx ex], y as [sy | sy | | sy my ey];
    try (destruct sx, sy; cbn; auto; fail);
    try (destruct sx; cbn; auto; fail);
    try (destruct sy; cbn; auto; fail);
    try (cbn; auto; fail).
  - (* 0 - y *)
    destruct Hy as [Hy _]. pose proof (scaled_pos my ey Hy) as Hp.
    unfold compare. cbn [value ext_compare sub SFsub].
    destruct sy; cbn [cond_Zopp negb].
    + replace (0 ?= - _) with Gt by (symmetry; apply Z.compare_gt_iff; lia).
      reflexivity.
    + replace (0 ?= _) with Lt by (symmetry; apply Z.compare_lt_iff; lia).
      reflexivity.
  - (* x - 0 *)
    destruct Hx as [Hx _]. pose proof (scaled_pos mx ex Hx) as Hp.
    unfold compare. cbn [value ext_compare sub SFsub].
    destruct sx; cbn [cond_Zopp negb].
    + replace (- _ ?= 0) with Lt by (symmetry; apply Z.compare_lt_iff; lia).
      reflexivity.
    + replace (_ ?= 0) with Gt by (symmetry; apply Z.compare_gt_iff; lia).
      reflexivity.
  - (* both finite and not zero *)
    destruct Hx as [Hx _], Hy as [Hy _].
    unfold compare. cbn [value ext_compare sub SFsub].
    remember (Z.min ex ey) as ez eqn:Hez.
    destruct (shl_align mx ex ez) as [m1 e1] eqn:H1.
    destruct (shl_align my ey ez) as [m2 e2] eqn:H2.
    apply shl_align_spec in H1 as [He1 Hm1], H2 as [He2 Hm2].
    replace e1 with ez in Hm1 by lia. replace e2 with ez in Hm2 by lia.
    cbn [fst].
    rewrite (aligned_value sx mx ex ez m1), (aligned_value sy my ey ez m2) by lia.
    rewrite compare_scaled by (apply Z.pow_pos_nonneg; lia).
    pose proof (binary_normalize_cases
                  (cond_Zopp sx (Zpos m1) - cond_Zopp sy (Zpos m2)) ez ltac:(lia)) as Hn.
    destruct (binary_normalize _ _ _ _ _) as [s | s | | s m e].
    + destruct Hn as [-> ->]. cbn. auto.
    + destruct s.
      * replace (_ ?= 0) with Lt by (symmetry; apply Z.compare_lt_iff; lia). reflexivity.
      * replace (_ ?= 0) with Gt by (symmetry; apply Z.compare_gt_iff; lia). reflexivity.
    + tauto.
    + destruct Hn as [Hn _]. destruct s.
      * replace (_ ?= 0) with Lt by (symmetry; apply Z.compare_lt_iff; lia). reflexivity.
      * replace (_ ?= 0) with Gt by (symmetry; apply Z.compare_gt_iff; lia). reflexivity.
Qed.

Lemma ext_compare_antisym a b : ext_compare b a = CompOpp (ext_compare a b).
Proof. destruct a, b; cbn; auto. apply Z.compare_antisym. Qed.

Lemma compare_some x y :
  is_nan x = false -> is_nan y = false -> exists c, compare x y = Some c.
Proof. destruct x, y; cbn; try discriminate; eauto. Qed.

Lemma compare_antisym x y c : compare x y = Some c -> compare y x = Some (CompOpp c).
Proof.
  unfold compare. destruct (value x), (value y); try discriminate.
  intros [= <-]. f_equal. apply ext_compare_antisym.
Qed.

Lemma ext_le_trans a b c :
  ext_compare a b <> Gt -> ext_compare b c <> Gt -> ext_compare a c <> Gt.
Proof.
  destruct a, b, c; cbn; try congruence.
  rewrite !Z.compare_gt_iff. lia.
Qed.

Lemma le_iff x y : le x y <-> exists c, compare x y = Some c /\ c <> Gt.
Proof.
  unfold le, lt, eq. split.
  - intros [H | H]; rewrite H; eexists; split; eauto; discriminate.
  - intros ([] & H & Hc); auto. congruence.
Qed.

Lemma le_trans x y z : le x y -> le y z -> le x z.
Proof.
  rewrite !le_iff. unfold compare.
  destruct (value x), (value y), (value z);
    intros (c1 & [= <-] & H1) (c2 & [= <-] & H2); eexists; split; eauto.
  eapply ext_le_trans; eauto.
Qed.

Lemma lt_le x y : lt x y -> le x y.
Proof. unfold le. auto. Qed.

Lemma valid_normal m e :
  valid (S754_finite false m e) ->
  emin <= e /\ Zpos m < 2 ^ 53 /\ (emin < e -> 2 ^ 52 <= Zpos m).
Proof.
  unfold valid, valid_binary, bounded, canonical_mantissa. rewrite fexp_eq.
  intros H. apply andb_prop in H as [H _]. apply Z.eqb_eq in H.
  pose proof (digits2_pos_bounds m) as [Hlo Hhi].
  split; [lia |]. split.
  - eapply Z.lt_le_trans; [exact Hhi |]. apply Z.pow_le_mono_r; lia.
  - intros He. assert (Zpos (digits2_pos m) = 53) as Hd by lia.
    rewrite Hd in Hlo. exact Hlo.
Qed.

(** Among binary64 values of one sign a smaller exponent is a smaller
    magnitude. *)
Lemma canonical_lt m1 e1 m2 e2 :
  valid (S754_finite false m1 e1) -> valid (S754_finite false m2 e2) ->
  e1 < e2 ->
  Zpos m1 * 2 ^ (e1 - emin) < Zpos m2 * 2 ^ (e2 - emin).
Proof.
  intros H1 H2 He.
  destruct (valid_normal _ _ H1) as (Hmin1 & Hm1 & _).
  destruct (valid_normal _ _ H2) as (Hmin2 & _ & Hm2).
  specialize (Hm2 ltac:(lia)).
  assert (Hk : 0 < 2 ^ (e1 - emin)) by (apply Z.pow_pos_nonneg; lia).
  apply Z.lt_le_trans with (2 ^ 53 * 2 ^ (e1 - emin)).
  - apply Z.mul_lt_mono_pos_r; assumption.
  - apply Z.le_trans with (2 ^ 52 * 2 ^ (e2 - emin)).
    + replace (2 ^ 53) with (2 ^ 52 * 2 ^ 1) by reflexivity.
      rewrite <- Z.mul_assoc, <- Z.pow_add_r by lia.
      apply Z.mul_le_mono_nonneg_l; [lia |]. apply Z.pow_le_mono_r; lia.
    + apply Z.mul_le_mono_nonneg_r; [apply Z.pow_nonneg; lia | exact Hm2].
Qed.

Lemma valid_sign s m e :
  valid (S754_finite s m e) -> valid (S754_finite false m e).
Proof. intros H. exact H. Qed.

Lemma compare_magnitudes m1 e1 m2 e2 :
  valid (S754_finite false m1 e1) -> valid (S754_finite false m2 e2) ->
  (Zpos m1 * 2 ^ (e1 - emin) ?= Zpos m2 * 2 ^ (e2 - emin))
  = match e1 ?= e2 with
    | Lt => Lt
    | Gt => Gt
    | Eq => Pos.compare_cont Eq m1 m2
    end.
Proof.
  intros H1 H2. destruct (Z.compare_spec e1 e2) as [-> | He | He].
  - destruct (valid_normal _ _ H1) as (Hmin & _).
    rewrite compare_scaled by (apply Z.pow_pos_nonneg; lia).
    change (Pos.compare_cont Eq m1 m2) with (Zpos m1 ?= Zpos m2).
    destruct (Z.compare_spec (Zpos m1) (Zpos m2)) as [Hc | Hc | Hc].
    + rewrite Hc, Z.sub_diag. reflexivity.
    + apply Z.compare_lt_iff. lia.
    + apply Z.compare_gt_iff. lia.
  - apply Z.compare_lt_iff. apply canonical_lt; assumption.
  - apply Z.compare_gt_iff. apply canonical_lt; assumption.
Qed.

(** On binary64 values the order of the exact values is the order that [<],
    [<=], [>] and [>=] compute. *)
Lemma compare_valid x y : valid x -> valid y -> SFcompare x y = compare x y.
Proof.
  intros Hx Hy.
  destruct x as [sx | sx | | sx mx ex], y as [sy | sy | | sy my ey];
    try reflexivity;
    try (destruct sx, sy; reflexivity);
    try (destruct sx; reflexivity);
    try (destruct sy; reflexivity).
  - (* zero, finite *)
    pose proof (scaled_pos my ey (proj1 (valid_wf _ Hy))) as Hp.
    unfold compare. cbn [SFcompare value ext_compare]. f_equal.
    destruct sy; cbn [cond_Zopp]; symmetry;
      [apply Z.compare_gt_iff | apply Z.compare_lt_iff]; lia.
  - (* finite, zero *)
    pose proof (scaled_pos mx ex (proj1 (valid_wf _ Hx))) as Hp.
    unfold compare. cbn [SFcompare value ext_compare]. f_equal.
    destruct sx; cbn [cond_Zopp]; symmetry;
      [apply Z.compare_lt_iff | apply Z.compare_gt_iff]; lia.
  - (* finite, finite *)
    pose proof (scaled_pos mx ex (proj1 (valid_wf _ Hx))) as Hpx.
    pose proof (scaled_pos my ey (proj1 (valid_wf _ Hy))) as Hpy.
    unfold compare. cbn [SFcompare value ext_compare]. f_equal.
    destruct sx, sy; cbn [cond_Zopp].
    + rewrite Z.compare_opp.
      rewrite (compare_magnitudes my ey mx ex
                 (valid_sign _ _ _ Hy) (valid_sign _ _ _ Hx)).
      rewrite (Z.compare_antisym ey ex).
      destruct (ey ?= ex) eqn:Hc; cbn [CompOpp]; try reflexivity.
      rewrite Pos.compare_cont_antisym. reflexivity.
    + symmetry. apply Z.compare_lt_iff. lia.
    + symmetry. apply Z.compare_gt_iff. lia.
    + symmetry. apply compare_magnitudes;
        [exact (valid_sign _ _ _ Hx) | exact (valid_sign _ _ _ Hy)].
Qed.

End OpFacts.

(** * Facts about [sort] *)

Module SortFacts.
Import Js Exact OpFacts JsLib.

Lemma ltb_zero_not_gtb r : ltb r zero = true -> gtb r zero = false.
Proof. destruct r as [[] | [] | | [] m e]; cbn; congruence. Qed.

Lemma insert_In {A} (cmp : A -> A -> number) x y l :
  In y (insert cmp x l) <-> y = x \/ In y l.
Proof.
  induction l as [| z l IH]; cbn [insert].
  - cbn. intuition.
  - destruct (after cmp x z); cbn [In]; [rewrite IH |]; intuition.
Qed.

Lemma sort_In {A} (cmp : A -> A -> number) y l : In y (sort cmp l) <-> In y l.
Proof.
  induction l as [| x l IH]; cbn [sort]; [tauto |].
  rewrite insert_In, IH. cbn. intuition.
Qed.

Lemma insert_length {A} (cmp : A -> A -> number) x l :
  List.length (insert cmp x l) = S (List.length l).
Proof.
  induction l as [| z l IH]; cbn [insert]; [reflexivity |].
  destruct (after cmp x z); cbn [List.length]; [rewrite IH |]; reflexivity.
Qed.

Lemma sort_length {A} (cmp : A -> A -> number) l :
  List.length (sort cmp l) = List.length l.
Proof.
  induction l as [| x l IH]; cbn [sort]; [reflexivity |].
  rewrite insert_length, IH. reflexivity.
Qed.

Section Descending.
Context {A : Type} (key : A -> number).

Lemma after_descending a b :
  wf (key a) -> wf (key b) ->
  after (descending key) a b = true <-> compare (key b) (key a) = Some Gt.
Proof.
  intros Ha Hb. unfold after, descending.
  pose proof (sub_sign (key b) (key a) Hb Ha) as H.
  destruct (compare (key b) (key a)) as [[] |].
  - destruct H as [-> _]. split; discriminate.
  - rewrite (ltb_zero_not_gtb _ H). split; discriminate.
  - rewrite H. tauto.
  - destruct H as [-> _]. split; discriminate.
Qed.

(** The head of an array sorted by descending key is the first element with
    the greatest key. *)
Lemma sort_head l :
  ordered_keys key l -> l <> [] ->
  exists w rest, sort (descending key) l = w :: rest /\ first_max key l w.
Proof.
  induction l as [| x l IH]; intros Hk Hne; [congruence |].
  destruct l as [| x' l'].
  - exists x, []. split; [reflexivity |].
    exists [], []. cbn. intuition.
  - destruct IH as (w & rest & Hs & l1 & l2 & Hl & H1 & H2).
    { intros y Hy. apply Hk. right. exact Hy. }
    { discriminate. }
    assert (Hx : wf (key x) /\ is_nan (key x) = false) by (apply Hk; left; reflexivity).
    assert (Hw : wf (key w) /\ is_nan (key w) = false).
    { apply Hk. right. rewrite Hl. apply in_or_app. right. left. reflexivity. }
    change (sort (descending key) (x :: x' :: l')) with (insert (descending key) x (sort (descending key) (x' :: l'))).
    rewrite Hs. cbn [insert].
    destruct (after (descending key) x w) eqn:Haft.
    + exists w, (insert (descending key) x rest). split; [reflexivity |].
      exists (x :: l1), l2. rewrite Hl. split; [reflexivity |]. split; [| exact H2].
      intros y [<- | Hy]; [| apply H1; exact Hy].
      apply after_descending in Haft; try tauto.
      apply compare_antisym in Haft. exact Haft.
    + exists x, (w :: rest). split; [reflexivity |].
      exists [], (x' :: l'). split; [reflexivity |]. split; [intros y [] |].
      assert (Hwx : le (key w) (key x)).
      { destruct (compare_some (key w) (key x)) as [c Hc]; try tauto.
        apply le_iff. exists c. split; [exact Hc |]. intros ->.
        apply after_descending in Hc; try tauto. congruence. }
      intros y Hy. rewrite Hl in Hy. apply in_app_or in Hy as [Hy | [<- | Hy]].
      * eapply le_trans; [apply lt_le, H1, Hy | exact Hwx].
      * exact Hwx.
      * eapply le_trans; [apply H2, Hy | exact Hwx].
Qed.

End Descending.

End SortFacts.

(** * Running the heap computations *)

Module RunFacts.
Import Js JsLib.
Local Open Scope nat_scope.

Lemma nth_error_fresh (h cells : heap) (k : nat) :
  nth_error (h ++ cells) (List.length h + k) = nth_error cells k.
Proof.
  rewrite nth_error_app2 by lia. f_equal. lia.
Qed.

Lemma nth_error_old (h cells : heap) (l : ref) (o : object) :
  nth_error h l = Some o -> nth_error (h ++ cells) l = Some o.
Proof.
  intros H. rewrite nth_error_app1; [exact H |].
  apply nth_error_Some. congruence.
Qed.

Lemma update_fresh (h cells : heap) (k : nat) (o : object) :
  update (List.length h + k) o (h ++ cells) = (h ++ update k o cells)%list.
Proof.
  induction h as [| c h IH]; cbn [List.length Nat.add app update]; [reflexivity |].
  rewrite IH. reflexivity.
Qed.

Lemma load_processors_run h l ps :
  nth_error h l = Some (ProcessorArray ps) -> load_processors l h = (Return ps, h).
Proof. intros H. unfold load_processors, bind, load. rewrite H. reflexivity. Qed.

Lemma load_evaluations_run h l es :
  nth_error h l = Some (EvaluationArray es) -> load_evaluations l h = (Return es, h).
Proof. intros H. unfold load_evaluations, bind, load. rewrite H. reflexivity. Qed.

Lemma load_rules_run h l r :
  nth_error h l = Some (RulesObject r) -> load_rules l h = (Return r, h).
Proof. intros H. unfold load_rules, bind, load. rewrite H. reflexivity. Qed.

Lemma load_payment_run h l p :
  nth_error h l = Some (PaymentObject p) -> load_payment l h = (Return p, h).
Proof. intros H. unfold load_payment, bind, load. rewrite H. reflexivity. Qed.

(** Loads leave the heap as it is, whatever they find. *)
Lemma load_heap l h : snd (load l h) = h.
Proof. unfold load. destruct (nth_error h l); reflexivity. Qed.

Lemma load_processors_heap l h : snd (load_processors l h) = h.
Proof.
  unfold load_processors, bind, load.
  destruct (nth_error h l) as [[] |]; reflexivity.
Qed.

Lemma load_evaluations_heap l h : snd (load_evaluations l h) = h.
Proof.
  unfold load_evaluations, bind, load.
  destruct (nth_error h l) as [[] |]; reflexivity.
Qed.

Lemma load_rules_heap l h : snd (load_rules l h) = h.
Proof.
  unfold load_rules, bind, load.
  destruct (nth_error h l) as [[] |]; reflexivity.
Qed.

Lemma load_payment_heap l h : snd (load_payment l h) = h.
Proof.
  unfold load_payment, bind, load.
  destruct (nth_error h l) as [[] |]; reflexivity.
Qed.

(** [evaluateProcessor] only reads. *)
Lemma evaluateProcessor_heap processors rules p pay h :
  snd (evaluateProcessor processors rules p pay h) = h.
Proof.
  unfold evaluateProcessor, bind.
  pose proof (load_processors_heap processors h) as Hp.
  destruct (load_processors processors h) as [[ps | e] h1]; cbn [snd] in Hp; subst h1;
    [| reflexivity].
  destruct (find _ ps); [| reflexivity].
  pose proof (load_rules_heap rules h) as Hr.
  destruct (load_rules rules h) as [[r | e] h1]; cbn [snd] in Hr; subst h1; reflexivity.
Qed.

Lemma evaluateProcessor_run processors rules p pay h ps r :
  nth_error h processors = Some (ProcessorArray ps) ->
  nth_error h rules = Some (RulesObject r) ->
  evaluateProcessor processors rules p pay h = (Pure.evaluate ps r p pay, h).
Proof.
  intros Hp Hr. unfold Pure.evaluate, evaluateProcessor, bind.
  rewrite (load_processors_run _ _ _ Hp).
  rewrite (load_processors_run [ProcessorArray ps; RulesObject r] 0 ps eq_refl).
  destruct (find _ ps); [| reflexivity].
  rewrite (load_rules_run _ _ _ Hr).
  rewrite (load_rules_run [ProcessorArray ps; RulesObject r] 1 r eq_refl).
  reflexivity.
Qed.

Lemma mapM_run {A B} (f : A -> M B) (g : A -> outcome B) (l : list A) (h : heap) :
  (forall x, f x h = (g x, h)) ->
  mapM f l h = (Pure.traverse g l, h).
Proof.
  intros Hf. induction l as [| x l IH]; cbn [mapM Pure.traverse]; [reflexivity |].
  unfold bind at 1. rewrite Hf. destruct (g x) as [y | e]; [| reflexivity].
  unfold bind at 1. rewrite IH. destruct (Pure.traverse g l); reflexivity.
Qed.

Lemma mapM_heap {A B} (f : A -> M B) (l : list A) (h : heap) :
  (forall x h', snd (f x h') = h') -> snd (mapM f l h) = h.
Proof.
  intros Hf. revert h. induction l as [| x l IH]; intros h; cbn [mapM]; [reflexivity |].
  unfold bind at 1. pose proof (Hf x h) as Hx.
  destruct (f x h) as [[y | e] h1]; cbn [snd] in Hx; subst h1; [| reflexivity].
  unfold bind at 1. pose proof (IH h) as Hl.
  destruct (mapM f l h) as [[ys | e] h1]; cbn [snd] in Hl; subst h1; reflexivity.
Qed.

End RunFacts.

Module DecideFacts.
Import Js JsLib RunFacts.
Local Open Scope nat_scope.

Lemma length_snoc (h : heap) (o : object) : List.length (h ++ [o]) = List.length h + 1.
Proof. rewrite length_app. reflexivity. Qed.

(** [decide], given the outcome [ev] of evaluating the candidates. *)
Lemma decide_run_with processors rules payment h ps pay ev :
  nth_error h processors = Some (ProcessorArray ps) ->
  nth_error h payment = Some (PaymentObject pay) ->
  (let h1 := (h ++ [ProcessorArray (Pure.candidates ps pay)])%list in
   mapM (fun p => evaluateProcessor processors rules p pay) (Pure.candidates ps pay) h1
   = (ev, h1)) ->
  decide processors rules payment h
  = (Pure.select pay ev, (h ++ Pure.cells (Pure.candidates ps pay) ev)%list).
Proof.
  intros Hp Hpay Hev. cbv zeta in Hev.
  unfold decide, Pure.select, Pure.cells.
  unfold bind at 1. rewrite (load_payment_run _ _ _ Hpay).
  unfold bind at 1. unfold filter_processors at 1. unfold bind at 1.
  rewrite (load_processors_run _ _ _ Hp). unfold alloc at 1.
  fold (Pure.candidates ps pay).
  set (C := ProcessorArray (Pure.candidates ps pay)) in *.
  unfold bind at 1. unfold map_processors at 1. unfold bind at 1.
  rewrite (load_processors_run (h ++ [C]) (List.length h) (Pure.candidates ps pay))
    by (rewrite <- (Nat.add_0_r (List.length h)); apply nth_error_fresh).
  unfold bind at 1. rewrite Hev.
  destruct ev as [es | e]; [| reflexivity].
  unfold alloc at 1. rewrite length_snoc, <- app_assoc. cbn [app].
  set (E := EvaluationArray es).
  unfold bind at 1. unfold filter_evaluations at 1. unfold bind at 1.
  rewrite (load_evaluations_run (h ++ [C; E]) (List.length h + 1) es)
    by (apply (nth_error_fresh h [C; E] 1)).
  unfold alloc at 1. rewrite length_app, <- app_assoc. cbn [app List.length].
  fold (Pure.viable es).
  unfold bind at 1. unfold array_length at 1. unfold bind at 1.
  rewrite (load_evaluations_run (h ++ [C; E; EvaluationArray (Pure.viable es)])
             (List.length h + 2) (Pure.viable es))
    by (apply (nth_error_fresh h [C; E; EvaluationArray (Pure.viable es)] 2)).
  unfold ret at 1.
  destruct (Pure.viable es) as [| v vs] eqn:Hv; cbn [List.length Nat.eqb].
  - unfold bind at 1. unfold sort_evaluations at 1. unfold bind at 1.
    rewrite (load_evaluations_run (h ++ [C; E; EvaluationArray []]) (List.length h + 1) es)
      by (apply (nth_error_fresh h [C; E; EvaluationArray []] 1)).
    unfold bind at 1. unfold store at 1. unfold ret at 1.
    rewrite update_fresh. cbn [update].
    unfold bind at 1. unfold array_get at 1. unfold bind at 1.
    rewrite (load_evaluations_run _ (List.length h + 1) (sort Pure.by_success_rate es))
      by (apply (nth_error_fresh h [C; _; EvaluationArray []] 1)).
    unfold ret at 1.
    change (fun a b : Evaluation =>
              sub (success_rate (processor b)) (success_rate (processor a)))
      with Pure.by_success_rate.
    destruct (sort Pure.by_success_rate es) as [| f fs] eqn:Hs; reflexivity.
  - unfold bind at 1. unfold sort_evaluations at 1. unfold bind at 1.
    rewrite (load_evaluations_run (h ++ [C; E; EvaluationArray (v :: vs)])
               (List.length h + 2) (v :: vs))
      by (apply (nth_error_fresh h [C; E; EvaluationArray (v :: vs)] 2)).
    unfold bind at 1. unfold store at 1. unfold ret at 1.
    rewrite update_fresh. cbn [update].
    unfold bind at 1. unfold array_get at 1. unfold bind at 1.
    rewrite (load_evaluations_run _ (List.length h + 2) (sort Pure.by_score (v :: vs)))
      by (apply (nth_error_fresh h [C; E; _] 2)).
    unfold ret at 1.
    change (fun a b : Evaluation => sub (score b) (score a)) with Pure.by_score.
    destruct (sort Pure.by_score (v :: vs)) as [| w ws] eqn:Hs; reflexivity.
Qed.

(** The heap computation computes the functions of [Pure]. *)
Lemma decide_run processors rules payment h ps r pay :
  snapshot h processors rules payment ps r pay ->
  decide processors rules payment h
  = (Pure.decide ps r pay, (h ++ Pure.allocated ps r pay)%list).
Proof.
  intros (Hp & Hr & Hpay).
  apply decide_run_with; [exact Hp | exact Hpay |]. cbv zeta.
  apply (mapM_run _ (fun p => Pure.evaluate ps r p pay)).
  intros x. apply evaluateProcessor_run; apply nth_error_old; assumption.
Qed.

(** Whatever the heap holds, a call leaves every object that was there as it
    was and only adds objects of its own. *)
Lemma decide_extends processors rules payment h :
  exists cells, snd (decide processors rules payment h) = (h ++ cells)%list.
Proof.
  destruct (nth_error h payment) as [[| | | pay] |] eqn:Hpay;
    try (exists []; rewrite app_nil_r; unfold decide, bind, load_payment, bind, load;
         rewrite Hpay; reflexivity).
  destruct (nth_error h processors) as [[ps | | |] |] eqn:Hp;
    try (exists []; rewrite app_nil_r; unfold decide; unfold bind at 1;
         rewrite (load_payment_run _ _ _ Hpay);
         unfold bind at 1, filter_processors, bind, load_processors, bind, load;
         rewrite Hp; reflexivity).
  set (h1 := (h ++ [ProcessorArray (Pure.candidates ps pay)])%list).
  pose proof (mapM_heap (fun p => evaluateProcessor processors rules p pay)
                (Pure.candidates ps pay) h1
                (fun x h' => evaluateProcessor_heap processors rules x pay h')) as Hm.
  destruct (mapM _ _ h1) as [ev h2] eqn:Hev. cbn [snd] in Hm. subst h2.
  rewrite (decide_run_with processors rules payment h ps pay ev Hp Hpay Hev).
  eexists. reflexivity.
Qed.

End DecideFacts.

(** * Facts about [evaluateProcessor] *)

Module EvalFacts.
Import Js JsLib RunFacts Exact OpFacts NumFacts.

#[local] Arguments add : simpl never.
#[local] Arguments sub : simpl never.
#[local] Arguments mul : simpl never.
#[local] Arguments div : simpl never.
#[local] Arguments max : simpl never.
#[local] Arguments min : simpl never.

Lemma ltb_leb x y : ltb x y = true -> leb x y = true.
Proof. unfold ltb, leb, SFltb, SFleb. destruct (SFcompare x y) as [[] |]; congruence. Qed.

Lemma div_not_nan x sy my ey :
  is_nan x = false -> is_nan (div x (S754_finite sy my ey)) = false.
Proof.
  destruct x as [sx | sx | | sx mx ex]; cbn [is_nan]; try discriminate; try reflexivity.
  intros _. eapply rounded_not_nan, div_finite_rounded.
Qed.

Lemma sub_not_nan sx mx ex y :
  is_nan y = false -> is_nan (sub (S754_finite sx mx ex) y) = false.
Proof.
  destruct y as [sy | sy | | sy my ey]; cbn [is_nan]; try discriminate; try reflexivity.
  intros _. apply binary_normalize_not_nan.
Qed.

(** [Math.max(0, v)] of a number is a number that is not negative. *)
Lemma max_zero v :
  is_nan v = false ->
  is_nan (max zero v) = false /\ leb zero (max zero v) = true.
Proof.
  intros Hv. unfold max. rewrite Hv. cbn [is_nan orb].
  destruct (ltb zero v) eqn:H1; [split; [exact Hv | apply ltb_leb, H1] |].
  destruct (ltb v zero); [split; reflexivity |].
  destruct v; split; reflexivity.
Qed.

(** [Math.min(1, g)] of a number that is not negative lies between 0 and 1. *)
Lemma min_one g :
  is_nan g = false -> leb zero g = true ->
  leb zero (min one g) = true /\ leb (min one g) one = true.
Proof.
  intros Hn Hg. unfold min. rewrite Hn. cbn [is_nan orb one].
  destruct (ltb one g); [split; reflexivity |].
  destruct (ltb g one) eqn:H2; [split; [exact Hg | apply ltb_leb, H2] |].
  split; reflexivity.
Qed.

Lemma evaluate_no_baseline ps r p pay :
  Pure.baseline ps = None -> Pure.evaluate ps r p pay = Throw TypeError.
Proof.
  intros Hb. unfold Pure.evaluate, evaluateProcessor, bind.
  rewrite (load_processors_run [ProcessorArray ps; RulesObject r] 0 ps eq_refl).
  fold (Pure.baseline ps). rewrite Hb. reflexivity.
Qed.

(** Runs [evaluateProcessor] where the catalog has its baseline [Hb]. *)
Ltac run_evaluate Hb :=
  unfold Pure.evaluate, evaluateProcessor, bind;
  rewrite (load_processors_run [ProcessorArray _; RulesObject _] 0 _ eq_refl);
  match type of Hb with Pure.baseline ?ps = _ => fold (Pure.baseline ps) end;
  rewrite Hb;
  rewrite (load_rules_run [ProcessorArray _; RulesObject _] 1 _ eq_refl);
  unfold ret; cbn [fst].

(** The record [evaluateProcessor] returns, field by field. *)
Lemma evaluate_fields ps r p pay stripe :
  Pure.baseline ps = Some stripe ->
  exists e bonus,
    Pure.evaluate ps r p pay = Return e /\ processor e = p /\
    fee_cents e = feeAmountCents p pay /\
    risk_score e = success_rate p /\
    saving_pct_vs_stripe e
    = div (sub (feeAmountCents stripe pay) (feeAmountCents p pay))
          (feeAmountCents stripe pay) /\
    settlement_score e
    = min one
        (max zero
           (max zero
              (sub one
                 (div (mul (settlement_time_days p) (cash_flow_sensitivity (merchant pay)))
                      (of_Z 5))))) /\
    passesStrict e
    = (if geb (success_rate p) (min_success_rate (rule_thresholds r))
       then
         if negb (truthy (requires_whitelist p)) then Some true
         else match whitelisted_for (merchant pay) with
              | None => None
              | Some names => Some (existsb (String.eqb (name p)) names)
              end
       else Some false) /\
    score e
    = add (add (add (mul (fee_weight (scoring_weights r))
                         (max zero (saving_pct_vs_stripe e)))
                    (mul (settlement_weight (scoring_weights r)) (settlement_score e)))
               (mul (risk_weight (scoring_weights r)) (risk_score e)))
          bonus /\
    (valid_rules r -> wf bonus).
Proof.
  intros Hb. run_evaluate Hb. eexists. eexists.
  split; [reflexivity |]. cbn [processor fee_cents risk_score saving_pct_vs_stripe
                                 settlement_score passesStrict score].
  do 6 (split; [reflexivity |]). split; [reflexivity |].
  intros (_ & _ & _ & _ & _ & H1 & H2 & H3).
  apply valid_wf in H1, H2, H3.
  repeat match goal with
         | |- wf (if ?c then _ else _) => destruct c
         | |- wf (add _ _) => apply add_wf
         | |- wf (sub _ _) => apply sub_wf
         | |- wf zero => exact I
         | |- _ => assumption
         end.
Qed.

Lemma evaluate_returns ps r p pay :
  Pure.baseline ps <> None -> exists e, Pure.evaluate ps r p pay = Return e.
Proof.
  destruct (Pure.baseline ps) as [stripe |] eqn:Hb; [| congruence]. intros _.
  destruct (evaluate_fields ps r p pay stripe Hb) as (e & _ & He & _). eauto.
Qed.

(** Splits on the baseline and names the fields of the evaluation [He]. *)
Ltac evaluate_inv ps r p pay He :=
  let stripe := fresh "stripe" in
  let Hb := fresh "Hb" in
  destruct (Pure.baseline ps) as [stripe |] eqn:Hb;
  [ let e' := fresh "e" in
    let bonus := fresh "bonus" in
    let He' := fresh "He" in
    destruct (evaluate_fields ps r p pay stripe Hb)
      as (e' & bonus & He' & ?Hproc & ?Hfee & ?Hrisk & ?Hsav & ?Hset & ?Hpass & ?Hscore & ?Hbonus);
    rewrite He' in He; injection He as He; subst e'
  | rewrite (evaluate_no_baseline _ _ _ _ Hb) in He; discriminate He ].

Lemma evaluate_processor ps r p pay e :
  Pure.evaluate ps r p pay = Return e -> processor e = p.
Proof. intros He. evaluate_inv ps r p pay He. assumption. Qed.

(** A processor that passes the strict checks needs no whitelist, or is on
    the merchant's. *)
Lemma evaluate_passes ps r p pay e :
  Pure.evaluate ps r p pay = Return e ->
  truthy (passesStrict e) = true ->
  geb (success_rate p) (min_success_rate (rule_thresholds r)) = true /\
  (truthy (requires_whitelist p) = false \/
   exists names, whitelisted_for (merchant pay) = Some names /\ In (name p) names).
Proof.
  intros He. evaluate_inv ps r p pay He. rewrite Hpass.
  destruct (geb (success_rate p) _); [| discriminate].
  destruct (truthy (requires_whitelist p)); cbn [negb]; [| auto].
  destruct (whitelisted_for (merchant pay)) as [names |]; [| discriminate].
  cbn [truthy]. intros H. split; [reflexivity |]. right. exists names.
  split; [reflexivity |].
  destruct (existsb _ names) eqn:Hex; [| discriminate].
  apply existsb_exists in Hex as (x & Hin & Hx).
  apply String.eqb_eq in Hx. subst x. exact Hin.
Qed.

(** The score is the result of a sum. *)
Lemma evaluate_score_wf ps r p pay e :
  valid_rules r ->
  Pure.evaluate ps r p pay = Return e -> wf (score e).
Proof.
  intros Hr He. evaluate_inv ps r p pay He. rewrite Hscore.
  apply add_wf; [repeat apply add_wf; apply mul_wf | apply Hbonus, Hr].
Qed.

(** A saving that is NaN makes the score NaN. *)
Lemma evaluate_score_nan ps r p pay e :
  Pure.evaluate ps r p pay = Return e ->
  is_nan (saving_pct_vs_stripe e) = true -> is_nan (score e) = true.
Proof.
  intros He. evaluate_inv ps r p pay He. rewrite Hscore.
  destruct (saving_pct_vs_stripe e); cbn [is_nan]; try discriminate. intros _.
  change (max zero S754_nan) with S754_nan.
  replace (mul (fee_weight (scoring_weights r)) S754_nan) with S754_nan
    by (destruct (fee_weight (scoring_weights r)); reflexivity).
  reflexivity.
Qed.

Lemma evaluate_settlement ps r p pay e :
  Pure.evaluate ps r p pay = Return e ->
  is_finite (settlement_time_days p) = true ->
  is_finite (cash_flow_sensitivity (merchant pay)) = true ->
  leb zero (settlement_score e) = true /\ leb (settlement_score e) one = true.
Proof.
  intros He Hd Hs. evaluate_inv ps r p pay He. rewrite Hset.
  pose proof (mul_not_nan _ _ Hd Hs) as H1.
  pose proof (div_not_nan _ false 5629499534213120 (-50) H1) as H2.
  change (S754_finite false 5629499534213120 (-50)) with (of_Z 5) in H2.
  pose proof (sub_not_nan false 4503599627370496 (-52) _ H2) as H3.
  change (S754_finite false 4503599627370496 (-52)) with one in H3.
  destruct (max_zero _ H3) as [H4 _].
  destruct (max_zero _ H4) as [H5 H6].
  apply min_one; assumption.
Qed.

End EvalFacts.

(** * Facts about the evaluation of the candidates *)

Module CandidateFacts.
Import Js JsLib RunFacts Exact OpFacts EvalFacts.

Lemma traverse_In {A B} (f : A -> outcome B) l ys y :
  Pure.traverse f l = Return ys -> In y ys -> exists x, In x l /\ f x = Return y.
Proof.
  revert ys. induction l as [| x l IH]; cbn [Pure.traverse]; intros ys.
  - intros [= <-] [].
  - destruct (f x) as [y0 | e] eqn:Hx; [| discriminate].
    destruct (Pure.traverse f l) as [ys0 | e]; [| discriminate].
    intros [= <-] [<- | Hy].
    + exists x. split; [left; reflexivity | exact Hx].
    + destruct (IH ys0 eq_refl Hy) as (x' & Hin & Hx'). exists x'. split; [right |]; assumption.
Qed.

Lemma traverse_returns {A B} (f : A -> outcome B) l :
  (forall x, In x l -> exists y, f x = Return y) ->
  exists ys, Pure.traverse f l = Return ys.
Proof.
  induction l as [| x l IH]; intros Hf; cbn [Pure.traverse]; [eauto |].
  destruct (Hf x (or_introl eq_refl)) as [y ->].
  destruct IH as [ys ->]; [intros x' Hx'; apply Hf; right; exact Hx' | eauto].
Qed.

Lemma traverse_map {A B} (f : A -> outcome B) (g : B -> A) l ys :
  (forall x y, f x = Return y -> g y = x) ->
  Pure.traverse f l = Return ys -> map g ys = l.
Proof.
  intros Hg. revert ys. induction l as [| x l IH]; cbn [Pure.traverse]; intros ys.
  - intros [= <-]. reflexivity.
  - destruct (f x) as [y0 | e] eqn:Hx; [| discriminate].
    destruct (Pure.traverse f l) as [ys0 | e]; [| discriminate].
    intros [= <-]. cbn [map]. rewrite (Hg _ _ Hx), (IH ys0 eq_refl). reflexivity.
Qed.

(** The evaluations are those of the candidates, in catalog order. *)
Lemma evaluations_processors ps r pay es :
  Pure.evaluations ps r pay = Return es -> map processor es = Pure.candidates ps pay.
Proof.
  apply traverse_map. intros x y. apply evaluate_processor.
Qed.

Lemma evaluations_returns ps r pay :
  Pure.baseline ps <> None -> exists es, Pure.evaluations ps r pay = Return es.
Proof.
  intros Hb. apply traverse_returns. intros x _. apply evaluate_returns, Hb.
Qed.

Lemma evaluations_In ps r pay es e :
  Pure.evaluations ps r pay = Return es -> In e es ->
  In (processor e) ps /\ Pure.evaluate ps r (processor e) pay = Return e.
Proof.
  intros Hes He. destruct (traverse_In _ _ _ _ Hes He) as (p & Hp & Hev).
  rewrite (evaluate_processor _ _ _ _ _ Hev).
  split; [| exact Hev]. unfold Pure.candidates in Hp. apply filter_In in Hp. tauto.
Qed.

Lemma candidates_nil ps pay :
  (forall p, In p ps -> supportsMethod p (payment_method pay) = false) ->
  Pure.candidates ps pay = [].
Proof.
  intros H. unfold Pure.candidates. induction ps as [| p ps IH]; [reflexivity |].
  cbn [filter]. rewrite (H p (or_introl eq_refl)). apply IH.
  intros q Hq. apply H. right. exact Hq.
Qed.

Lemma unique_name ps p q :
  NoDup (map name ps) -> In p ps -> In q ps -> name p = name q -> p = q.
Proof.
  induction ps as [| x ps IH]; cbn [map]; intros Hnd Hp Hq Hn; [destruct Hp |].
  inversion Hnd as [| ? ? Hx Hnd']; subst.
  destruct Hp as [<- | Hp], Hq as [<- | Hq]; auto.
  - exfalso. apply Hx. rewrite Hn. apply in_map, Hq.
  - exfalso. apply Hx. rewrite <- Hn. apply in_map, Hp.
Qed.

End CandidateFacts.

(** * Facts about [Math.round] and about numbers that are not negative *)

Module RoundFacts.
Import Js Exact NumFacts OpFacts.

Lemma binary_round_aux_canonical s m e :
  Z.max (Zdigits2 (Zpos m) + e - 53) emin <= e ->
  e <= emax - prec ->
  binary_round_aux prec emax s (Zpos m) e loc_Exact = S754_finite s m e.
Proof.
  intros Hc He. unfold binary_round_aux.
  rewrite (shr_fexp_canonical _ _ _ Hc). cbn [shr_record_of_loc loc_of_shr_record shr_m round_nearest_even].
  rewrite (shr_fexp_canonical _ _ _ Hc). cbn [shr_record_of_loc shr_m].
  destruct (e <=? emax - prec) eqn:Hle; [reflexivity |].
  apply Z.leb_gt in Hle. lia.
Qed.

(** An integer below 2^53 in magnitude is represented exactly. *)
Lemma binary_round_exact s (p : positive) :
  Zpos p < 2 ^ 53 ->
  exists m e, binary_round prec emax s p 0 = S754_finite s m e /\
              -52 <= e <= 0 /\ Zpos m = Zpos p * 2 ^ (- e).
Proof.
  intros Hp. unfold binary_round. rewrite fexp_eq.
  pose proof (digits2_pos_bounds p) as [Hlo Hhi].
  assert (Hd : Zpos (digits2_pos p) <= 53).
  { destruct (Z_le_gt_dec (Zpos (digits2_pos p)) 53) as [H | H]; [exact H | exfalso].
    assert (2 ^ 53 <= 2 ^ (Zpos (digits2_pos p) - 1)) by (apply Z.pow_le_mono_r; lia). lia. }
  destruct (shl_align p 0 _) as [m1 e1] eqn:Hal.
  apply shl_align_spec in Hal as [He1 Hm1].
  assert (He : e1 = Zpos (digits2_pos p) - 53) by (unfold emin in *; lia).
  exists m1, e1. split; [| split; [lia | rewrite Hm1; f_equal; f_equal; lia]].
  apply binary_round_aux_canonical; [| unfold emax, prec; lia].
  assert (Hdig : Zdigits2 (Zpos m1) = 53).
  { apply Zdigits2_unique; [| lia]. rewrite Hm1.
    replace (0 - e1) with (53 - Zpos (digits2_pos p)) by lia.
    split.
    - replace (53 - 1) with ((Zpos (digits2_pos p) - 1) + (53 - Zpos (digits2_pos p))) by lia.
      rewrite Z.pow_add_r by lia. apply Z.mul_le_mono_nonneg_r; [apply Z.pow_nonneg; lia | exact Hlo].
    - replace 53 with (Zpos (digits2_pos p) + (53 - Zpos (digits2_pos p))) at 2 by lia.
      rewrite Z.pow_add_r by lia. apply Z.mul_lt_mono_pos_r; [apply Z.pow_pos_nonneg; lia | exact Hhi]. }
  rewrite Hdig. unfold emin. lia.
Qed.

Lemma of_Z_spec n :
  n <> 0 -> Z.abs n < 2 ^ 53 ->
  exists m e, of_Z n = S754_finite (n <? 0) m e /\
              -52 <= e <= 0 /\ cond_Zopp (n <? 0) (Zpos m) = n * 2 ^ (- e).
Proof.
  intros Hn Hb. unfold of_Z. destruct n as [| p | p]; [congruence | |]; cbn [binary_normalize].
  - destruct (binary_round_exact false p) as (m & e & -> & He & Hm); [lia |].
    exists m, e. repeat split; try lia. exact Hm.
  - destruct (binary_round_exact true p) as (m & e & -> & He & Hm); [lia |].
    exists m, e. repeat split; try lia. cbn [Z.ltb Z.compare cond_Zopp]. rewrite Hm. lia.
Qed.

(** A representation [s m e] of the integer [n]. *)
Lemma integer_value s m e n :
  e <= 0 -> cond_Zopp s (Zpos m) = n * 2 ^ (- e) ->
  is_integer (S754_finite s m e) = true /\
  exists q, to_Q (S754_finite s m e) = Some q /\ (q == inject_Z n)%Q.
Proof.
  intros He Hm.
  assert (Hpow : 0 < 2 ^ (- e)) by (apply Z.pow_pos_nonneg; lia).
  split.
  - cbn [is_integer]. apply orb_true_iff. right. apply Z.eqb_eq.
    assert (Zpos m = Z.abs n * 2 ^ (- e)) as ->.
    { destruct s; cbn [cond_Zopp] in Hm; nia. }
    apply Z.mod_mul. lia.
  - cbn [to_Q]. destruct (0 <=? e) eqn:H0.
    + apply Z.leb_le in H0. assert (e = 0) as -> by lia.
      eexists. split; [reflexivity |]. rewrite Hm. cbn. rewrite !Z.mul_1_r. reflexivity.
    + eexists. split; [reflexivity |].
      unfold Qeq. cbn [Qnum Qden inject_Z]. rewrite Z2Pos.id by exact Hpow. lia.
Qed.

Lemma round_half_up_integer z : round_half_up (inject_Z z) = z.
Proof.
  unfold round_half_up, Qfloor, Qplus, inject_Z. cbn [Qnum Qden].
  change (Zpos (1 * 2)) with 2. symmetry. apply Z.div_unique with (r := 1); lia.
Qed.

Lemma round_half_up_dyadic M k :
  0 < k ->
  round_half_up (Qmake M (Z.to_pos (2 ^ k))) = (2 * M + 2 ^ k) / 2 ^ (1 + k).
Proof.
  intros Hk. assert (Hpow : 0 < 2 ^ k) by (apply Z.pow_pos_nonneg; lia).
  unfold round_half_up, Qfloor, Qplus. cbn [Qnum Qden].
  rewrite Pos2Z.inj_mul, Z2Pos.id by exact Hpow.
  rewrite Z.pow_add_r, Z.pow_1_r by lia. f_equal; lia.
Qed.

Lemma round_bound s m k :
  Zpos m < 2 ^ 53 -> 0 < k ->
  Z.abs ((2 * cond_Zopp s (Zpos m) + 2 ^ k) / 2 ^ (1 + k)) < 2 ^ 53 /\
  (s = false -> 0 <= (2 * cond_Zopp s (Zpos m) + 2 ^ k) / 2 ^ (1 + k)).
Proof.
  intros Hm Hk.
  assert (HA : 2 <= 2 ^ k).
  { change 2 with (2 ^ 1) at 1. apply Z.pow_le_mono_r; lia. }
  rewrite Z.pow_add_r, Z.pow_1_r by lia.
  remember (2 ^ k) as A eqn:HeqA. clear HeqA.
  remember (cond_Zopp s (Zpos m)) as M eqn:HM.
  assert (HMb : - 2 ^ 53 < M < 2 ^ 53) by (subst M; destruct s; cbn [cond_Zopp]; lia).
  split.
  - apply Z.abs_lt. split.
    + apply Z.lt_le_trans with (- 2 ^ 53 + 1); [lia |].
      apply Z.div_le_lower_bound; lia.
    + apply Z.div_lt_upper_bound; lia.
  - intros ->. cbn [cond_Zopp] in HM. apply Z.div_pos; lia.
Qed.

Lemma round_negative_exponent s m e :
  e < 0 ->
  round (S754_finite s m e)
  = if (2 * cond_Zopp s (Zpos m) + 2 ^ (- e)) / 2 ^ (1 - e) =? 0
    then S754_zero s
    else of_Z ((2 * cond_Zopp s (Zpos m) + 2 ^ (- e)) / 2 ^ (1 - e)).
Proof.
  intros He. cbn [round].
  destruct (0 <=? e) eqn:H0; [apply Z.leb_le in H0; lia |].
  destruct (_ / _); reflexivity.
Qed.

(** [Math.round] of a finite number: an integer, the value rounded half up. *)
Lemma round_spec x :
  wf x -> is_finite x = true ->
  is_finite (round x) = true /\
  is_integer (round x) = true /\
  (nonneg x -> nonneg (round x)) /\
  exists q q', to_Q x = Some q /\ to_Q (round x) = Some q' /\
               (q' == inject_Z (round_half_up q))%Q.
Proof.
  destruct x as [s | s | | s m e]; cbn [is_finite]; try discriminate; intros Hwf _.
  - cbn [round]. repeat split; auto.
    exists 0%Q, 0%Q. repeat split; reflexivity.
  - destruct Hwf as [He Hm].
    destruct (0 <=? e) eqn:H0.
    + cbn [round]. rewrite H0. repeat split; auto.
      * cbn [is_integer]. rewrite H0. reflexivity.
      * cbn [to_Q]. rewrite H0. eexists. eexists. split; [reflexivity |].
        split; [reflexivity |]. rewrite round_half_up_integer. reflexivity.
    + apply Z.leb_gt in H0. rewrite (round_negative_exponent s m e H0).
      replace (1 - e) with (1 + - e) by lia.
      destruct (round_bound s m (- e) Hm ltac:(lia)) as [Hb Hs].
      assert (Hq : to_Q (S754_finite s m e)
                   = Some (Qmake (cond_Zopp s (Zpos m)) (Z.to_pos (2 ^ (- e))))).
      { cbn [to_Q]. destruct (0 <=? e) eqn:H1; [apply Z.leb_le in H1; lia | reflexivity]. }
      rewrite Hq.
      pose proof (round_half_up_dyadic (cond_Zopp s (Zpos m)) (- e) ltac:(lia)) as Hr.
      remember ((2 * cond_Zopp s (Zpos m) + 2 ^ (- e)) / 2 ^ (1 + - e)) as n eqn:Hn.
      destruct (n =? 0) eqn:Hn0.
      * apply Z.eqb_eq in Hn0. subst n. repeat split; auto.
        eexists. exists 0%Q. split; [reflexivity |]. split; [reflexivity |].
        rewrite Hr, Hn0. reflexivity.
      * apply Z.eqb_neq in Hn0.
        destruct (of_Z_spec n Hn0 Hb) as (m' & e' & Hof & He' & Hm').
        destruct (integer_value _ _ _ _ (proj2 He') Hm') as [Hint (q' & Hq' & Heq)].
        rewrite Hof. repeat split; auto.
        -- intros Hnn. destruct s; [destruct Hnn |]. specialize (Hs eq_refl).
           destruct (n <? 0) eqn:Hlt; [apply Z.ltb_lt in Hlt; lia | exact I].
        -- eexists. exists q'. split; [reflexivity |]. split; [exact Hq' |].
           rewrite Hr. exact Heq.
Qed.

Lemma nonneg_of_geb x : is_finite x = true -> geb x zero = true -> nonneg x.
Proof. destruct x as [| | | [] m e]; cbn; auto; discriminate. Qed.

Lemma geb_of_nonneg x : nonneg x -> geb x zero = true.
Proof. destruct x as [| | | [] m e]; cbn; auto; contradiction. Qed.

Lemma or_zero_nonneg x : nonneg_option x -> nonneg (or_zero x).
Proof.
  destruct x as [v |]; cbn [nonneg_option or_zero]; [| intros _; exact I].
  intros [Hf Hg]. pose proof (nonneg_of_geb v Hf Hg) as H.
  destruct v as [| | | [] m e]; cbn in *; auto.
Qed.

Lemma mul_nonneg a p : nonneg a -> nonneg p -> nonneg (mul a p) \/ mul a p = Infinity.
Proof.
  destruct a as [sa | | | [] ma ea], p as [sp | | | [] mp ep];
    cbn [nonneg]; try contradiction; intros _ _; try (left; exact I).
  pose proof (binary_round_aux_rounded false (Zpos (ma * mp)) (ea + ep) loc_Exact
                ltac:(lia)) as H.
  unfold mul, SFmul. cbn [xorb].
  destruct (binary_round_aux _ _ _ _ _ _) as [s | s | | s m e]; cbn [rounded] in H.
  - left. exact I.
  - right. subst s. reflexivity.
  - contradiction.
  - left. destruct H as [-> _]. exact I.
Qed.

Lemma add_nonneg y f :
  nonneg y \/ y = Infinity -> nonneg f -> nonneg (add y f) \/ add y f = Infinity.
Proof.
  intros [Hy | ->] Hf.
  - destruct y as [sy | | | [] my ey], f as [sf | | | [] mf ef];
      cbn [nonneg] in *; try contradiction; try (left; exact I).
    + left. destruct sy, sf; exact I.
    + unfold add, SFadd. cbn [cond_Zopp].
      set (ez := Z.min ey ef).
      destruct (Zpos (fst (shl_align my ey ez)) + Zpos (fst (shl_align mf ef ez)))
        as [| z | z] eqn:Hz; try lia.
      cbn [binary_normalize].
      pose proof (binary_round_rounded false z ez) as H.
      destruct (binary_round _ _ _ _ _) as [s | s | | s m e]; cbn [rounded] in H.
      * left. exact I.
      * right. subst s. reflexivity.
      * contradiction.
      * left. destruct H as [-> _]. exact I.
  - right. destruct f as [sf | | | [] mf ef]; cbn [nonneg] in Hf; try contradiction; reflexivity.
Qed.

End RoundFacts.

(** * Facts about the selection *)

Module SelectFacts.
Import Js JsLib Exact OpFacts SortFacts EvalFacts CandidateFacts.

Lemma select_viable pay es v vs :
  Pure.viable es = v :: vs ->
  exists w, Pure.select pay (Return es) = Return (Pure.decision pay w (Pure.score_reason w)) /\
            In w (Pure.viable es).
Proof.
  intros Hv. unfold Pure.select. rewrite Hv.
  destruct (sort Pure.by_score (v :: vs)) as [| w ws] eqn:Hs.
  - apply (f_equal (@List.length _)) in Hs. rewrite sort_length in Hs. discriminate.
  - exists w. split; [reflexivity |].
    apply (sort_In Pure.by_score). rewrite Hs. left. reflexivity.
Qed.

(** On the fallback path the evaluation chosen is the first one with the
    greatest success rate. *)
Lemma fallback_first_max ps r pay es :
  (forall p, In p ps -> valid_processor p) ->
  Pure.evaluations ps r pay = Return es ->
  (forall e, In e es -> is_nan (rate e) = false) ->
  es <> [] ->
  Pure.viable es = [] ->
  exists w, Pure.select pay (Return es) = Return (Pure.decision pay w fallback_reason) /\
            first_max rate es w.
Proof.
  intros Hval Hes Hnan Hne Hv.
  destruct (sort_head rate es) as (w & rest & Hs & Hmax); [| exact Hne |].
  { intros e He. split; [| apply Hnan, He].
    destruct (evaluations_In _ _ _ _ _ Hes He) as [Hp _].
    apply valid_wf. apply (Hval _ Hp). }
  exists w. split; [| exact Hmax].
  unfold Pure.select. rewrite Hv.
  change Pure.by_success_rate with (descending rate). rewrite Hs. reflexivity.
Qed.

(** On the scoring path it is the first viable one with the greatest score. *)
Lemma scoring_first_max ps r pay es :
  valid_rules r ->
  Pure.evaluations ps r pay = Return es ->
  (forall e, In e (Pure.viable es) -> is_nan (score e) = false) ->
  Pure.viable es <> [] ->
  exists w, Pure.select pay (Return es) = Return (Pure.decision pay w (Pure.score_reason w)) /\
            first_max score (Pure.viable es) w.
Proof.
  intros Hr Hes Hnan Hne.
  destruct (sort_head score (Pure.viable es)) as (w & rest & Hs & Hmax); [| exact Hne |].
  { intros e He. split; [| apply Hnan, He].
    unfold Pure.viable in He. apply filter_In in He as [He _].
    destruct (evaluations_In _ _ _ _ _ Hes He) as [_ Hev].
    apply (evaluate_score_wf _ _ _ _ _ Hr Hev). }
  exists w. split; [| exact Hmax].
  unfold Pure.select. destruct (Pure.viable es) as [| v vs]; [congruence |].
  change Pure.by_score with (descending score). rewrite Hs. reflexivity.
Qed.

(** A quotient by zero is NaN or an infinity. *)
Lemma div_by_zero x s :
  is_finite (div x (S754_zero s)) = false /\
  (is_zero x = true -> is_nan (div x (S754_zero s)) = true) /\
  (is_zero x = false -> is_nan x = false ->
   exists s', div x (S754_zero s) = S754_infinity s').
Proof. destruct x; cbn; repeat split; eauto; discriminate. Qed.

Lemma sub_from_zero s y :
  (is_zero y = true -> is_zero (sub (S754_zero s) y) = true) /\
  (is_zero y = false -> is_nan y = false ->
   is_zero (sub (S754_zero s) y) = false /\ is_nan (sub (S754_zero s) y) = false).
Proof. destruct y as [[] | | |]; destruct s; cbn; repeat split; auto; discriminate. Qed.

End SelectFacts.

(** * Facts about the outcome of [decide] *)

Module OutcomeFacts.
Import Js JsLib Exact OpFacts SortFacts RunFacts DecideFacts EvalFacts CandidateFacts.
Import SelectFacts.
Local Open Scope string_scope.

Lemma baseline_Some ps s :
  Pure.baseline ps = Some s -> In s ps /\ name s = "Stripe".
Proof.
  unfold Pure.baseline. intros H. apply find_some in H as [Hin Hn].
  apply String.eqb_eq in Hn. auto.
Qed.

Lemma baseline_None ps :
  Pure.baseline ps = None <-> forall s, In s ps -> name s <> "Stripe".
Proof.
  unfold Pure.baseline. split.
  - intros H s Hs Hn. pose proof (find_none _ _ H s Hs) as Hf. cbn beta in Hf.
    rewrite Hn, String.eqb_refl in Hf. discriminate.
  - intros H. destruct (find _ ps) as [s |] eqn:Hf; [| reflexivity].
    apply find_some in Hf as [Hin Hn]. apply String.eqb_eq in Hn.
    destruct (H s Hin Hn).
Qed.

Lemma baseline_exists ps :
  Pure.baseline ps <> None <-> exists s, In s ps /\ name s = "Stripe".
Proof.
  split.
  - destruct (Pure.baseline ps) as [s |] eqn:Hb; [| congruence].
    intros _. exists s. apply baseline_Some, Hb.
  - intros (s & Hs & Hn) Hb. apply (proj1 (baseline_None ps) Hb s Hs Hn).
Qed.

Lemma candidates_In ps pay p :
  In p (Pure.candidates ps pay) <->
  In p ps /\ supportsMethod p (payment_method pay) = true.
Proof. unfold Pure.candidates. apply filter_In. Qed.

Lemma candidates_exist ps pay :
  Pure.candidates ps pay <> [] <->
  exists p, In p ps /\ supportsMethod p (payment_method pay) = true.
Proof.
  split.
  - destruct (Pure.candidates ps pay) as [| p l] eqn:Hc; [congruence |].
    intros _. exists p. apply candidates_In. rewrite Hc. left. reflexivity.
  - intros (p & Hp) Hc. apply candidates_In in Hp. rewrite Hc in Hp. destruct Hp.
Qed.

(** The evaluation [decide] settles on, and the reason it gives. *)
Lemma select_cases pay es :
  es <> [] ->
  exists w,
    In w es /\
    ((Pure.viable es = [] /\
      Pure.select pay (Return es) = Return (Pure.decision pay w fallback_reason)) \/
     (In w (Pure.viable es) /\
      Pure.select pay (Return es) = Return (Pure.decision pay w (Pure.score_reason w)))).
Proof.
  intros Hne. destruct (Pure.viable es) as [| v vs] eqn:Hv.
  - unfold Pure.select. rewrite Hv.
    destruct (sort Pure.by_success_rate es) as [| w ws] eqn:Hs.
    + apply (f_equal (@List.length _)) in Hs. rewrite sort_length in Hs.
      destruct es; [congruence | discriminate].
    + exists w. split; [| left; split; reflexivity].
      apply (sort_In Pure.by_success_rate). rewrite Hs. left. reflexivity.
  - destruct (select_viable pay es v vs Hv) as (w & Hw & Hin).
    exists w. split; [| right; split; [rewrite <- Hv |]; assumption].
    unfold Pure.viable in Hin. apply filter_In in Hin. tauto.
Qed.

Lemma select_nil pay : Pure.select pay (Return []) = Throw TypeError.
Proof. reflexivity. Qed.

(** What [decide] needs to return a decision. *)
Lemma decide_cases ps r pay :
  match Pure.decide ps r pay with
  | Return d =>
      Pure.candidates ps pay <> [] /\ Pure.baseline ps <> None /\
      exists es w why,
        Pure.evaluations ps r pay = Return es /\ In w es /\
        d = Pure.decision pay w why /\
        ((Pure.viable es = [] /\ why = fallback_reason) \/
         (In w (Pure.viable es) /\ why = Pure.score_reason w))
  | Throw e =>
      e = TypeError /\ (Pure.candidates ps pay = [] \/ Pure.baseline ps = None)
  end.
Proof.
  unfold Pure.decide.
  destruct (Pure.baseline ps) as [s |] eqn:Hb.
  - destruct (evaluations_returns ps r pay) as [es Hes]; [congruence |].
    rewrite Hes. pose proof (evaluations_processors _ _ _ _ Hes) as Hmap.
    destruct es as [| e0 es0].
    + cbn in Hmap. rewrite select_nil. auto.
    + destruct (select_cases pay (e0 :: es0)) as (w & Hin & Hw); [discriminate |].
      destruct Hw as [[Hv ->] | [Hv ->]].
      * split; [rewrite <- Hmap; discriminate |]. split; [discriminate |].
        exists (e0 :: es0), w, fallback_reason. repeat split; auto.
      * split; [rewrite <- Hmap; discriminate |]. split; [discriminate |].
        exists (e0 :: es0), w, (Pure.score_reason w). repeat split; auto.
  - unfold Pure.evaluations.
    destruct (Pure.candidates ps pay) as [| p l]; [cbn; auto |].
    cbn [Pure.traverse]. rewrite (evaluate_no_baseline _ _ _ _ Hb). cbn. auto.
Qed.

(** [decide] returns when the catalog holds a candidate and the baseline,
    and throws a [TypeError] when it does not. *)
Lemma decide_outcome ps r pay :
  match Pure.decide ps r pay with
  | Return d =>
      (exists p, In p ps /\ supportsMethod p (payment_method pay) = true) /\
      (exists s, In s ps /\ name s = "Stripe")
  | Throw err =>
      err = TypeError /\
      ((forall p, In p ps -> supportsMethod p (payment_method pay) = false) \/
       (forall s, In s ps -> name s <> "Stripe"))
  end.
Proof.
  pose proof (decide_cases ps r pay) as H.
  destruct (Pure.decide ps r pay) as [d | err].
  - destruct H as (Hc & Hb & _).
    split; [apply candidates_exist, Hc | apply baseline_exists, Hb].
  - destruct H as (-> & [Hc | Hb]); (split; [reflexivity |]).
    + left. intros p Hp.
      destruct (supportsMethod p (payment_method pay)) eqn:Hm; [| reflexivity].
      assert (Hin : In p (Pure.candidates ps pay)) by (apply candidates_In; auto).
      rewrite Hc in Hin. destruct Hin.
    + right. apply baseline_None, Hb.
Qed.

End OutcomeFacts.

(** * What [decide] reads *)

Module ReadFacts.
Import Js JsLib Exact OpFacts SortFacts RunFacts DecideFacts EvalFacts CandidateFacts.
Import SelectFacts OutcomeFacts.
Local Open Scope string_scope.

Lemma traverse_ext {A B} (f g : A -> outcome B) l :
  (forall x, In x l -> f x = g x) -> Pure.traverse f l = Pure.traverse g l.
Proof.
  induction l as [| x l IH]; intros H; cbn [Pure.traverse]; [reflexivity |].
  rewrite (H x (or_introl eq_refl)), IH; [reflexivity |].
  intros y Hy. apply H. right. exact Hy.
Qed.

(** Of the catalog, [evaluateProcessor] reads the baseline only. *)
Lemma evaluate_baseline ps ps' r p pay :
  Pure.baseline ps = Pure.baseline ps' ->
  Pure.evaluate ps r p pay = Pure.evaluate ps' r p pay.
Proof.
  intros H. unfold Pure.evaluate, evaluateProcessor, bind.
  rewrite (load_processors_run [ProcessorArray ps; RulesObject r] 0 ps eq_refl).
  rewrite (load_processors_run [ProcessorArray ps'; RulesObject r] 0 ps' eq_refl).
  fold (Pure.baseline ps). fold (Pure.baseline ps'). rewrite <- H.
  destruct (Pure.baseline ps) as [stripe |]; [| reflexivity].
  rewrite (load_rules_run [ProcessorArray ps; RulesObject r] 1 r eq_refl).
  rewrite (load_rules_run [ProcessorArray ps'; RulesObject r] 1 r eq_refl).
  reflexivity.
Qed.

Lemma decide_candidates ps ps' r pay :
  Pure.candidates ps pay = Pure.candidates ps' pay ->
  Pure.baseline ps = Pure.baseline ps' ->
  Pure.decide ps r pay = Pure.decide ps' r pay.
Proof.
  intros Hc Hb. unfold Pure.decide, Pure.evaluations. rewrite <- Hc.
  f_equal. apply traverse_ext. intros p _. apply evaluate_baseline, Hb.
Qed.

(** Of the payment, [decide] reads the amount, the method, and the
    merchant's sensitivity and whitelist. *)
Lemma decide_payment ps r pay pay' :
  amount_cents pay = amount_cents pay' ->
  payment_method pay = payment_method pay' ->
  cash_flow_sensitivity (merchant pay) = cash_flow_sensitivity (merchant pay') ->
  whitelisted_for (merchant pay) = whitelisted_for (merchant pay') ->
  Pure.decide ps r pay = Pure.decide ps r pay'.
Proof.
  destruct pay as [a c m [i s w]], pay' as [a' c' m' [i' s' w']].
  cbn [amount_cents payment_method cash_flow_sensitivity whitelisted_for merchant].
  intros <- <- <- <-. reflexivity.
Qed.

End ReadFacts.

(** * Running the server *)

Module ServerFacts.
Import Js JsLib RunFacts DecideFacts OutcomeFacts.
Local Open Scope string_scope.

Lemma snapshot_fresh h processors rules ps r pay :
  nth_error h processors = Some (ProcessorArray ps) ->
  nth_error h rules = Some (RulesObject r) ->
  snapshot (h ++ [PaymentObject pay])%list processors rules (List.length h) ps r pay.
Proof.
  intros Hp Hr. repeat split.
  - apply nth_error_old, Hp.
  - apply nth_error_old, Hr.
  - rewrite <- (Nat.add_0_r (List.length h)). apply nth_error_fresh.
Qed.

(** The handler, run: the payment is created, [decide] is called on it, and
    what it returns or throws is answered. *)
Lemma post_decide_run processors rules h ps r payload :
  nth_error h processors = Some (ProcessorArray ps) ->
  nth_error h rules = Some (RulesObject r) ->
  post_decide processors rules payload h
  = (Return
       match Pure.decide ps r (payment_input payload) with
       | Return d =>
           {| response := {| status := 200; body := DecisionBody d |}; console := [] |}
       | Throw err =>
           {| response := {| status := 500; body := ErrorBody err |};
              console := [err] |}
       end,
     (h ++ PaymentObject (payment_input payload)
        :: Pure.allocated ps r (payment_input payload))%list).
Proof.
  intros Hp Hr.
  unfold post_decide, try_catch, bind, paymentInputFromPayload, alloc.
  rewrite (decide_run _ _ _ _ _ _ _ (snapshot_fresh h _ _ ps r _ Hp Hr)).
  rewrite <- app_assoc. cbn [app].
  destruct (Pure.decide ps r (payment_input payload)); reflexivity.
Qed.

End ServerFacts.

(** * Operations that are exact *)

Module ExactFacts.
Import Js Exact NumFacts OpFacts RoundFacts.

Lemma shr_1_double m :
  0 <= m ->
  shr_1 {| shr_m := 2 * m; shr_r := false; shr_s := false |}
  = {| shr_m := m; shr_r := false; shr_s := false |}.
Proof. destruct m; try lia; reflexivity. Qed.

(** Shifting out zeros loses nothing. *)
Lemma iter_shr_1_exact (p : positive) : forall m,
  0 <= m ->
  SpecFloat.iter_pos shr_1 p {| shr_m := m * 2 ^ Zpos p; shr_r := false; shr_s := false |}
  = {| shr_m := m; shr_r := false; shr_s := false |}.
Proof.
  induction p as [p IH | p IH |]; intros m Hm; cbn [SpecFloat.iter_pos].
  - replace (m * 2 ^ Zpos p~1) with (2 * (m * 2 ^ Zpos p * 2 ^ Zpos p)).
    + assert (0 < 2 ^ Zpos p) by (apply Z.pow_pos_nonneg; lia).
      rewrite shr_1_double by nia. rewrite IH by nia. apply IH, Hm.
    + change (Zpos p~1) with (2 * Zpos p + 1).
      replace (2 * Zpos p + 1) with (Zpos p + Zpos p + 1) by lia.
      rewrite !Z.pow_add_r by lia. change (2 ^ 1) with 2. ring.
  - replace (m * 2 ^ Zpos p~0) with (m * 2 ^ Zpos p * 2 ^ Zpos p).
    + assert (0 < 2 ^ Zpos p) by (apply Z.pow_pos_nonneg; lia).
      rewrite IH by nia. apply IH, Hm.
    + change (Zpos p~0) with (2 * Zpos p).
      replace (2 * Zpos p) with (Zpos p + Zpos p) by lia.
      rewrite Z.pow_add_r by lia. ring.
  - change (2 ^ 1) with 2. rewrite Z.mul_comm. apply shr_1_double, Hm.
Qed.

Lemma Zdigits2_shift m k :
  0 < m -> 0 <= k -> Zdigits2 (m * 2 ^ k) = Zdigits2 m + k.
Proof.
  intros Hm Hk. pose proof (Zdigits2_bounds m Hm) as [Hlo Hhi].
  assert (Hd : 0 < Zdigits2 m) by (destruct m; cbn; lia).
  assert (Hp : 0 < 2 ^ k) by (apply Z.pow_pos_nonneg; lia).
  apply Zdigits2_unique; [| lia]. split.
  - replace (Zdigits2 m + k - 1) with (Zdigits2 m - 1 + k) by lia.
    rewrite Z.pow_add_r by lia. apply Z.mul_le_mono_nonneg_r; lia.
  - rewrite Z.pow_add_r by lia. apply Z.mul_lt_mono_pos_r; lia.
Qed.

Lemma digits_small m : 0 < m -> Zdigits2 m <= 53 -> m < 2 ^ 53.
Proof.
  intros Hm Hd. pose proof (Zdigits2_bounds m Hm) as [_ Hhi].
  eapply Z.lt_le_trans; [exact Hhi |]. apply Z.pow_le_mono_r; lia.
Qed.

Lemma small_digits m : 0 < m -> m < 2 ^ 53 -> Zdigits2 m <= 53.
Proof.
  intros Hm Hb. pose proof (Zdigits2_bounds m Hm) as [Hlo _].
  destruct (Z_le_gt_dec (Zdigits2 m) 53) as [H | H]; [exact H | exfalso].
  assert (2 ^ 53 <= 2 ^ (Zdigits2 m - 1)) by (apply Z.pow_le_mono_r; lia). lia.
Qed.

(** A mantissa whose low bits are zero is shifted into place exactly. *)
Lemma binary_round_aux_exact s (m0 : positive) e n :
  0 < n ->
  Z.max (Zdigits2 (Zpos m0 * 2 ^ n) + e - 53) emin - e = n ->
  e + n <= emax - prec ->
  binary_round_aux prec emax s (Zpos m0 * 2 ^ n) e loc_Exact = S754_finite s m0 (e + n).
Proof.
  intros Hn Hs He. unfold binary_round_aux.
  assert (H1 : shr_fexp prec emax (Zpos m0 * 2 ^ n) e loc_Exact
               = ({| shr_m := Zpos m0; shr_r := false; shr_s := false |}, e + n)).
  { unfold shr_fexp, shr. rewrite fexp_eq, Hs. destruct n as [| p | p]; try lia.
    cbn [shr_record_of_loc]. rewrite iter_shr_1_exact by lia. reflexivity. }
  rewrite H1. cbn [shr_m loc_of_shr_record round_nearest_even].
  rewrite shr_fexp_canonical.
  - cbn [shr_record_of_loc shr_m].
    destruct (e + n <=? emax - prec) eqn:Hle; [reflexivity |].
    apply Z.leb_gt in Hle. lia.
  - rewrite Zdigits2_shift in Hs by lia. lia.
Qed.

(** Rounding a value that is representable returns it: a mantissa [m] at
    exponent [e] whose value is [d * 2^k] units with [d] below [2^53] and
    within range. *)
Lemma binary_round_representable s m e d k :
  emin <= e ->
  Zpos m * 2 ^ (e - emin) = d * 2 ^ k ->
  0 < d < 2 ^ 53 -> 0 <= k -> k + emin + 53 <= 1024 ->
  exists m' e',
    binary_round prec emax s m e = S754_finite s m' e' /\
    emin <= e' /\ Zpos m' < 2 ^ 53 /\
    Zpos m' * 2 ^ (e' - emin) = Zpos m * 2 ^ (e - emin).
Proof.
  intros He Hv Hd Hk Hr.
  assert (Hdig : Zdigits2 (Zpos m) + (e - emin) = Zdigits2 d + k).
  { rewrite <- (Zdigits2_shift (Zpos m) (e - emin)) by lia.
    rewrite <- (Zdigits2_shift d k) by lia. rewrite Hv. reflexivity. }
  pose proof (small_digits d ltac:(lia) ltac:(lia)) as Hdd.
  unfold binary_round. rewrite fexp_eq.
  change (Zpos (digits2_pos m)) with (Zdigits2 (Zpos m)).
  remember (Zdigits2 (Zpos m)) as dig eqn:Edig.
  change (IntDef.Z.add dig e) with (dig + e).
  destruct (shl_align m e _) as [m1 e1] eqn:Hal.
  pose proof Hal as Hal'. apply shl_align_spec in Hal' as [He1 Hm1].
  destruct (Z_le_gt_dec (Z.max (dig + e - 53) emin) e) as [Hle | Hgt].
  - (* the mantissa is shifted to the left, or stays *)
    assert (He1' : e1 = Z.max (dig + e - 53) emin) by lia.
    assert (Hd1 : Zdigits2 (Zpos m1) = dig + (e - e1)).
    { rewrite Hm1, Edig. apply Zdigits2_shift; lia. }
    exists m1, e1. split; [| split; [lia | split]].
    + apply binary_round_aux_canonical; [rewrite Hd1; lia |].
      unfold emax, prec, emin in *. lia.
    + apply digits_small; [lia | rewrite Hd1; lia].
    + rewrite Hm1, <- Z.mul_assoc, <- Z.pow_add_r by lia. f_equal. f_equal. lia.
  - (* the mantissa has more than 53 bits, the low ones zero *)
    assert (He1' : e1 = e) by lia.
    assert (Hm1' : m1 = m).
    { replace (e - e1) with 0 in Hm1 by lia. rewrite Z.pow_0_r, Z.mul_1_r in Hm1.
      congruence. }
    rewrite He1', Hm1'. clear Hal He1 Hm1 He1' Hm1' m1 e1.
    set (n := dig - 53) in *.
    assert (Hn : 0 < n) by lia.
    set (j := k - (e - emin) - n).
    assert (Hj : 0 <= j) by (unfold j, n; lia).
    assert (Hm : Zpos m = d * 2 ^ j * 2 ^ n).
    { apply (Z.mul_cancel_r _ _ (2 ^ (e - emin)));
        [apply Z.pow_nonzero; lia |].
      rewrite Hv, <- !Z.mul_assoc, <- !Z.pow_add_r by lia.
      f_equal. f_equal. unfold j. lia. }
    assert (Hpos : 0 < d * 2 ^ j).
    { apply Z.mul_pos_pos; [lia | apply Z.pow_pos_nonneg; lia]. }
    destruct (d * 2 ^ j) as [| m0 | m0] eqn:Hm0; try lia.
    assert (Hd0 : Zdigits2 (Zpos m0) = 53).
    { pose proof (Zdigits2_shift (Zpos m0) n ltac:(lia) ltac:(lia)) as Hsh.
      rewrite <- Hm, <- Edig in Hsh. unfold n in Hsh. lia. }
    exists m0, (e + n). split; [| split; [lia | split]].
    + rewrite Hm. apply binary_round_aux_exact; [exact Hn | |].
      * rewrite <- Hm, <- Edig. unfold n. lia.
      * unfold emax, prec, emin, n in *. lia.
    + apply digits_small; lia.
    + rewrite Hm, <- Z.mul_assoc, <- Z.pow_add_r by lia. f_equal. f_equal. lia.
Qed.

Lemma value_finite s m e :
  value (S754_finite s m e) = Some (Fin (cond_Zopp s (Zpos m * 2 ^ (e - emin)))).
Proof. reflexivity. Qed.

(** [binary_normalize] of an integer mantissa whose value is representable. *)
Lemma binary_normalize_representable M e D :
  emin <= e ->
  M * 2 ^ (e - emin) = D * 2 ^ 1074 ->
  Z.abs D < 2 ^ 53 ->
  value (binary_normalize prec emax M e false) = Some (Fin (D * 2 ^ 1074)).
Proof.
  intros He Hv Hb.
  assert (Hp : 0 < 2 ^ (e - emin)) by (apply Z.pow_pos_nonneg; lia).
  assert (Hq : 0 < 2 ^ 1074) by (apply Z.pow_pos_nonneg; lia).
  assert (Hr : 1074 + emin + 53 <= 1024) by (unfold emin; lia).
  destruct M as [| p | p]; cbn [binary_normalize].
  - cbn [value]. f_equal. f_equal. lia.
  - assert (Hd : 0 < D < 2 ^ 53) by nia.
    destruct (binary_round_representable false p e D 1074 He Hv Hd ltac:(lia) Hr)
      as (m' & e' & -> & _ & _ & Hm).
    rewrite value_finite. cbn [cond_Zopp]. rewrite Hm, Hv. reflexivity.
  - change (Zneg p) with (- Zpos p) in Hv.
    assert (Hd : 0 < - D < 2 ^ 53) by nia.
    assert (Hv' : Zpos p * 2 ^ (e - emin) = - D * 2 ^ 1074) by lia.
    destruct (binary_round_representable true p e (- D) 1074 He Hv' Hd ltac:(lia) Hr)
      as (m' & e' & -> & _ & _ & Hm).
    rewrite value_finite. cbn [cond_Zopp]. rewrite Hm. f_equal. f_equal. lia.
Qed.

Lemma Fin_inj a b : Some (Fin a) = Some (Fin b) -> a = b.
Proof. congruence. Qed.

Lemma cond_Zopp_negb s z : cond_Zopp (negb s) z = - cond_Zopp s z.
Proof. destruct s; unfold cond_Zopp, negb; lia. Qed.

Lemma is_the_integer_zero s n : is_the_integer (S754_zero s) n -> n = 0.
Proof.
  intros H. apply (Fin_inj 0) in H.
  assert (0 < 2 ^ 1074) by (apply Z.pow_pos_nonneg; lia). nia.
Qed.

(** The difference of two integers is exact when it is below [2^53]. *)
Lemma sub_integers x y A F :
  wf x -> wf y ->
  is_the_integer x A -> is_the_integer y F ->
  Z.abs (A - F) < 2 ^ 53 ->
  is_the_integer (sub x y) (A - F).
Proof.
  intros Hx Hy Vx Vy Hb.
  destruct x as [sx | sx | | sx mx ex]; try discriminate Vx;
    try (destruct sx; discriminate Vx);
    destruct y as [sy | sy | | sy my ey]; try discriminate Vy;
    try (destruct sy; discriminate Vy).
  - apply is_the_integer_zero in Vx, Vy. subst. destruct sx, sy; reflexivity.
  - apply is_the_integer_zero in Vx. subst.
    apply Fin_inj in Vy.
    unfold is_the_integer, sub, SFsub. rewrite value_finite, cond_Zopp_negb, Vy.
    f_equal. f_equal. ring.
  - apply is_the_integer_zero in Vy. subst.
    unfold is_the_integer, sub, SFsub. rewrite Vx. f_equal. f_equal. ring.
  - destruct Hx as [Hex _], Hy as [Hey _].
    apply Fin_inj in Vx, Vy.
    unfold is_the_integer, sub, SFsub.
    destruct (shl_align mx ex (Z.min ex ey)) as [mx1 ex1] eqn:Hax.
    destruct (shl_align my ey (Z.min ex ey)) as [my1 ey1] eqn:Hay.
    apply shl_align_spec in Hax as [Hex1 Hmx1], Hay as [Hey1 Hmy1].
    cbn [fst].
    apply binary_normalize_representable; [lia | | exact Hb].
    rewrite Z.mul_sub_distr_r.
    rewrite <- (aligned_value sx mx ex (Z.min ex ey) mx1);
      [| lia | lia | rewrite Hmx1; f_equal; f_equal; lia].
    rewrite <- (aligned_value sy my ey (Z.min ex ey) my1);
      [| lia | lia | rewrite Hmy1; f_equal; f_equal; lia].
    rewrite Vx, Vy. ring.
Qed.

(** [Math.round] of an integer below [2^53] is that integer. *)
Lemma round_integer x D :
  wf x -> is_the_integer x D -> Z.abs D < 2 ^ 53 -> is_the_integer (round x) D.
Proof.
  intros Hx Vx Hb.
  destruct x as [sx | sx | | s m e]; try exact Vx.
  destruct (Z_le_gt_dec 0 e) as [He | He].
  - unfold round. destruct (0 <=? e) eqn:Hle; [exact Vx | apply Z.leb_gt in Hle; lia].
  - destruct Hx as [Hmin _]. apply Fin_inj in Vx.
    assert (Hm : cond_Zopp s (Zpos m) = D * 2 ^ (- e)).
    { apply (Z.mul_cancel_r _ _ (2 ^ (e - emin))); [apply Z.pow_nonzero; lia |].
      rewrite <- Z.mul_assoc, <- Z.pow_add_r by lia.
      replace (- e + (e - emin)) with 1074 by (unfold emin; lia).
      rewrite <- Vx. destruct s; unfold cond_Zopp; ring. }
    rewrite round_negative_exponent by lia.
    assert (Hp : 0 < 2 ^ (- e)) by (apply Z.pow_pos_nonneg; lia).
    assert (Hn : (2 * cond_Zopp s (Zpos m) + 2 ^ (- e)) / 2 ^ (1 - e) = D).
    { rewrite Hm. replace (1 - e) with (1 + - e) by lia.
      rewrite Z.pow_add_r by lia. change (2 ^ 1) with 2.
      replace (2 * (D * 2 ^ (- e)) + 2 ^ (- e)) with ((2 * D + 1) * 2 ^ (- e)) by ring.
      rewrite Z.div_mul_cancel_r by lia.
      symmetry. apply Z.div_unique with (r := 1); lia. }
    rewrite Hn.
    assert (HD : D <> 0).
    { intros ->. destruct s; unfold cond_Zopp in Hm; lia. }
    destruct (D =? 0) eqn:HD0; [apply Z.eqb_eq in HD0; contradiction |].
    destruct (of_Z_spec D HD Hb) as (m' & e' & -> & He' & Hm').
    unfold is_the_integer. rewrite value_finite. f_equal. f_equal.
    replace (cond_Zopp (D <? 0) (Zpos m' * 2 ^ (e' - emin)))
      with (cond_Zopp (D <? 0) (Zpos m') * 2 ^ (e' - emin))
      by (destruct (D <? 0); unfold cond_Zopp; ring).
    rewrite Hm', <- Z.mul_assoc, <- Z.pow_add_r by (unfold emin; lia).
    f_equal. f_equal. unfold emin. lia.
Qed.

(** What [Math.round] returns for a finite number is an integer. *)
Lemma round_is_integer x :
  wf x -> is_finite (round x) = true -> exists F, is_the_integer (round x) F.
Proof.
  intros Hx Hf.
  destruct x as [sx | sx | | s m e]; try discriminate Hf.
  - exists 0. reflexivity.
  - destruct Hx as [Hmin Hm].
    destruct (Z_le_gt_dec 0 e) as [He | He].
    + unfold round. destruct (0 <=? e) eqn:Hle; [| apply Z.leb_gt in Hle; lia].
      exists (cond_Zopp s (Zpos m) * 2 ^ e).
      unfold is_the_integer. rewrite value_finite. f_equal. f_equal.
      replace (e - emin) with (e + 1074) by (unfold emin; lia).
      rewrite Z.pow_add_r by lia. destruct s; unfold cond_Zopp; ring.
    + rewrite round_negative_exponent by lia.
      set (n := (2 * cond_Zopp s (Zpos m) + 2 ^ (- e)) / 2 ^ (1 - e)).
      destruct (n =? 0) eqn:Hn0; [exists 0; reflexivity |].
      apply Z.eqb_neq in Hn0.
      destruct (round_bound s m (- e) Hm ltac:(lia)) as [Hb _].
      replace (1 + - e) with (1 - e) in Hb by lia. fold n in Hb.
      exists n. destruct (of_Z_spec n Hn0 Hb) as (m' & e' & -> & He' & Hm').
      unfold is_the_integer. rewrite value_finite. f_equal. f_equal.
      replace (cond_Zopp (n <? 0) (Zpos m' * 2 ^ (e' - emin)))
        with (cond_Zopp (n <? 0) (Zpos m') * 2 ^ (e' - emin))
        by (destruct (n <? 0); unfold cond_Zopp; ring).
      rewrite Hm', <- Z.mul_assoc, <- Z.pow_add_r by (unfold emin; lia).
      f_equal. f_equal. unfold emin. lia.
Qed.

(** An integer literal below [2^53] is that integer. *)
Lemma of_Z_is_the_integer n : Z.abs n < 2 ^ 53 -> is_the_integer (of_Z n) n.
Proof.
  intros Hb. destruct (Z.eq_dec n 0) as [-> | Hn]; [reflexivity |].
  destruct (of_Z_spec n Hn Hb) as (m' & e' & -> & He' & Hm').
  unfold is_the_integer. rewrite value_finite. f_equal. f_equal.
  replace (cond_Zopp (n <? 0) (Zpos m' * 2 ^ (e' - emin)))
    with (cond_Zopp (n <? 0) (Zpos m') * 2 ^ (e' - emin))
    by (destruct (n <? 0); unfold cond_Zopp; ring).
  rewrite Hm', <- Z.mul_assoc, <- Z.pow_add_r by (unfold emin; lia).
  f_equal. f_equal. unfold emin. lia.
Qed.

End ExactFacts.

(** * Facts about fees, savings and scores *)

Module ScoreFacts.
Import Js JsLib Exact NumFacts OpFacts SortFacts RunFacts EvalFacts CandidateFacts.
Import RoundFacts SelectFacts OutcomeFacts.

#[local] Arguments add : simpl never.
#[local] Arguments sub : simpl never.
#[local] Arguments mul : simpl never.
#[local] Arguments div : simpl never.
#[local] Arguments max : simpl never.
#[local] Arguments min : simpl never.

Lemma fee_wf p pay : valid_option (fee_flat_cents p) -> wf (feeAmountCents p pay).
Proof.
  intros Hf. unfold feeAmountCents.
  apply round_wf, add_wf; [apply mul_wf | apply or_zero_wf, Hf].
Qed.

(** NaN is contagious. *)
Lemma mul_nan_l y : mul NaN y = NaN.
Proof. reflexivity. Qed.

Lemma mul_nan_r x : mul x NaN = NaN.
Proof. destruct x; reflexivity. Qed.

Lemma add_nan_l y : add NaN y = NaN.
Proof. reflexivity. Qed.

Lemma add_nan_r x : add x NaN = NaN.
Proof. destruct x; reflexivity. Qed.

Lemma sub_nan_r x : sub x NaN = NaN.
Proof. destruct x; reflexivity. Qed.

Lemma div_nan_l y : div NaN y = NaN.
Proof. reflexivity. Qed.

Lemma max_nan_r x : max x NaN = NaN.
Proof. unfold max. rewrite orb_true_r. reflexivity. Qed.

Lemma min_nan_r x : min x NaN = NaN.
Proof. unfold min. rewrite orb_true_r. reflexivity. Qed.

Lemma is_nan_eq x : is_nan x = true -> x = NaN.
Proof. destruct x; try discriminate. reflexivity. Qed.

Lemma fee_nan p pay : is_nan (amount_cents pay) = true -> feeAmountCents p pay = NaN.
Proof.
  intros H. unfold feeAmountCents. rewrite (is_nan_eq _ H), mul_nan_l, add_nan_l.
  reflexivity.
Qed.

(** The equations of an evaluation that has been returned. *)
Lemma evaluate_equations ps r p pay e :
  Pure.evaluate ps r p pay = Return e ->
  exists stripe bonus,
    Pure.baseline ps = Some stripe /\
    processor e = p /\
    fee_cents e = feeAmountCents p pay /\
    saving_pct_vs_stripe e
    = div (sub (feeAmountCents stripe pay) (feeAmountCents p pay))
          (feeAmountCents stripe pay) /\
    settlement_score e
    = min one
        (max zero
           (max zero
              (sub one
                 (div (mul (settlement_time_days p) (cash_flow_sensitivity (merchant pay)))
                      (of_Z 5))))) /\
    passesStrict e
    = (if geb (success_rate p) (min_success_rate (rule_thresholds r))
       then
         if negb (truthy (requires_whitelist p)) then Some true
         else match whitelisted_for (merchant pay) with
              | None => None
              | Some names => Some (existsb (String.eqb (name p)) names)
              end
       else Some false) /\
    score e
    = add (add (add (mul (fee_weight (scoring_weights r))
                         (max zero (saving_pct_vs_stripe e)))
                    (mul (settlement_weight (scoring_weights r)) (settlement_score e)))
               (mul (risk_weight (scoring_weights r)) (success_rate p)))
          bonus.
Proof.
  intros He. destruct (Pure.baseline ps) as [stripe |] eqn:Hb.
  - destruct (evaluate_fields ps r p pay stripe Hb)
      as (e' & bonus & He' & Hproc & Hfee & Hrisk & Hsav & Hset & Hpass & Hscore & _).
    assert (e' = e) by congruence. subst e'.
    exists stripe, bonus. rewrite Hrisk in Hscore. repeat split; assumption.
  - rewrite (evaluate_no_baseline _ _ _ _ Hb) in He. discriminate He.
Qed.

(** An amount or a sensitivity that is NaN makes every score NaN. *)
Lemma evaluate_nan ps r p pay e :
  Pure.evaluate ps r p pay = Return e ->
  is_nan (amount_cents pay) = true \/
  is_nan (cash_flow_sensitivity (merchant pay)) = true ->
  score e = NaN.
Proof.
  intros He Hn.
  destruct (evaluate_equations _ _ _ _ _ He)
    as (stripe & bonus & _ & _ & _ & Hsav & Hset & _ & Hscore).
  destruct Hn as [Hn | Hn].
  - apply is_nan_eq. apply (evaluate_score_nan ps r p pay e He).
    rewrite Hsav, (fee_nan p pay Hn), sub_nan_r, div_nan_l. reflexivity.
  - rewrite Hscore, Hset, (is_nan_eq _ Hn).
    rewrite mul_nan_r, div_nan_l, sub_nan_r, !max_nan_r, min_nan_r, mul_nan_r.
    rewrite add_nan_r, add_nan_l. reflexivity.
Qed.

(** A comparator that never answers with a positive number leaves the array
    as it is. *)
Lemma insert_front {A} (cmp : A -> A -> number) x l :
  (forall y, In y l -> after cmp x y = false) -> insert cmp x l = x :: l.
Proof.
  destruct l as [| y l]; [reflexivity |]. intros H. cbn [insert].
  rewrite (H y (or_introl eq_refl)). reflexivity.
Qed.

Lemma sort_unordered {A} (cmp : A -> A -> number) l :
  (forall a b, In a l -> In b l -> after cmp a b = false) -> sort cmp l = l.
Proof.
  induction l as [| x l IH]; intros H; [reflexivity |]. cbn [sort].
  rewrite IH by (intros a b Ha Hb; apply H; right; assumption).
  apply insert_front. intros y Hy. apply H; [left; reflexivity | right; exact Hy].
Qed.

(** With an amount or a sensitivity that is NaN the viable evaluations stay
    in catalog order. *)
Lemma select_nan ps r pay es :
  Pure.evaluations ps r pay = Return es ->
  is_nan (amount_cents pay) = true \/
  is_nan (cash_flow_sensitivity (merchant pay)) = true ->
  sort Pure.by_score (Pure.viable es) = Pure.viable es /\
  forall e, In e es -> score e = NaN.
Proof.
  intros Hes Hn.
  assert (Hall : forall e, In e es -> score e = NaN).
  { intros e He. destruct (evaluations_In _ _ _ _ _ Hes He) as [_ Hev].
    apply (evaluate_nan _ _ _ _ _ Hev Hn). }
  split; [| exact Hall].
  apply sort_unordered. intros a b Ha Hb.
  apply filter_In in Ha as [Ha _], Hb as [Hb _].
  unfold after, Pure.by_score. rewrite (Hall a Ha), (Hall b Hb). reflexivity.
Qed.

(** The sign of a quotient by a positive number. *)
Lemma div_positive x m e :
  is_nan x = false ->
  (gtb x zero = true -> geb (div x (S754_finite false m e)) zero = true) /\
  (is_zero x = true -> is_zero (div x (S754_finite false m e)) = true) /\
  (ltb x zero = true ->
   leb (div x (S754_finite false m e)) zero = true /\
   is_zero (max zero (div x (S754_finite false m e))) = true).
Proof.
  intros Hn. destruct x as [sx | sx | | sx mx ex]; try discriminate Hn.
  - destruct sx; repeat split; discriminate.
  - destruct sx; repeat split; discriminate.
  - pose proof (div_finite_rounded sx mx ex false m e) as H.
    rewrite xorb_false_r in H.
    destruct (div (S754_finite sx mx ex) (S754_finite false m e)) as [s' | s' | | s' m' e'];
      cbn [rounded] in H; try contradiction.
    + destruct H as [-> _]. destruct sx; repeat split; discriminate.
    + subst s'. destruct sx; repeat split; discriminate.
    + destruct H as (-> & _). destruct sx; repeat split; discriminate.
Qed.

Lemma zero_cases x :
  is_nan x = false -> gtb x zero = false -> ltb x zero = false -> is_zero x = true.
Proof. destruct x as [| [] | | [] ? ?]; cbn; congruence. Qed.

(** The sign of [(stripeFee - fee) / stripeFee] for a baseline fee that is
    a positive number. *)
Lemma saving_sign sf f :
  wf sf -> wf f -> is_finite sf = true -> gtb sf zero = true -> is_nan f = false ->
  let saving := div (sub sf f) sf in
  (lt f sf -> geb saving zero = true) /\
  (eq f sf -> is_zero saving = true) /\
  (lt sf f -> leb saving zero = true /\ is_zero (max zero saving) = true).
Proof.
  intros Hsf Hf Hfin Hpos Hn saving. subst saving.
  destruct sf as [| | | [] m e]; try discriminate Hfin; try discriminate Hpos.
  pose proof (sub_sign (S754_finite false m e) f Hsf Hf) as Hs.
  assert (Hnn : is_nan (sub (S754_finite false m e) f) = false)
    by (apply sub_not_nan, Hn).
  destruct (div_positive (sub (S754_finite false m e) f) m e Hnn) as (Hgt & Hz & Hlt).
  unfold lt, eq. split; [| split].
  - intros Hc. apply compare_antisym in Hc. cbn [CompOpp] in Hc. rewrite Hc in Hs.
    apply Hgt, Hs.
  - intros Hc. apply compare_antisym in Hc. cbn [CompOpp] in Hc. rewrite Hc in Hs.
    destruct Hs as [H1 H2]. apply Hz, zero_cases; assumption.
  - intros Hc. rewrite Hc in Hs. apply Hlt, Hs.
Qed.

End ScoreFacts.

(** * Facts about the strict checks and the settlement score *)

Module GateFacts.
Import Js JsLib Exact NumFacts OpFacts RunFacts EvalFacts CandidateFacts ScoreFacts.

Lemma Return_inj {A} (a b : A) : Return a = Return b -> a = b.
Proof. congruence. Qed.

(** [<=] on binary64 values is the order of the exact values. *)
Lemma leb_le x y : valid x -> valid y -> (leb x y = true <-> le x y).
Proof.
  intros Hx Hy. unfold leb, SFleb. rewrite (compare_valid x y Hx Hy), le_iff.
  destruct (compare x y) as [[] |]; split; try reflexivity; try discriminate;
    try (intros _; eexists; split; [reflexivity | discriminate]);
    intros (c & Hc & Hne); congruence.
Qed.

Lemma leb_trans x y z :
  valid x -> valid y -> valid z -> leb x y = true -> leb y z = true -> leb x z = true.
Proof.
  intros Hx Hy Hz Hxy Hyz. apply (leb_le x z Hx Hz).
  apply (le_trans x y z); [apply (leb_le x y Hx Hy) | apply (leb_le y z Hy Hz)]; assumption.
Qed.

(** The minimal success rate enters the strict check and nothing else. *)
Lemma evaluate_threshold ps r p pay x y e :
  Pure.evaluate ps (Scenario.with_min_success_rate x r) p pay = Return e ->
  exists e',
    Pure.evaluate ps (Scenario.with_min_success_rate y r) p pay = Return e' /\
    processor e' = processor e /\
    fee_cents e' = fee_cents e /\
    saving_pct_vs_stripe e' = saving_pct_vs_stripe e /\
    settlement_score e' = settlement_score e /\
    risk_score e' = risk_score e /\
    score e' = score e.
Proof.
  destruct (Pure.baseline ps) as [stripe |] eqn:Hb.
  - unfold Pure.evaluate, evaluateProcessor, bind.
    rewrite !(load_processors_run [ProcessorArray ps; RulesObject _] 0 ps eq_refl).
    fold (Pure.baseline ps). rewrite Hb.
    rewrite (load_rules_run [ProcessorArray ps; RulesObject _] 1
               (Scenario.with_min_success_rate x r) eq_refl).
    rewrite (load_rules_run [ProcessorArray ps; RulesObject _] 1
               (Scenario.with_min_success_rate y r) eq_refl).
    unfold ret. cbn [fst]. intros He. apply Return_inj in He. subst e.
    eexists. split; [reflexivity |]. repeat split.
  - rewrite (evaluate_no_baseline _ _ _ _ Hb). discriminate.
Qed.

(** Settlement on the day, or a merchant with no need for it. *)
Lemma settlement_one d s :
  (is_zero d = true /\ is_finite s = true) \/ (is_finite d = true /\ is_zero s = true) ->
  min one (max zero (max zero (sub one (div (mul d s) (of_Z 5))))) = one.
Proof.
  intros [[Hd Hs] | [Hd Hs]];
    destruct d as [[] | | | [] md ed]; try discriminate Hd;
    destruct s as [[] | | | [] ms es]; try discriminate Hs;
    vm_compute; reflexivity.
Qed.

Lemma or_zero_falsy x : falsy x -> or_zero x = zero.
Proof. destruct x as [[] |]; cbn; intros H; try reflexivity; destruct H. Qed.

End GateFacts.

(** * The order of the catalog *)

Module OrderFacts.
Import Js JsLib Exact OpFacts SortFacts RunFacts DecideFacts EvalFacts CandidateFacts.
Import SelectFacts OutcomeFacts ReadFacts.
Local Open Scope string_scope.

Lemma first_max_In {A} (key : A -> number) l w : first_max key l w -> In w l.
Proof. intros (l1 & l2 & -> & _). apply in_elt. Qed.

Lemma compare_refl x : is_nan x = false -> compare x x = Some Eq.
Proof.
  unfold compare. destruct x as [s | s | | s m e]; try discriminate; intros _; cbn [value].
  - cbn. reflexivity.
  - destruct s; reflexivity.
  - cbn [ext_compare]. rewrite Z.compare_refl. reflexivity.
Qed.

Lemma first_max_le {A} (key : A -> number) l w x :
  first_max key l w -> is_nan (key w) = false -> In x l -> le (key x) (key w).
Proof.
  intros (l1 & l2 & -> & H1 & H2) Hn Hx.
  apply in_app_or in Hx as [Hx | [<- | Hx]].
  - left. apply H1, Hx.
  - right. apply compare_refl, Hn.
  - apply H2, Hx.
Qed.

Lemma le_antisym x y : le x y -> le y x -> eq x y.
Proof.
  rewrite !le_iff. intros (c & Hc & Hne) (c' & Hc' & Hne').
  rewrite (compare_antisym _ _ _ Hc) in Hc'. unfold eq. rewrite Hc.
  destruct c; cbn in Hc'; congruence.
Qed.

(** The greatest element is the same in any order when no two keys are
    equal. *)
Lemma first_max_unique {A} (key : A -> number) l l' w w' :
  first_max key l w -> first_max key l' w' ->
  (forall x, In x l <-> In x l') ->
  (forall x, In x l -> is_nan (key x) = false) ->
  (forall x y, In x l -> In y l -> eq (key x) (key y) -> x = y) ->
  w = w'.
Proof.
  intros Hw Hw' Hin Hn Hd.
  pose proof (first_max_In _ _ _ Hw) as Iw.
  pose proof (first_max_In _ _ _ Hw') as Iw'. apply Hin in Iw'.
  apply Hd; auto. apply le_antisym.
  - apply (first_max_le key l' w' w Hw'); [apply Hn, Iw' | apply Hin, Iw].
  - apply (first_max_le key l w w' Hw); [apply Hn, Iw | exact Iw'].
Qed.

Lemma baseline_any_order ps ps' :
  (forall p, In p ps <-> In p ps') ->
  NoDup (map name ps') ->
  Pure.baseline ps = Pure.baseline ps'.
Proof.
  intros Hin Hnd.
  destruct (Pure.baseline ps) as [s |] eqn:Hb.
  - apply baseline_Some in Hb as [Hs Hn].
    destruct (Pure.baseline ps') as [s' |] eqn:Hb'.
    + apply baseline_Some in Hb' as [Hs' Hn']. f_equal.
      apply (unique_name ps'); auto; [apply Hin, Hs | congruence].
    + exfalso. apply (proj1 (baseline_None ps') Hb' s); [apply Hin, Hs | exact Hn].
  - symmetry. apply baseline_None. intros s Hs.
    apply (proj1 (baseline_None ps) Hb). apply Hin, Hs.
Qed.

(** The evaluations of two catalogs that hold the same processors are the
    same, up to their order. *)
Lemma evaluations_any_order ps ps' r pay es es' :
  (forall p, In p ps <-> In p ps') ->
  Pure.baseline ps = Pure.baseline ps' ->
  Pure.evaluations ps r pay = Return es ->
  Pure.evaluations ps' r pay = Return es' ->
  forall e, In e es -> In e es'.
Proof.
  intros Hin Hb Hes Hes' e He.
  destruct (evaluations_In _ _ _ _ _ Hes He) as [Hp Hev].
  assert (Hc : In (processor e) (Pure.candidates ps pay)).
  { rewrite <- (evaluations_processors _ _ _ _ Hes). apply in_map, He. }
  apply candidates_In in Hc as [_ Hm].
  assert (Hc' : In (processor e) (Pure.candidates ps' pay)).
  { apply candidates_In. split; [apply Hin, Hp | exact Hm]. }
  rewrite <- (evaluations_processors _ _ _ _ Hes') in Hc'.
  apply in_map_iff in Hc' as (e' & Hpe & He').
  destruct (evaluations_In _ _ _ _ _ Hes' He') as [_ Hev'].
  rewrite Hpe, <- (evaluate_baseline ps ps' r _ pay Hb) in Hev'.
  assert (e' = e) by congruence. subst e'. exact He'.
Qed.

Lemma viable_In es e :
  In e (Pure.viable es) <-> In e es /\ truthy (passesStrict e) = true.
Proof. unfold Pure.viable. apply filter_In. Qed.

Lemma nil_iff {A} (l l' : list A) :
  (forall x, In x l <-> In x l') -> (l = [] <-> l' = []).
Proof.
  intros H. split; intros ->.
  - destruct l' as [| x l']; [reflexivity |]. destruct (proj2 (H x) (or_introl eq_refl)).
  - destruct l as [| x l]; [reflexivity |]. destruct (proj1 (H x) (or_introl eq_refl)).
Qed.

Lemma decide_any_order ps ps' r pay es :
  (forall p, In p ps <-> In p ps') ->
  NoDup (map name ps') ->
  valid_rules r ->
  (forall p, In p ps -> valid_processor p) ->
  Pure.evaluations ps r pay = Return es ->
  (forall e, In e es -> is_nan (score e) = false /\ is_nan (rate e) = false) ->
  (forall e1 e2, In e1 es -> In e2 es -> eq (score e1) (score e2) -> e1 = e2) ->
  (forall e1 e2, In e1 es -> In e2 es -> eq (rate e1) (rate e2) -> e1 = e2) ->
  Pure.decide ps r pay = Pure.decide ps' r pay.
Proof.
  intros Hin Hnd Hr Hval Hes Hnan Hscore Hrate.
  pose proof (baseline_any_order ps ps' Hin Hnd) as Hb.
  assert (Hval' : forall p, In p ps' -> valid_processor p)
    by (intros p Hp; apply Hval, Hin, Hp).
  destruct (Pure.baseline ps') as [stripe |] eqn:Hbase'.
  2:{ (* no baseline: both calls throw *)
      pose proof (decide_cases ps r pay) as H. pose proof (decide_cases ps' r pay) as H'.
      destruct (Pure.decide ps r pay) as [d | err]; [destruct H as (_ & Hc & _); congruence |].
      destruct (Pure.decide ps' r pay) as [d' | err'];
        [destruct H' as (_ & Hc & _); congruence |].
      destruct H as [-> _], H' as [-> _]. reflexivity. }
  destruct (evaluations_returns ps' r pay) as [es' Hes']; [congruence |].
  assert (Hsame : forall e, In e es <-> In e es').
  { intros e. split.
    - apply (evaluations_any_order ps ps' r pay es es'); auto. congruence.
    - apply (evaluations_any_order ps' ps r pay es' es); auto; [| congruence].
      intros p. symmetry. apply Hin. }
  assert (Hv : forall e, In e (Pure.viable es) <-> In e (Pure.viable es')).
  { intros e. rewrite !viable_In, Hsame. reflexivity. }
  unfold Pure.decide. rewrite Hes, Hes'.
  destruct es as [| e0 es0].
  { assert (es' = []) as -> by (apply (nil_iff [] es' Hsame); reflexivity). reflexivity. }
  assert (Hne' : es' <> []).
  { intros E. apply (nil_iff (e0 :: es0) es' Hsame) in E. discriminate. }
  destruct (Pure.viable (e0 :: es0)) as [| v vs] eqn:Hvs.
  - assert (Hvs' : Pure.viable es' = []) by (apply (nil_iff [] _ Hv); reflexivity).
    destruct (fallback_first_max ps r pay (e0 :: es0) Hval Hes) as (w & Hw & Hmax);
      [intros e He; apply (Hnan e He) | discriminate | exact Hvs |].
    destruct (fallback_first_max ps' r pay es' Hval' Hes') as (w' & Hw' & Hmax');
      [intros e He; apply (Hnan e), Hsame, He | exact Hne' | exact Hvs' |].
    rewrite Hw, Hw'.
    rewrite (first_max_unique rate (e0 :: es0) es' w w' Hmax Hmax' Hsame); auto.
    intros e He. apply (Hnan e He).
  - rewrite <- Hvs in Hv.
    assert (Hvne : Pure.viable (e0 :: es0) <> []) by (rewrite Hvs; discriminate).
    assert (Hvne' : Pure.viable es' <> []).
    { intros E. apply (nil_iff _ _ Hv) in E. congruence. }
    destruct (scoring_first_max ps r pay (e0 :: es0) Hr Hes) as (w & Hw & Hmax);
      [intros e He; apply viable_In in He as [He _]; apply (Hnan e He) | exact Hvne |].
    destruct (scoring_first_max ps' r pay es' Hr Hes') as (w' & Hw' & Hmax');
      [intros e He; apply viable_In in He as [He _]; apply (Hnan e), Hsame, He
      | exact Hvne' |].
    rewrite Hw, Hw'.
    rewrite (first_max_unique score _ _ w w' Hmax Hmax' Hv); auto.
    + intros e He. apply viable_In in He as [He _]. apply (Hnan e He).
    + intros e1 e2 H1 H2. apply viable_In in H1 as [H1 _], H2 as [H2 _].
      apply Hscore; assumption.
Qed.

End OrderFacts.

(** * The fee against its formula *)

Module FeeFacts.
Import Js Exact NumFacts OpFacts RoundFacts.

(** [x || 0] differs from [x] in the sign of a zero at most, unless [x] is
    NaN. *)
Lemma or_zero_same x : number_option x -> same_number (or_zero x) (missing_as_zero x).
Proof.
  destruct x as [[s | s | | s m e] |]; cbn; intros H; try discriminate H;
    try (left; reflexivity).
  right. split; reflexivity.
Qed.

Lemma mul_same a u v : same_number u v -> same_number (mul a u) (mul a v).
Proof.
  intros [-> | [Hu Hv]]; [left; reflexivity |].
  destruct u as [su | | |]; try discriminate Hu.
  destruct v as [sv | | |]; try discriminate Hv.
  destruct a as [sa | sa | | sa ma ea]; cbn; try (left; reflexivity);
    right; split; reflexivity.
Qed.

Lemma add_same u v f g :
  same_number u v -> same_number f g -> same_number (add u f) (add v g).
Proof.
  intros [-> | [Hu Hv]] [-> | [Hf Hg]]; try (left; reflexivity).
  - destruct f as [sf | | |]; try discriminate Hf.
    destruct g as [sg | | |]; try discriminate Hg.
    destruct v as [sv | sv | | sv mv ev]; try (left; reflexivity).
    right. destruct sv, sf, sg; split; reflexivity.
  - destruct u as [su | | |]; try discriminate Hu.
    destruct v as [sv | | |]; try discriminate Hv.
    destruct g as [sg | sg | | sg mg eg]; try (left; reflexivity).
    right. destruct su, sv, sg; split; reflexivity.
  - destruct u as [su | | |]; try discriminate Hu.
    destruct v as [sv | | |]; try discriminate Hv.
    destruct f as [sf | | |]; try discriminate Hf.
    destruct g as [sg | | |]; try discriminate Hg.
    right. destruct su, sv, sf, sg; split; reflexivity.
Qed.

Lemma round_same u v : same_number u v -> same_number (round u) (round v).
Proof.
  intros [-> | [Hu Hv]]; [left; reflexivity |].
  destruct u; try discriminate Hu. destruct v; try discriminate Hv.
  right. split; reflexivity.
Qed.

(** What [feeAmountCents] computes is [Math.round] of the formula, but for
    the sign of a zero. *)
Lemma fee_same p pay :
  number_option (fee_percentage p) -> number_option (fee_flat_cents p) ->
  same_number
    (add (mul (amount_cents pay) (or_zero (fee_percentage p)))
         (or_zero (fee_flat_cents p)))
    (fee_formula p pay) /\
  same_number (feeAmountCents p pay) (round (fee_formula p pay)).
Proof.
  intros Hp Hf.
  assert (H : same_number
                (add (mul (amount_cents pay) (or_zero (fee_percentage p)))
                     (or_zero (fee_flat_cents p)))
                (fee_formula p pay)).
  { unfold fee_formula.
    apply add_same; [apply mul_same |]; apply or_zero_same; assumption. }
  split; [exact H |]. unfold feeAmountCents. apply round_same, H.
Qed.

Lemma same_number_finite x y : same_number x y -> is_finite x = is_finite y.
Proof.
  intros [-> | [Hx Hy]]; [reflexivity |].
  destruct x; try discriminate Hx. destruct y; try discriminate Hy. reflexivity.
Qed.

Lemma same_number_integer x y : same_number x y -> is_integer x = is_integer y.
Proof.
  intros [-> | [Hx Hy]]; [reflexivity |].
  destruct x; try discriminate Hx. destruct y; try discriminate Hy. reflexivity.
Qed.

Lemma same_number_to_Q x y : same_number x y -> to_Q x = to_Q y.
Proof.
  intros [-> | [Hx Hy]]; [reflexivity |].
  destruct x; try discriminate Hx. destruct y; try discriminate Hy. reflexivity.
Qed.

Lemma same_number_not_finite x y : same_number x y -> is_finite y = false -> x = y.
Proof.
  intros [-> | [Hx Hy]]; [reflexivity |].
  destruct y; try discriminate Hy. discriminate.
Qed.

Lemma formula_wf p pay : valid_option (fee_flat_cents p) -> wf (fee_formula p pay).
Proof.
  intros H. unfold fee_formula. apply add_wf; [apply mul_wf |].
  destruct (fee_flat_cents p) as [v |]; [apply valid_wf, H | exact I].
Qed.

End FeeFacts.

(** * The properties of the engine *)

Import Js JsLib Exact OpFacts RunFacts DecideFacts EvalFacts CandidateFacts.
Import SelectFacts RoundFacts Examples.
Local Open Scope string_scope.

(** ** Scenario A *)

(** C1: with the catalog [Stripe; LocalProcessorA], the default rules and a
    card payment of 1250 cents from a merchant of cash-flow sensitivity 0.7,
    [decide] returns a decision that chooses "LocalProcessorA", with a fee of
    56 cents and an expected net amount of 1194 cents.  This holds wherever
    the three objects live on the heap, and whatever the currency, the
    merchant's id and its whitelist are. *)
Theorem scenario_A_decision processors rules payment h cur mid wl :
  snapshot h processors rules payment Scenario.catalog Scenario.default_rules
    {| amount_cents := of_Z 1250;
       currency := cur;
       payment_method := "card";
       merchant := {| merchant_id := mid;
                      cash_flow_sensitivity := decimal 7 10;
                      whitelisted_for := wl |} |} ->
  exists d,
    fst (decide processors rules payment h) = Return d /\
    chosen d = "LocalProcessorA" /\
    fee_cents (details d) = of_Z 56 /\
    expected_net_cents d = of_Z 1194.
Proof.
  intros H. rewrite (decide_run _ _ _ _ _ _ _ H). cbn [fst].
  eexists. split; [vm_compute; reflexivity |]. vm_compute. auto.
Qed.

Lemma scenario_A_witness :
  exists d,
    fst (Scenario.run Scenario.catalog Scenario.default_rules Scenario.card_payment)
    = Return d /\
    chosen d = "LocalProcessorA" /\
    fee_cents (details d) = of_Z 56 /\
    expected_net_cents d = of_Z 1194.
Proof.
  apply (scenario_A_decision 0%nat 1%nat 2%nat
           (Scenario.heap_of Scenario.catalog Scenario.default_rules Scenario.card_payment)
           "usd" "m_1" None).
  repeat split.
Defined.

(** ** A payment method no processor supports *)

(** C2, as stated, asks for an error named NoEligibleProcessorError.  With
    the default catalog and the method "wire" no processor is a candidate and
    [decide] does throw, but what it throws is the [TypeError] of reading
    [fallback.processor] where [fallback] is [undefined]. *)
Lemma unsupported_method_raises_TypeError :
  (forall p, In p Scenario.default_catalog ->
             supportsMethod p (payment_method wire_payment) = false) /\
  fst (Scenario.run Scenario.default_catalog Scenario.default_rules wire_payment)
  = Throw TypeError /\
  error_name TypeError <> "NoEligibleProcessorError".
Proof.
  split; [| split].
  - intros p Hp. cbn in Hp. repeat (destruct Hp as [<- | Hp]; [reflexivity |]). destruct Hp.
  - vm_compute. reflexivity.
  - cbn. discriminate.
Qed.

(** C2, amended: for every payment whose method no processor of the catalog
    supports, [decide] returns no decision: it throws a [TypeError], having
    created three empty arrays. *)
Theorem unsupported_method_throws processors rules payment h ps r pay :
  snapshot h processors rules payment ps r pay ->
  (forall p, In p ps -> supportsMethod p (payment_method pay) = false) ->
  decide processors rules payment h
  = (Throw TypeError,
     (h ++ [ProcessorArray []; EvaluationArray []; EvaluationArray []])%list).
Proof.
  intros Hs Hno. rewrite (decide_run _ _ _ _ _ _ _ Hs).
  unfold Pure.decide, Pure.allocated, Pure.evaluations.
  rewrite (candidates_nil _ _ Hno). reflexivity.
Qed.

Lemma unsupported_method_throws_witness :
  decide 0%nat 1%nat 2%nat
    (Scenario.heap_of Scenario.default_catalog Scenario.default_rules wire_payment)
  = (Throw TypeError,
     (Scenario.heap_of Scenario.default_catalog Scenario.default_rules wire_payment
        ++ [ProcessorArray []; EvaluationArray []; EvaluationArray []])%list).
Proof.
  apply (unsupported_method_throws 0%nat 1%nat 2%nat
           (Scenario.heap_of Scenario.default_catalog Scenario.default_rules wire_payment)
           Scenario.default_catalog Scenario.default_rules wire_payment).
  - repeat split.
  - intros p Hp. cbn in Hp. repeat (destruct Hp as [<- | Hp]; [reflexivity |]). destruct Hp.
Defined.

(** ** The whitelist gate *)

(** C3, as stated, covers the fallback path, and fails there.  With GatedFast
    (success rate 0.99, whitelist required) added to the catalog and the
    minimal success rate raised to 0.99, no evaluation is viable, and the
    fallback picks the highest success rate: GatedFast, for a merchant with no
    whitelist at all. *)
Lemma fallback_chooses_gated_processor :
  In GatedFast gated_catalog /\
  requires_whitelist GatedFast = Some true /\
  not_whitelisted GatedFast Scenario.card_payment /\
  exists d,
    fst (Scenario.run gated_catalog strict_rules Scenario.card_payment) = Return d /\
    chosen d = name GatedFast.
Proof.
  split; [cbn; auto |]. split; [reflexivity |]. split; [exact I |].
  eexists. split; vm_compute; reflexivity.
Qed.

(** C3, amended: when at least one evaluation is viable, and the names of
    the catalog are unique, [decide] returns a decision whose evaluation
    passed the strict checks and which does not choose a processor that
    requires a whitelist the merchant is not on. *)
Theorem whitelist_gate_on_scoring_path processors rules payment h ps r pay es p :
  snapshot h processors rules payment ps r pay ->
  NoDup (map name ps) ->
  In p ps ->
  requires_whitelist p = Some true ->
  not_whitelisted p pay ->
  Pure.evaluations ps r pay = Return es ->
  Pure.viable es <> [] ->
  exists d,
    fst (decide processors rules payment h) = Return d /\
    truthy (passesStrict (details d)) = true /\
    chosen d <> name p.
Proof.
  intros Hs Hnd Hp Hrw Hnw Hes Hv.
  rewrite (decide_run _ _ _ _ _ _ _ Hs). cbn [fst]. unfold Pure.decide. rewrite Hes.
  destruct (Pure.viable es) as [| v vs] eqn:Hvs; [congruence |].
  destruct (select_viable pay es v vs Hvs) as (w & -> & Hw).
  eexists. split; [reflexivity |]. cbn [details chosen Pure.decision].
  unfold Pure.viable in Hw. apply filter_In in Hw as [Hin Hpass].
  split; [exact Hpass |].
  destruct (evaluations_In _ _ _ _ _ Hes Hin) as [Hq Hev].
  intros Hname.
  assert (processor w = p) as Heq by (apply (unique_name ps); assumption).
  rewrite Heq in Hev.
  destruct (evaluate_passes _ _ _ _ _ Hev Hpass) as [_ [Hf | (names & Hwl & Hn)]].
  - rewrite Hrw in Hf. discriminate.
  - unfold not_whitelisted in Hnw. rewrite Hwl in Hnw. contradiction.
Qed.

Lemma whitelist_gate_witness :
  exists d,
    fst (Scenario.run gated_catalog Scenario.default_rules Scenario.card_payment)
    = Return d /\
    truthy (passesStrict (details d)) = true /\
    chosen d <> name GatedFast.
Proof.
  apply (whitelist_gate_on_scoring_path 0%nat 1%nat 2%nat
           (Scenario.heap_of gated_catalog Scenario.default_rules Scenario.card_payment)
           gated_catalog Scenario.default_rules Scenario.card_payment
           gated_evaluations GatedFast).
  - repeat split.
  - repeat constructor; cbn; intuition discriminate.
  - cbn; auto.
  - reflexivity.
  - exact I.
  - vm_compute. reflexivity.
  - vm_compute. discriminate.
Defined.

(** ** A baseline fee of zero *)

(** C4, as stated, has [evaluateProcessor] treat the saving as 0 when the
    baseline fee is 0.  There is no such case in the code: with a baseline
    that charges a percentage only and a payment of nothing, the baseline fee
    is 0, the saving is [0 / 0], and both the saving and the score are NaN. *)
Lemma zero_baseline_fee_gives_NaN :
  feeAmountCents percentage_only zero_payment = zero /\
  exists e,
    fst (evaluateProcessor 0%nat 1%nat percentage_only zero_payment
           (Scenario.heap_of [percentage_only] Scenario.default_rules zero_payment))
    = Return e /\
    saving_pct_vs_stripe e = NaN /\
    score e = NaN.
Proof.
  split; [vm_compute; reflexivity |].
  eexists. split; [vm_compute; reflexivity |]. split; reflexivity.
Qed.

(** C4, amended: when the baseline fee is 0, [evaluateProcessor] divides by
    it all the same, and the saving is never a finite number: it is NaN when
    the fee of the evaluated processor is 0 as well, and the score is then
    NaN too; it is an infinity when that fee is a number other than 0. *)
Theorem zero_baseline_fee_is_not_guarded processors rules h ps r p pay stripe :
  nth_error h processors = Some (ProcessorArray ps) ->
  nth_error h rules = Some (RulesObject r) ->
  Pure.baseline ps = Some stripe ->
  is_zero (feeAmountCents stripe pay) = true ->
  exists e,
    evaluateProcessor processors rules p pay h = (Return e, h) /\
    is_finite (saving_pct_vs_stripe e) = false /\
    (is_zero (fee_cents e) = true ->
     is_nan (saving_pct_vs_stripe e) = true /\ is_nan (score e) = true) /\
    (is_zero (fee_cents e) = false -> is_nan (fee_cents e) = false ->
     exists s, saving_pct_vs_stripe e = S754_infinity s).
Proof.
  intros Hp Hr Hb Hz.
  rewrite (evaluateProcessor_run _ _ _ _ _ _ _ Hp Hr).
  destruct (evaluate_fields ps r p pay stripe Hb)
    as (e & bonus & He & _ & Hfee & _ & Hsav & _).
  exists e. split; [rewrite He; reflexivity |].
  destruct (feeAmountCents stripe pay) as [s0 | | |] eqn:Hsf; try discriminate.
  rewrite Hsav, Hfee.
  destruct (div_by_zero (sub (S754_zero s0) (feeAmountCents p pay)) s0) as (H1 & H2 & H3).
  destruct (sub_from_zero s0 (feeAmountCents p pay)) as (H4 & H5).
  split; [exact H1 |]. split.
  - intros Hf. assert (Hn : is_nan (saving_pct_vs_stripe e) = true).
    { rewrite Hsav. apply H2, H4, Hf. }
    split; [rewrite Hsav in Hn; exact Hn |].
    apply (evaluate_score_nan _ _ _ _ _ He Hn).
  - intros Hf Hn. destruct (H5 Hf Hn) as [H6 H7]. apply H3; assumption.
Qed.

Lemma zero_baseline_fee_witness :
  exists e,
    evaluateProcessor 0%nat 1%nat percentage_only zero_payment
      (Scenario.heap_of [percentage_only] Scenario.default_rules zero_payment)
    = (Return e, Scenario.heap_of [percentage_only] Scenario.default_rules zero_payment) /\
    is_finite (saving_pct_vs_stripe e) = false /\
    (is_zero (fee_cents e) = true ->
     is_nan (saving_pct_vs_stripe e) = true /\ is_nan (score e) = true) /\
    (is_zero (fee_cents e) = false -> is_nan (fee_cents e) = false ->
     exists s, saving_pct_vs_stripe e = S754_infinity s).
Proof.
  apply (zero_baseline_fee_is_not_guarded 0%nat 1%nat
           (Scenario.heap_of [percentage_only] Scenario.default_rules zero_payment)
           [percentage_only] Scenario.default_rules percentage_only zero_payment
           percentage_only).
  - reflexivity.
  - reflexivity.
  - reflexivity.
  - vm_compute. reflexivity.
Defined.

(** ** The fallback *)

(** C5: when no evaluation is viable and there is at least one candidate,
    [decide] returns a decision whose evaluation is the first one with the
    greatest success rate among the evaluations of all candidates, which
    chooses the processor of that evaluation, and whose reason says that no
    candidate passed the strict constraints and that it falls back to the
    highest success rate.  The success rates are taken to be numbers of the
    catalog (binary64 values, not NaN).  In Scenario B (the catalog of
    Scenario A, the minimal success rate raised to 0.99) the processor chosen
    is "Stripe". *)
Theorem fallback_selects_highest_success_rate :
  (forall processors rules payment h ps r pay es,
      snapshot h processors rules payment ps r pay ->
      (forall p, In p ps -> valid_processor p) ->
      Pure.evaluations ps r pay = Return es ->
      (forall e, In e es -> is_nan (rate e) = false) ->
      es <> [] ->
      Pure.viable es = [] ->
      exists d,
        fst (decide processors rules payment h) = Return d /\
        first_max rate es (details d) /\
        chosen d = name (processor (details d)) /\
        reason d
        = "No candidate passed strict constraints — falling back to highest success_rate") /\
  (forall processors rules payment h cur mid wl,
      snapshot h processors rules payment Scenario.catalog strict_rules
        {| amount_cents := of_Z 1250;
           currency := cur;
           payment_method := "card";
           merchant := {| merchant_id := mid;
                          cash_flow_sensitivity := decimal 7 10;
                          whitelisted_for := wl |} |} ->
      exists d,
        fst (decide processors rules payment h) = Return d /\
        chosen d = "Stripe" /\
        reason d
        = "No candidate passed strict constraints — falling back to highest success_rate").
Proof.
  split.
  - intros processors rules payment h ps r pay es Hs Hval Hes Hnan Hne Hv.
    rewrite (decide_run _ _ _ _ _ _ _ Hs). cbn [fst]. unfold Pure.decide. rewrite Hes.
    destruct (fallback_first_max ps r pay es Hval Hes Hnan Hne Hv) as (w & -> & Hmax).
    eexists. split; [reflexivity |]. cbn. auto.
  - intros processors rules payment h cur mid wl Hs.
    rewrite (decide_run _ _ _ _ _ _ _ Hs). cbn [fst].
    eexists. split; [vm_compute; reflexivity |]. split; reflexivity.
Qed.

Lemma fallback_witness :
  exists d,
    fst (Scenario.run Scenario.catalog strict_rules Scenario.card_payment) = Return d /\
    first_max rate scenario_B_evaluations (details d) /\
    chosen d = name (processor (details d)) /\
    reason d
    = "No candidate passed strict constraints — falling back to highest success_rate".
Proof.
  apply (proj1 fallback_selects_highest_success_rate 0%nat 1%nat 2%nat
           (Scenario.heap_of Scenario.catalog strict_rules Scenario.card_payment)
           Scenario.catalog strict_rules Scenario.card_payment scenario_B_evaluations).
  - repeat split.
  - intros p Hp. cbn in Hp.
    repeat (destruct Hp as [<- | Hp]; [repeat split |]). destruct Hp.
  - vm_compute. reflexivity.
  - intros e He. cbn in He.
    repeat (destruct He as [<- | He]; [reflexivity |]). destruct He.
  - discriminate.
  - vm_compute. reflexivity.
Defined.

(** ** Ties *)

(** C6, as stated, holds for every pair of processors with equal score.  A
    score can be NaN: a baseline that charges a percentage only has a fee of
    0 for a payment of nothing, and its own saving is [0 / 0].  With that
    baseline listed first and LocalProcessorA and its twin behind it, all
    three evaluations are viable, the two others have the same score, a
    number, and every comparison of two of the three scores gives NaN or 0.
    No sort moves any of them: [viable[0]] is the baseline, and [decide]
    chooses "Stripe", whose score is not the greatest, and not
    LocalProcessorA, the first of the two that tie. *)
Lemma NaN_score_chosen_ahead_of_tied_scores :
  (forall p, In p Samples.nan_first_catalog -> valid_processor p) /\
  valid_rules Scenario.default_rules /\
  valid_payment zero_payment /\
  exists eS eA eT d,
    Pure.evaluations Samples.nan_first_catalog Scenario.default_rules zero_payment
    = Return [eS; eA; eT] /\
    Pure.viable [eS; eA; eT] = [eS; eA; eT] /\
    processor eS = percentage_only /\
    processor eA = Scenario.LocalProcessorA /\
    processor eT = Samples.LocalTwin /\
    score eS = NaN /\
    score eA = score eT /\
    is_finite (score eA) = true /\
    geb (score eS) (score eA) = false /\
    (forall a b, In a [eS; eA; eT] -> In b [eS; eA; eT] ->
                 gtb (sub (score b) (score a)) zero = false /\
                 ltb (sub (score b) (score a)) zero = false) /\
    fst (Scenario.run Samples.nan_first_catalog Scenario.default_rules zero_payment)
    = Return d /\
    details d = eS /\
    chosen d = "Stripe" /\
    chosen d <> name Scenario.LocalProcessorA.
Proof.
  split.
  { intros p Hp. cbn in Hp.
    repeat (destruct Hp as [<- | Hp]; [repeat split |]). destruct Hp. }
  split; [repeat split |]. split; [repeat split |].
  do 4 eexists.
  split; [vm_compute; reflexivity |].
  split; [vm_compute; reflexivity |].
  split; [reflexivity |]. split; [reflexivity |]. split; [reflexivity |].
  split; [reflexivity |]. split; [reflexivity |]. split; [reflexivity |].
  split; [reflexivity |]. split.
  { intros a b Ha Hb. cbn [In] in Ha, Hb.
    destruct Ha as [<- | [<- | [<- | []]]], Hb as [<- | [<- | [<- | []]]];
      vm_compute; split; reflexivity. }
  split; [vm_compute; reflexivity |].
  split; [reflexivity |]. split; [reflexivity |].
  cbn. discriminate.
Qed.

(** C6, amended: when the keys are numbers (no viable evaluation has a score
    of NaN; the success rates are numbers of the catalog), the evaluations
    are those of the candidates in catalog order, and [decide] chooses the
    processor of the first evaluation with the greatest key (the score among
    the viable evaluations, the success rate among all of them on the
    fallback path): every evaluation ahead of it in catalog order has a key
    that is strictly smaller, so of the processors that tie for the greatest
    key the one that comes first in the catalog is chosen.  [sort] is
    stable. *)
Theorem ties_resolved_in_catalog_order processors rules payment h ps r pay es :
  snapshot h processors rules payment ps r pay ->
  valid_rules r ->
  (forall p, In p ps -> valid_processor p) ->
  Pure.evaluations ps r pay = Return es ->
  (forall e, In e es -> is_nan (rate e) = false) ->
  (forall e, In e (Pure.viable es) -> is_nan (score e) = false) ->
  es <> [] ->
  map processor es = filter (fun p => supportsMethod p (payment_method pay)) ps /\
  exists d,
    fst (decide processors rules payment h) = Return d /\
    chosen d = name (processor (details d)) /\
    match Pure.viable es with
    | [] => first_max rate es (details d)
    | v => first_max score v (details d)
    end.
Proof.
  intros Hs Hr Hval Hes Hrate Hscore Hne.
  split; [apply (evaluations_processors _ _ _ _ Hes) |].
  rewrite (decide_run _ _ _ _ _ _ _ Hs). cbn [fst]. unfold Pure.decide. rewrite Hes.
  destruct (Pure.viable es) as [| v vs] eqn:Hv.
  - destruct (fallback_first_max ps r pay es Hval Hes Hrate Hne Hv) as (w & -> & Hmax).
    eexists. split; [reflexivity |]. split; [reflexivity | exact Hmax].
  - destruct (scoring_first_max ps r pay es Hr Hes) as (w & -> & Hmax).
    + rewrite Hv. exact Hscore.
    + rewrite Hv. discriminate.
    + eexists. split; [reflexivity |]. split; [reflexivity |]. rewrite <- Hv. exact Hmax.
Qed.

Lemma ties_witness :
  map processor twin_evaluations
  = filter (fun p => supportsMethod p (payment_method Scenario.card_payment)) twin_catalog /\
  exists d,
    fst (Scenario.run twin_catalog Scenario.default_rules Scenario.card_payment) = Return d /\
    chosen d = name (processor (details d)) /\
    first_max score twin_evaluations (details d).
Proof.
  apply (ties_resolved_in_catalog_order 0%nat 1%nat 2%nat
           (Scenario.heap_of twin_catalog Scenario.default_rules Scenario.card_payment)
           twin_catalog Scenario.default_rules Scenario.card_payment twin_evaluations).
  - repeat split.
  - repeat split.
  - intros p Hp. cbn in Hp.
    repeat (destruct Hp as [<- | Hp]; [repeat split |]). destruct Hp.
  - vm_compute. reflexivity.
  - intros e He. cbn in He.
    repeat (destruct He as [<- | He]; [reflexivity |]). destruct He.
  - intros e He. cbn in He.
    repeat (destruct He as [<- | He]; [reflexivity |]). destruct He.
  - discriminate.
Defined.

(** ** The fee *)

(** C7, as stated, makes the fee a non-negative integer whenever the amount
    is finite and non-negative and the fee percentage and flat fee are
    non-negative.  A product that leaves the binary64 range is an infinity:
    an amount of 10^308 cents at a fee of 1000 percent gives a fee of
    +Infinity, which is no integer. *)
Lemma fee_overflows :
  valid_processor usurer /\ valid_payment huge_payment /\
  is_finite (amount_cents huge_payment) = true /\
  geb (amount_cents huge_payment) zero = true /\
  nonneg_option (fee_percentage usurer) /\
  nonneg_option (fee_flat_cents usurer) /\
  feeAmountCents usurer huge_payment = Infinity /\
  is_integer (feeAmountCents usurer huge_payment) = false.
Proof. vm_compute. repeat split; reflexivity. Qed.

(** C7, amended: let [x] be the binary64 value of
    [amount_cents * fee_percentage + fee_flat_cents], a missing property
    counting as 0 ([fee_formula]; the fee fields, where present, are
    numbers).  For every processor and payment, when [x] is finite the fee is
    an integer, the value of [x] rounded to the nearest integer with a tie
    going up, for a negative [x] too; when [x] is not finite (the product has
    left the binary64 range, or an operand is not finite) the fee is [x]
    itself.  When the amount is finite and not negative and the fee
    percentage and flat fee, where present, are finite and not negative,
    either [x] has overflowed to +Infinity and so has the fee, or the fee is
    an integer that is not negative.  The witness is a flat fee of -2.5
    cents, which rounds to -2. *)
Theorem fee_is_rounded_half_up p pay :
  valid_processor p ->
  number_option (fee_percentage p) ->
  number_option (fee_flat_cents p) ->
  let x := fee_formula p pay in
  (is_finite x = true ->
   is_integer (feeAmountCents p pay) = true /\
   exists q q', to_Q x = Some q /\ to_Q (feeAmountCents p pay) = Some q' /\
                (q' == inject_Z (round_half_up q))%Q) /\
  (is_finite x = false -> feeAmountCents p pay = x) /\
  (is_finite (amount_cents pay) = true ->
   geb (amount_cents pay) zero = true ->
   nonneg_option (fee_percentage p) ->
   nonneg_option (fee_flat_cents p) ->
   (x = Infinity /\ feeAmountCents p pay = Infinity) \/
   (is_finite x = true /\ geb (feeAmountCents p pay) zero = true)).
Proof.
  intros (_ & Hvf & _) Hnp Hnf x.
  destruct (FeeFacts.fee_same p pay Hnp Hnf) as [Hx Hfee]. fold x in Hx, Hfee.
  pose proof (FeeFacts.formula_wf p pay Hvf) as Hwf. fold x in Hwf.
  split; [| split].
  - intros Hfin.
    destruct (round_spec x Hwf Hfin) as (_ & Hint & _ & q & q' & Hq & Hq' & Heq).
    rewrite (FeeFacts.same_number_integer _ _ Hfee), (FeeFacts.same_number_to_Q _ _ Hfee).
    split; [exact Hint |]. exists q, q'. auto.
  - intros Hfin.
    assert (Hr : round x = x) by (destruct x; try discriminate Hfin; reflexivity).
    rewrite Hr in Hfee. apply (FeeFacts.same_number_not_finite _ _ Hfee Hfin).
  - intros Hfa Hga Hp Hf.
    set (xc := add (mul (amount_cents pay) (or_zero (fee_percentage p)))
                   (or_zero (fee_flat_cents p))) in *.
    assert (Hc : nonneg xc \/ xc = Infinity).
    { apply add_nonneg; [| apply or_zero_nonneg, Hf].
      apply mul_nonneg; [apply nonneg_of_geb; assumption | apply or_zero_nonneg, Hp]. }
    destruct Hc as [Hc | Hc].
    + right.
      assert (Hfc : is_finite xc = true)
        by (destruct xc as [| | | [] m e]; cbn in *; auto; contradiction).
      split; [rewrite <- (FeeFacts.same_number_finite _ _ Hx); exact Hfc |].
      change (feeAmountCents p pay) with (round xc).
      assert (Hwc : wf xc) by (apply add_wf; [apply mul_wf | apply or_zero_wf, Hvf]).
      destruct (round_spec xc Hwc Hfc) as (_ & _ & Hnn & _).
      apply geb_of_nonneg, Hnn, Hc.
    + left.
      assert (Hxi : x = Infinity).
      { destruct Hx as [Hx | [Hx _]]; [congruence | rewrite Hc in Hx; discriminate Hx]. }
      split; [exact Hxi |]. change (feeAmountCents p pay) with (round xc).
      rewrite Hc. reflexivity.
Qed.

Lemma fee_witness :
  feeAmountCents Samples.Rebate Scenario.card_payment = of_Z (-2) /\
  let x := fee_formula Samples.Rebate Scenario.card_payment in
  (is_finite x = true ->
   is_integer (feeAmountCents Samples.Rebate Scenario.card_payment) = true /\
   exists q q', to_Q x = Some q /\
                to_Q (feeAmountCents Samples.Rebate Scenario.card_payment) = Some q' /\
                (q' == inject_Z (round_half_up q))%Q) /\
  (is_finite x = false -> feeAmountCents Samples.Rebate Scenario.card_payment = x) /\
  (is_finite (amount_cents Scenario.card_payment) = true ->
   geb (amount_cents Scenario.card_payment) zero = true ->
   nonneg_option (fee_percentage Samples.Rebate) ->
   nonneg_option (fee_flat_cents Samples.Rebate) ->
   (x = Infinity /\ feeAmountCents Samples.Rebate Scenario.card_payment = Infinity) \/
   (is_finite x = true /\
    geb (feeAmountCents Samples.Rebate Scenario.card_payment) zero = true)).
Proof.
  split; [vm_compute; reflexivity |].
  apply (fee_is_rounded_half_up Samples.Rebate Scenario.card_payment).
  - repeat split.
  - exact I.
  - reflexivity.
Defined.

(** ** The settlement score *)

(** C8: the claim covers every cash-flow sensitivity, and the code means to
    keep the score in range (its comment on the clamp: "Protect range 0..1").
    A merchant object without [cash_flow_sensitivity], which the server
    passes on as it is, defeats the clamp: the product with [undefined] is
    NaN, [Math.max(0, NaN)] and [Math.min(1, NaN)] are NaN, and the
    settlement score of "Stripe" (two days) is NaN, neither at least 0 nor at
    most 1.  The server answers such a request with status 200 and that
    score. *)
Theorem settlement_score_of_a_missing_sensitivity :
  payment_input Samples.unrated_request = Samples.unrated_payment /\
  is_finite (settlement_time_days Scenario.Stripe) = true /\
  geb (settlement_time_days Scenario.Stripe) zero = true /\
  (exists e,
     evaluateProcessor 0%nat 1%nat Scenario.Stripe Samples.unrated_payment
       (Scenario.heap_of Scenario.default_catalog Scenario.default_rules
          Samples.unrated_payment)
     = (Return e,
        Scenario.heap_of Scenario.default_catalog Scenario.default_rules
          Samples.unrated_payment) /\
     settlement_score e = NaN /\
     leb zero (settlement_score e) = false /\
     leb (settlement_score e) one = false) /\
  (exists handled d,
     fst (post_decide 0%nat 1%nat Samples.unrated_request Samples.server_heap)
     = Return handled /\
     status (response handled) = 200 /\
     body (response handled) = DecisionBody d /\
     settlement_score (details d) = NaN).
Proof.
  split; [reflexivity |]. split; [reflexivity |]. split; [reflexivity |]. split.
  - eexists. split; [vm_compute; reflexivity |]. repeat split.
  - do 2 eexists. split; [vm_compute; reflexivity |]. repeat split.
Qed.

(** What the clamp does protect: for every processor whose settlement time
    is a finite number and every cash-flow sensitivity that is a finite
    number, the settlement score [evaluateProcessor] computes lies between 0
    and 1, bounds included.  (The catalog must hold its baseline for an
    evaluation to be returned at all.) *)
Theorem settlement_score_in_unit_interval processors rules h ps r p pay :
  nth_error h processors = Some (ProcessorArray ps) ->
  nth_error h rules = Some (RulesObject r) ->
  Pure.baseline ps <> None ->
  is_finite (settlement_time_days p) = true ->
  geb (settlement_time_days p) zero = true ->
  is_finite (cash_flow_sensitivity (merchant pay)) = true ->
  exists e,
    evaluateProcessor processors rules p pay h = (Return e, h) /\
    leb zero (settlement_score e) = true /\
    leb (settlement_score e) one = true.
Proof.
  intros Hp Hr Hb Hd _ Hs.
  rewrite (evaluateProcessor_run _ _ _ _ _ _ _ Hp Hr).
  destruct (evaluate_returns ps r p pay Hb) as [e He].
  exists e. split; [rewrite He; reflexivity |].
  apply (evaluate_settlement _ _ _ _ _ He Hd Hs).
Qed.

Lemma settlement_score_witness :
  exists e,
    evaluateProcessor 0%nat 1%nat Scenario.LocalProcessorA Scenario.card_payment
      (Scenario.heap_of Scenario.catalog Scenario.default_rules Scenario.card_payment)
    = (Return e,
       Scenario.heap_of Scenario.catalog Scenario.default_rules Scenario.card_payment) /\
    leb zero (settlement_score e) = true /\
    leb (settlement_score e) one = true.
Proof.
  apply (settlement_score_in_unit_interval 0%nat 1%nat
           (Scenario.heap_of Scenario.catalog Scenario.default_rules Scenario.card_payment)
           Scenario.catalog Scenario.default_rules).
  - reflexivity.
  - reflexivity.
  - vm_compute. discriminate.
  - reflexivity.
  - reflexivity.
  - reflexivity.
Defined.

(** ** Determinism and the heap *)

(** C9: two calls of [decide] that find the same catalog, the same rules and
    the same payment have the same outcome (the same decision, field by
    field, or the same error), whatever else the two heaps hold and wherever
    the three objects live. *)
Theorem decide_deterministic
    h processors rules payment h' processors' rules' payment' ps r pay :
  snapshot h processors rules payment ps r pay ->
  snapshot h' processors' rules' payment' ps r pay ->
  fst (decide processors rules payment h) = fst (decide processors' rules' payment' h').
Proof.
  intros H H'. rewrite (decide_run _ _ _ _ _ _ _ H), (decide_run _ _ _ _ _ _ _ H').
  reflexivity.
Qed.

(** A second call, on the heap the first one has left. *)
Lemma decide_twice :
  let h := Scenario.heap_of Scenario.catalog Scenario.default_rules Scenario.card_payment in
  fst (decide 0%nat 1%nat 2%nat h)
  = fst (decide 0%nat 1%nat 2%nat (snd (decide 0%nat 1%nat 2%nat h))).
Proof.
  cbv zeta.
  apply (decide_deterministic _ 0%nat 1%nat 2%nat _ 0%nat 1%nat 2%nat
           Scenario.catalog Scenario.default_rules Scenario.card_payment).
  - repeat split.
  - rewrite (decide_run 0%nat 1%nat 2%nat
               (Scenario.heap_of Scenario.catalog Scenario.default_rules Scenario.card_payment)
               Scenario.catalog Scenario.default_rules Scenario.card_payment
               (conj eq_refl (conj eq_refl eq_refl))).
    repeat split.
Defined.

(** C10, as stated, has the [evaluations] array as the only array sorted in
    place.  In Scenario A the array of evaluations is left in the order of
    the catalog, and the array that ends up reordered is [viable], the one
    [filter] has made of it. *)
Lemma scoring_path_sorts_viable :
  let h' := snd (Scenario.run Scenario.catalog Scenario.default_rules Scenario.card_payment) in
  exists es,
    Pure.evaluations Scenario.catalog Scenario.default_rules Scenario.card_payment
    = Return es /\
    nth_error h' 4 = Some (EvaluationArray es) /\
    nth_error h' 5 = Some (EvaluationArray (sort Pure.by_score (Pure.viable es))) /\
    sort Pure.by_score (Pure.viable es) <> Pure.viable es.
Proof.
  cbv zeta. exists scenario_A_evaluations. split; [vm_compute; reflexivity |].
  split; [vm_compute; reflexivity |]. split; [vm_compute; reflexivity |].
  intros H. apply (f_equal (map (fun e => name (processor e)))) in H.
  vm_compute in H. discriminate.
Qed.

(** C10, amended: [decide] never mutates its inputs.  Every object that was
    on the heap before the call (the catalog with its processors in their
    order, the rules, the payment, and anything else) is there unchanged
    after it.  The call adds the arrays it creates, [Pure.allocated]: the
    candidates, the evaluations and the viable evaluations, of which it has
    sorted one in place, the evaluations on the fallback path and the viable
    evaluations on the scoring path. *)
Theorem decide_frame processors rules payment h :
  (forall l o, nth_error h l = Some o ->
               nth_error (snd (decide processors rules payment h)) l = Some o) /\
  (forall ps r pay, snapshot h processors rules payment ps r pay ->
                    snd (decide processors rules payment h)
                    = (h ++ Pure.allocated ps r pay)%list).
Proof.
  split.
  - intros l o Ho. destruct (decide_extends processors rules payment h) as [cells ->].
    apply nth_error_old, Ho.
  - intros ps r pay Hs. rewrite (decide_run _ _ _ _ _ _ _ Hs). reflexivity.
Qed.

(** * Further properties of the engine and of the server *)

Import OutcomeFacts ReadFacts ServerFacts ExactFacts ScoreFacts GateFacts OrderFacts.

(** ** Errors and results of the engine *)

(** X1: [evaluateProcessor] leaves the heap as it finds it, and returns an
    evaluation exactly when the catalog holds a processor named "Stripe":
    without one it throws the [TypeError] of reading [fee_percentage] of
    [undefined].  The evaluation returned is that of the processor asked
    for, with its own fee and its success rate as risk score. *)
Theorem evaluateProcessor_needs_Stripe processors rules h ps r p pay :
  nth_error h processors = Some (ProcessorArray ps) ->
  nth_error h rules = Some (RulesObject r) ->
  snd (evaluateProcessor processors rules p pay h) = h /\
  match fst (evaluateProcessor processors rules p pay h) with
  | Return e =>
      (exists s, In s ps /\ name s = "Stripe") /\
      processor e = p /\
      fee_cents e = feeAmountCents p pay /\
      risk_score e = success_rate p
  | Throw err =>
      err = TypeError /\ forall s, In s ps -> name s <> "Stripe"
  end.
Proof.
  intros Hp Hr. split; [apply evaluateProcessor_heap |].
  rewrite (evaluateProcessor_run _ _ _ _ _ _ _ Hp Hr). cbn [fst].
  destruct (Pure.baseline ps) as [stripe |] eqn:Hb.
  - destruct (evaluate_fields ps r p pay stripe Hb)
      as (e & bonus & -> & Hproc & Hfee & Hrisk & _).
    split; [apply baseline_exists; congruence | auto].
  - rewrite (evaluate_no_baseline _ _ _ _ Hb).
    split; [reflexivity | apply baseline_None, Hb].
Qed.

Lemma evaluateProcessor_without_Stripe :
  let h := Scenario.heap_of Samples.lone_catalog Scenario.default_rules
             Scenario.card_payment in
  snd (evaluateProcessor 0%nat 1%nat Scenario.LocalProcessorA Scenario.card_payment h)
  = h /\
  match fst (evaluateProcessor 0%nat 1%nat Scenario.LocalProcessorA
               Scenario.card_payment h) with
  | Return e =>
      (exists s, In s Samples.lone_catalog /\ name s = "Stripe") /\
      processor e = Scenario.LocalProcessorA /\
      fee_cents e = feeAmountCents Scenario.LocalProcessorA Scenario.card_payment /\
      risk_score e = success_rate Scenario.LocalProcessorA
  | Throw err =>
      err = TypeError /\
      forall s, In s Samples.lone_catalog -> name s <> "Stripe"
  end.
Proof.
  cbv zeta.
  apply (evaluateProcessor_needs_Stripe 0%nat 1%nat
           (Scenario.heap_of Samples.lone_catalog Scenario.default_rules
              Scenario.card_payment)
           Samples.lone_catalog Scenario.default_rules
           Scenario.LocalProcessorA Scenario.card_payment).
  - reflexivity.
  - reflexivity.
Defined.

(** X2: [decide] returns a decision exactly when some processor of the
    catalog supports the payment's method and the catalog holds a processor
    named "Stripe".  In every other case it throws a [TypeError]; it throws
    nothing else. *)
Theorem decide_returns_or_throws_TypeError processors rules payment h ps r pay :
  snapshot h processors rules payment ps r pay ->
  match fst (decide processors rules payment h) with
  | Return d =>
      (exists p, In p ps /\ supportsMethod p (payment_method pay) = true) /\
      (exists s, In s ps /\ name s = "Stripe")
  | Throw err =>
      err = TypeError /\
      ((forall p, In p ps -> supportsMethod p (payment_method pay) = false) \/
       (forall s, In s ps -> name s <> "Stripe"))
  end.
Proof.
  intros Hs. rewrite (decide_run _ _ _ _ _ _ _ Hs). cbn [fst].
  apply decide_outcome.
Qed.

Lemma decide_without_Stripe :
  match fst (Scenario.run Samples.lone_catalog Scenario.default_rules
               Scenario.card_payment) with
  | Return d =>
      (exists p, In p Samples.lone_catalog /\
                 supportsMethod p (payment_method Scenario.card_payment) = true) /\
      (exists s, In s Samples.lone_catalog /\ name s = "Stripe")
  | Throw err =>
      err = TypeError /\
      ((forall p, In p Samples.lone_catalog ->
                  supportsMethod p (payment_method Scenario.card_payment) = false) \/
       (forall s, In s Samples.lone_catalog -> name s <> "Stripe"))
  end.
Proof.
  apply (decide_returns_or_throws_TypeError 0%nat 1%nat 2%nat
           (Scenario.heap_of Samples.lone_catalog Scenario.default_rules
              Scenario.card_payment)
           Samples.lone_catalog Scenario.default_rules Scenario.card_payment).
  repeat split.
Defined.

(** X3: a decision is consistent with the catalog and with itself.  The
    processor it reports is one of the catalog that supports the payment's
    method, [chosen] is its name, [details] is what [evaluateProcessor]
    returns for it, and [expected_net_cents] is the amount less the fee
    reported in [details], rounded. *)
Theorem decision_is_consistent processors rules payment h ps r pay d :
  snapshot h processors rules payment ps r pay ->
  fst (decide processors rules payment h) = Return d ->
  In (processor (details d)) ps /\
  supportsMethod (processor (details d)) (payment_method pay) = true /\
  chosen d = name (processor (details d)) /\
  evaluateProcessor processors rules (processor (details d)) pay h
  = (Return (details d), h) /\
  fee_cents (details d) = feeAmountCents (processor (details d)) pay /\
  expected_net_cents d = round (sub (amount_cents pay) (fee_cents (details d))).
Proof.
  intros Hs Hd. rewrite (decide_run _ _ _ _ _ _ _ Hs) in Hd. cbn [fst] in Hd.
  pose proof (decide_cases ps r pay) as H. rewrite Hd in H.
  destruct H as (_ & Hb & es & w & why & Hes & Hin & -> & _).
  cbn [details chosen expected_net_cents Pure.decision].
  destruct (evaluations_In _ _ _ _ _ Hes Hin) as [Hp Hev].
  assert (Hc : In (processor w) (Pure.candidates ps pay)).
  { rewrite <- (evaluations_processors _ _ _ _ Hes). apply in_map, Hin. }
  apply candidates_In in Hc as [_ Hm].
  destruct Hs as (Hps & Hr & _).
  destruct (Pure.baseline ps) as [stripe |] eqn:Hbase; [| congruence].
  destruct (evaluate_fields ps r (processor w) pay stripe Hbase)
    as (e & bonus & He & _ & Hfee & _).
  assert (e = w) by congruence. subst e.
  repeat split; auto.
  - rewrite (evaluateProcessor_run _ _ _ _ _ _ _ Hps Hr), Hev. reflexivity.
  - rewrite Hfee. reflexivity.
Qed.

Lemma decision_is_consistent_witness :
  exists d,
    fst (Scenario.run Scenario.default_catalog Scenario.default_rules
           Scenario.card_payment) = Return d /\
    In (processor (details d)) Scenario.default_catalog /\
    supportsMethod (processor (details d)) "card" = true /\
    chosen d = name (processor (details d)) /\
    expected_net_cents d
    = round (sub (amount_cents Scenario.card_payment) (fee_cents (details d))).
Proof.
  assert (H : exists d,
             fst (Scenario.run Scenario.default_catalog Scenario.default_rules
                    Scenario.card_payment) = Return d).
  { eexists. vm_compute. reflexivity. }
  destruct H as [d Hd]. exists d. split; [exact Hd |].
  destruct (decision_is_consistent 0%nat 1%nat 2%nat
              (Scenario.heap_of Scenario.default_catalog Scenario.default_rules
                 Scenario.card_payment)
              Scenario.default_catalog Scenario.default_rules Scenario.card_payment d
              (conj eq_refl (conj eq_refl eq_refl)) Hd)
    as (H1 & H2 & H3 & _ & _ & H6).
  auto.
Defined.

(** X4: the reason tells which path [decide] has taken, and [details] agrees
    with it.  Either the evaluation chosen passes the strict checks, its
    success rate is at least [min_success_rate], and the reason quotes its
    score; or no candidate passes the strict checks and the reason is the
    fallback sentence. *)
Theorem reason_tells_the_path processors rules payment h ps r pay d :
  snapshot h processors rules payment ps r pay ->
  fst (decide processors rules payment h) = Return d ->
  (truthy (passesStrict (details d)) = true /\
   geb (success_rate (processor (details d))) (min_success_rate (rule_thresholds r))
   = true /\
   reason d
   = "Selected by scoring rules (score=" ++ toFixed 3 (score (details d)) ++ ")" /\
   reason d <> fallback_reason) \/
  (truthy (passesStrict (details d)) = false /\
   reason d = fallback_reason /\
   forall p e,
     In p ps -> supportsMethod p (payment_method pay) = true ->
     fst (evaluateProcessor processors rules p pay h) = Return e ->
     truthy (passesStrict e) = false).
Proof.
  intros Hs Hd. rewrite (decide_run _ _ _ _ _ _ _ Hs) in Hd. cbn [fst] in Hd.
  pose proof (decide_cases ps r pay) as H. rewrite Hd in H.
  destruct H as (_ & _ & es & w & why & Hes & Hin & -> & [[Hv ->] | [Hv ->]]);
    cbn [details reason Pure.decision].
  - right.
    assert (Hall : forall e, In e es -> truthy (passesStrict e) = false).
    { intros e He. destruct (truthy (passesStrict e)) eqn:Ht; [| reflexivity].
      assert (Hf : In e (Pure.viable es)) by (apply filter_In; auto).
      rewrite Hv in Hf. destruct Hf. }
    split; [apply Hall, Hin |]. split; [reflexivity |].
    intros p e Hp Hm He. destruct Hs as (Hps & Hr & _).
    rewrite (evaluateProcessor_run _ _ _ _ _ _ _ Hps Hr) in He. cbn [fst] in He.
    assert (Hc : In p (Pure.candidates ps pay)) by (apply candidates_In; auto).
    rewrite <- (evaluations_processors _ _ _ _ Hes) in Hc.
    apply in_map_iff in Hc as (e' & Hpe & He').
    destruct (evaluations_In _ _ _ _ _ Hes He') as [_ Hev].
    rewrite Hpe in Hev. assert (e' = e) by congruence. subst e'.
    apply Hall, He'.
  - left. apply filter_In in Hv as [_ Hpass].
    destruct (evaluations_In _ _ _ _ _ Hes Hin) as [_ Hev].
    destruct (evaluate_passes _ _ _ _ _ Hev Hpass) as [Hrate _].
    repeat split; auto.
    unfold Pure.score_reason, fallback_reason. cbn [append]. discriminate.
Qed.

Lemma reason_tells_the_path_witness :
  exists d,
    fst (Scenario.run Scenario.catalog strict_rules Scenario.card_payment) = Return d /\
    ((truthy (passesStrict (details d)) = true /\
      geb (success_rate (processor (details d)))
          (min_success_rate (rule_thresholds strict_rules)) = true /\
      reason d
      = "Selected by scoring rules (score=" ++ toFixed 3 (score (details d)) ++ ")" /\
      reason d <> fallback_reason) \/
     (truthy (passesStrict (details d)) = false /\
      reason d = fallback_reason /\
      forall p e,
        In p Scenario.catalog ->
        supportsMethod p (payment_method Scenario.card_payment) = true ->
        fst (evaluateProcessor 0%nat 1%nat p Scenario.card_payment
               (Scenario.heap_of Scenario.catalog strict_rules Scenario.card_payment))
        = Return e ->
        truthy (passesStrict e) = false)).
Proof.
  assert (H : exists d,
             fst (Scenario.run Scenario.catalog strict_rules Scenario.card_payment)
             = Return d).
  { eexists. vm_compute. reflexivity. }
  destruct H as [d Hd]. exists d. split; [exact Hd |].
  apply (reason_tells_the_path 0%nat 1%nat 2%nat
           (Scenario.heap_of Scenario.catalog strict_rules Scenario.card_payment)
           Scenario.catalog strict_rules Scenario.card_payment d
           (conj eq_refl (conj eq_refl eq_refl)) Hd).
Defined.

(** ** What the engine reads *)

(** X5: of the payment, [decide] reads the amount, the method and the
    merchant's sensitivity and whitelist, and nothing else: two payments
    that agree on these get the same outcome, whatever their currencies and
    merchant ids are. *)
Theorem decide_ignores_currency
    h processors rules payment h' processors' rules' payment' ps r pay pay' :
  snapshot h processors rules payment ps r pay ->
  snapshot h' processors' rules' payment' ps r pay' ->
  amount_cents pay = amount_cents pay' ->
  payment_method pay = payment_method pay' ->
  cash_flow_sensitivity (merchant pay) = cash_flow_sensitivity (merchant pay') ->
  whitelisted_for (merchant pay) = whitelisted_for (merchant pay') ->
  fst (decide processors rules payment h) = fst (decide processors' rules' payment' h').
Proof.
  intros H H' Ha Hm Hs Hw.
  rewrite (decide_run _ _ _ _ _ _ _ H), (decide_run _ _ _ _ _ _ _ H'). cbn [fst].
  apply decide_payment; assumption.
Qed.

Lemma decide_ignores_currency_witness :
  fst (Scenario.run Scenario.default_catalog Scenario.default_rules Scenario.card_payment)
  = fst (Scenario.run Scenario.default_catalog Scenario.default_rules
           Samples.euro_payment).
Proof.
  apply (decide_ignores_currency
           (Scenario.heap_of Scenario.default_catalog Scenario.default_rules
              Scenario.card_payment) 0%nat 1%nat 2%nat
           (Scenario.heap_of Scenario.default_catalog Scenario.default_rules
              Samples.euro_payment) 0%nat 1%nat 2%nat
           Scenario.default_catalog Scenario.default_rules
           Scenario.card_payment Samples.euro_payment);
    repeat split.
Defined.

(** X6: of the catalog, [decide] reads the processors that support the
    payment's method, in their order, and the first processor named
    "Stripe".  Two catalogs that agree on these give the same outcome:
    processors of other methods can be added, removed or changed at will. *)
Theorem decide_reads_candidates_and_baseline
    h processors rules payment h' processors' rules' payment' ps ps' r pay :
  snapshot h processors rules payment ps r pay ->
  snapshot h' processors' rules' payment' ps' r pay ->
  filter (fun p => supportsMethod p (payment_method pay)) ps
  = filter (fun p => supportsMethod p (payment_method pay)) ps' ->
  find (fun p => String.eqb (name p) "Stripe") ps
  = find (fun p => String.eqb (name p) "Stripe") ps' ->
  fst (decide processors rules payment h) = fst (decide processors' rules' payment' h').
Proof.
  intros H H' Hc Hb.
  rewrite (decide_run _ _ _ _ _ _ _ H), (decide_run _ _ _ _ _ _ _ H'). cbn [fst].
  apply decide_candidates; assumption.
Qed.

Lemma decide_reads_candidates_and_baseline_witness :
  fst (Scenario.run Scenario.default_catalog Scenario.default_rules Scenario.card_payment)
  = fst (Scenario.run Samples.card_catalog
           Scenario.default_rules Scenario.card_payment).
Proof.
  apply (decide_reads_candidates_and_baseline
           (Scenario.heap_of Scenario.default_catalog Scenario.default_rules
              Scenario.card_payment) 0%nat 1%nat 2%nat
           (Scenario.heap_of Samples.card_catalog
              Scenario.default_rules Scenario.card_payment) 0%nat 1%nat 2%nat
           Scenario.default_catalog
           Samples.card_catalog
           Scenario.default_rules Scenario.card_payment);
    repeat split.
Defined.

(** ** The server *)

(** X7: the handler of [POST /decide] always answers, and never throws.  It
    answers with status 200 and the decision of [decide] for the completed
    payment exactly when a processor supports the method (the one given, or
    "card" when none is) and the catalog holds "Stripe"; otherwise with
    status 500 and the [TypeError] it has caught and printed.  Whatever was
    on the heap is left as it was. *)
Theorem post_decide_answers processors rules h ps r payload :
  nth_error h processors = Some (ProcessorArray ps) ->
  nth_error h rules = Some (RulesObject r) ->
  let pay := payment_input payload in
  (forall l o, nth_error h l = Some o ->
               nth_error (snd (post_decide processors rules payload h)) l = Some o) /\
  exists handled,
    fst (post_decide processors rules payload h) = Return handled /\
    match body (response handled) with
    | DecisionBody d =>
        status (response handled) = 200 /\
        console handled = [] /\
        fst (decide processors rules (List.length h) (h ++ [PaymentObject pay])%list)
        = Return d /\
        (exists p, In p ps /\ supportsMethod p (payment_method pay) = true) /\
        (exists s, In s ps /\ name s = "Stripe")
    | ErrorBody err =>
        status (response handled) = 500 /\
        console handled = [err] /\
        err = TypeError /\
        ((forall p, In p ps -> supportsMethod p (payment_method pay) = false) \/
         (forall s, In s ps -> name s <> "Stripe"))
    end.
Proof.
  intros Hp Hr pay. rewrite (post_decide_run _ _ _ _ _ _ Hp Hr). cbn [fst snd].
  split; [intros l o Ho; apply nth_error_old, Ho |].
  pose proof (decide_outcome ps r (payment_input payload)) as H.
  pose proof (snapshot_fresh h _ _ ps r pay Hp Hr) as Hs.
  rewrite (decide_run _ _ _ _ _ _ _ Hs). cbn [fst]. fold pay.
  fold pay in H.
  destruct (Pure.decide ps r pay) as [d | err]; eexists; (split; [reflexivity |]);
    cbn [body response status console].
  - destruct H as [H1 H2]. auto.
  - destruct H as (-> & H). auto.
Qed.

Lemma post_decide_answers_witness :
  let pay := payment_input Requests.wire_request in
  (forall l o, nth_error Samples.server_heap l = Some o ->
               nth_error (snd (post_decide 0%nat 1%nat Requests.wire_request
                                 Samples.server_heap)) l = Some o) /\
  exists handled,
    fst (post_decide 0%nat 1%nat Requests.wire_request Samples.server_heap)
    = Return handled /\
    match body (response handled) with
    | DecisionBody d =>
        status (response handled) = 200 /\
        console handled = [] /\
        fst (decide 0%nat 1%nat (List.length Samples.server_heap)
               (Samples.server_heap ++ [PaymentObject pay])%list)
        = Return d /\
        (exists p, In p Scenario.default_catalog /\
                   supportsMethod p (payment_method pay) = true) /\
        (exists s, In s Scenario.default_catalog /\ name s = "Stripe")
    | ErrorBody err =>
        status (response handled) = 500 /\
        console handled = [err] /\
        err = TypeError /\
        ((forall p, In p Scenario.default_catalog ->
                    supportsMethod p (payment_method pay) = false) \/
         (forall s, In s Scenario.default_catalog -> name s <> "Stripe"))
    end.
Proof.
  apply (post_decide_answers 0%nat 1%nat Samples.server_heap
           Scenario.default_catalog Scenario.default_rules Requests.wire_request).
  - reflexivity.
  - reflexivity.
Defined.

(** X8: the answer to a request depends on its body through the amount, the
    method ("card" when it is missing or empty) and the merchant's
    sensitivity and whitelist (0.5 and none when there is no merchant), and
    through nothing else: not through the currency, the merchant's id or the
    metadata. *)
Theorem post_decide_reads_the_completed_payment processors rules h ps r p1 p2 :
  nth_error h processors = Some (ProcessorArray ps) ->
  nth_error h rules = Some (RulesObject r) ->
  Payload.amount_cents p1 = Payload.amount_cents p2 ->
  or_string (Payload.payment_method p1) "card"
  = or_string (Payload.payment_method p2) "card" ->
  cash_flow_sensitivity (merchant (payment_input p1))
  = cash_flow_sensitivity (merchant (payment_input p2)) ->
  whitelisted_for (merchant (payment_input p1))
  = whitelisted_for (merchant (payment_input p2)) ->
  fst (post_decide processors rules p1 h) = fst (post_decide processors rules p2 h).
Proof.
  intros Hp Hr Ha Hm Hs Hw.
  rewrite !(post_decide_run _ _ _ _ _ _ Hp Hr). cbn [fst].
  rewrite (decide_payment ps r (payment_input p1) (payment_input p2)); auto.
Qed.

Lemma post_decide_defaults :
  fst (post_decide 0%nat 1%nat Requests.bare_request Samples.server_heap)
  = fst (post_decide 0%nat 1%nat Requests.explicit_request Samples.server_heap).
Proof.
  apply (post_decide_reads_the_completed_payment 0%nat 1%nat Samples.server_heap
           Scenario.default_catalog Scenario.default_rules
           Requests.bare_request Requests.explicit_request);
    reflexivity.
Defined.

(** ** Numbers that are missing *)

(** X9: an amount or a cash-flow sensitivity that is NaN (which is what a
    missing [cash_flow_sensitivity] amounts to) makes every score NaN.  The
    comparator of [sort] then orders nothing, and when some evaluation is
    viable [decide] returns the first viable one in catalog order, with a
    reason that quotes the score NaN. *)
Theorem NaN_scores_keep_catalog_order processors rules payment h ps r pay es :
  snapshot h processors rules payment ps r pay ->
  is_nan (amount_cents pay) = true \/
  is_nan (cash_flow_sensitivity (merchant pay)) = true ->
  Pure.evaluations ps r pay = Return es ->
  Pure.viable es <> [] ->
  (forall e, In e es -> score e = NaN) /\
  exists d,
    fst (decide processors rules payment h) = Return d /\
    hd_error (Pure.viable es) = Some (details d) /\
    reason d = "Selected by scoring rules (score=NaN)".
Proof.
  intros Hs Hn Hes Hv. destruct (select_nan ps r pay es Hes Hn) as [Hsort Hall].
  split; [exact Hall |].
  rewrite (decide_run _ _ _ _ _ _ _ Hs). cbn [fst]. unfold Pure.decide. rewrite Hes.
  unfold Pure.select. destruct (Pure.viable es) as [| v vs] eqn:Hvs; [congruence |].
  rewrite Hsort. cbn [Pure.head_or_throw]. eexists. split; [reflexivity |].
  cbn [details reason Pure.decision hd_error]. split; [reflexivity |].
  unfold Pure.score_reason. rewrite (Hall v); [reflexivity |].
  assert (Hin : In v (Pure.viable es)) by (rewrite Hvs; left; reflexivity).
  apply filter_In in Hin. tauto.
Qed.

Lemma NaN_scores_witness :
  (forall e, In e Samples.unrated_evaluations -> score e = NaN) /\
  exists d,
    fst (Scenario.run Scenario.default_catalog Scenario.default_rules
           Samples.unrated_payment) = Return d /\
    hd_error (Pure.viable Samples.unrated_evaluations) = Some (details d) /\
    reason d = "Selected by scoring rules (score=NaN)".
Proof.
  apply (NaN_scores_keep_catalog_order 0%nat 1%nat 2%nat
           (Scenario.heap_of Scenario.default_catalog Scenario.default_rules
              Samples.unrated_payment)
           Scenario.default_catalog Scenario.default_rules Samples.unrated_payment
           Samples.unrated_evaluations).
  - repeat split.
  - right. reflexivity.
  - vm_compute. reflexivity.
  - vm_compute. discriminate.
Defined.

(** X10: a processor that names no fee ([fee_percentage] and
    [fee_flat_cents] missing, zero or NaN) costs nothing for any finite
    amount; for an amount that is not finite its fee is NaN. *)
Theorem fee_of_a_processor_without_fees p pay :
  falsy (fee_percentage p) ->
  falsy (fee_flat_cents p) ->
  (is_finite (amount_cents pay) = true -> is_zero (feeAmountCents p pay) = true) /\
  (is_finite (amount_cents pay) = false -> is_nan (feeAmountCents p pay) = true).
Proof.
  intros Hp Hf. unfold feeAmountCents.
  rewrite (or_zero_falsy _ Hp), (or_zero_falsy _ Hf).
  destruct (amount_cents pay) as [[] | [] | | [] m e]; split; intros H;
    try discriminate H; reflexivity.
Qed.

Lemma fee_of_a_processor_without_fees_witness :
  (is_finite (amount_cents Scenario.card_payment) = true ->
   is_zero (feeAmountCents Samples.FreeRider Scenario.card_payment) = true) /\
  (is_finite (amount_cents Scenario.card_payment) = false ->
   is_nan (feeAmountCents Samples.FreeRider Scenario.card_payment) = true).
Proof.
  apply (fee_of_a_processor_without_fees Samples.FreeRider Scenario.card_payment).
  - exact I.
  - exact I.
Defined.

(** ** Fees, savings and scores *)

(** X11: the saving has the sign the fees give it.  For a baseline fee that
    is a positive number, the saving of a processor is not negative when its
    fee is below the baseline's, zero when the two are equal (as for the
    baseline itself), and not positive when its fee is above: the fee term
    of the score, [max(0, saving)], is then zero. *)
Theorem saving_follows_the_fees processors rules h ps r p pay stripe :
  nth_error h processors = Some (ProcessorArray ps) ->
  nth_error h rules = Some (RulesObject r) ->
  find (fun q => String.eqb (name q) "Stripe") ps = Some stripe ->
  valid_processor p ->
  valid_processor stripe ->
  is_finite (feeAmountCents stripe pay) = true ->
  gtb (feeAmountCents stripe pay) zero = true ->
  is_nan (feeAmountCents p pay) = false ->
  exists e,
    evaluateProcessor processors rules p pay h = (Return e, h) /\
    fee_cents e = feeAmountCents p pay /\
    (lt (fee_cents e) (feeAmountCents stripe pay) ->
     geb (saving_pct_vs_stripe e) zero = true) /\
    (eq (fee_cents e) (feeAmountCents stripe pay) ->
     is_zero (saving_pct_vs_stripe e) = true) /\
    (lt (feeAmountCents stripe pay) (fee_cents e) ->
     leb (saving_pct_vs_stripe e) zero = true /\
     is_zero (max zero (saving_pct_vs_stripe e)) = true).
Proof.
  intros Hp Hr Hb (_ & Hvp & _) (_ & Hvs & _) Hfin Hpos Hn.
  rewrite (evaluateProcessor_run _ _ _ _ _ _ _ Hp Hr).
  destruct (evaluate_fields ps r p pay stripe Hb)
    as (e & bonus & He & _ & Hfee & _ & Hsav & _).
  exists e. split; [rewrite He; reflexivity |]. split; [exact Hfee |].
  rewrite Hsav, Hfee.
  apply saving_sign; auto using fee_wf.
Qed.

Lemma saving_follows_the_fees_witness :
  exists e,
    evaluateProcessor 0%nat 1%nat Scenario.LocalProcessorA Scenario.card_payment
      (Scenario.heap_of Scenario.catalog Scenario.default_rules Scenario.card_payment)
    = (Return e,
       Scenario.heap_of Scenario.catalog Scenario.default_rules Scenario.card_payment) /\
    fee_cents e = feeAmountCents Scenario.LocalProcessorA Scenario.card_payment /\
    (lt (fee_cents e) (feeAmountCents Scenario.Stripe Scenario.card_payment) ->
     geb (saving_pct_vs_stripe e) zero = true) /\
    (eq (fee_cents e) (feeAmountCents Scenario.Stripe Scenario.card_payment) ->
     is_zero (saving_pct_vs_stripe e) = true) /\
    (lt (feeAmountCents Scenario.Stripe Scenario.card_payment) (fee_cents e) ->
     leb (saving_pct_vs_stripe e) zero = true /\
     is_zero (max zero (saving_pct_vs_stripe e)) = true).
Proof.
  apply (saving_follows_the_fees 0%nat 1%nat
           (Scenario.heap_of Scenario.catalog Scenario.default_rules Scenario.card_payment)
           Scenario.catalog Scenario.default_rules
           Scenario.LocalProcessorA Scenario.card_payment Scenario.Stripe).
  - reflexivity.
  - reflexivity.
  - reflexivity.
  - repeat split.
  - repeat split.
  - vm_compute. reflexivity.
  - vm_compute. reflexivity.
  - vm_compute. reflexivity.
Defined.

(** X12: a processor that settles on the day gets the full settlement score
    of 1 whatever the merchant's sensitivity, and a merchant of sensitivity
    0 gives every processor the full score. *)
Theorem instant_settlement_scores_one processors rules h ps r p pay :
  nth_error h processors = Some (ProcessorArray ps) ->
  nth_error h rules = Some (RulesObject r) ->
  Pure.baseline ps <> None ->
  (is_zero (settlement_time_days p) = true /\
   is_finite (cash_flow_sensitivity (merchant pay)) = true) \/
  (is_finite (settlement_time_days p) = true /\
   is_zero (cash_flow_sensitivity (merchant pay)) = true) ->
  exists e,
    evaluateProcessor processors rules p pay h = (Return e, h) /\
    settlement_score e = one.
Proof.
  intros Hp Hr Hb Hz.
  rewrite (evaluateProcessor_run _ _ _ _ _ _ _ Hp Hr).
  destruct (Pure.baseline ps) as [stripe |] eqn:Hbase; [| congruence].
  destruct (evaluate_fields ps r p pay stripe Hbase)
    as (e & bonus & He & _ & _ & _ & _ & Hset & _).
  exists e. split; [rewrite He; reflexivity |].
  rewrite Hset. apply settlement_one, Hz.
Qed.

Lemma instant_settlement_witness :
  exists e,
    evaluateProcessor 0%nat 1%nat Scenario.FastPayout Scenario.card_payment
      (Scenario.heap_of Scenario.default_catalog Scenario.default_rules
         Scenario.card_payment)
    = (Return e,
       Scenario.heap_of Scenario.default_catalog Scenario.default_rules
         Scenario.card_payment) /\
    settlement_score e = one.
Proof.
  apply (instant_settlement_scores_one 0%nat 1%nat
           (Scenario.heap_of Scenario.default_catalog Scenario.default_rules
              Scenario.card_payment)
           Scenario.default_catalog Scenario.default_rules
           Scenario.FastPayout Scenario.card_payment).
  - reflexivity.
  - reflexivity.
  - vm_compute. discriminate.
  - left. split; reflexivity.
Defined.

(** X13: the books balance.  The fee [decide] reports, when finite, is an
    integer, and for an amount that is an integer the expected net amount is
    the amount less that fee, exactly, as long as the difference is below
    2^53 in magnitude. *)
Theorem net_is_amount_less_fee processors rules payment h ps r pay d A :
  snapshot h processors rules payment ps r pay ->
  (forall p, In p ps -> valid_processor p) ->
  valid_payment pay ->
  fst (decide processors rules payment h) = Return d ->
  is_the_integer (amount_cents pay) A ->
  is_finite (fee_cents (details d)) = true ->
  (exists F, is_the_integer (fee_cents (details d)) F) /\
  (forall F, is_the_integer (fee_cents (details d)) F ->
             Z.abs (A - F) < 2 ^ 53 ->
             is_the_integer (expected_net_cents d) (A - F)).
Proof.
  intros Hs Hval [Hva _] Hd HA Hfin.
  rewrite (decide_run _ _ _ _ _ _ _ Hs) in Hd. cbn [fst] in Hd.
  pose proof (decide_cases ps r pay) as H. rewrite Hd in H.
  destruct H as (_ & _ & es & w & why & Hes & Hin & -> & _).
  cbn [details expected_net_cents Pure.decision] in *.
  destruct (evaluations_In _ _ _ _ _ Hes Hin) as [Hp Hev].
  destruct (evaluate_equations _ _ _ _ _ Hev) as (stripe & bonus & _ & _ & Hfee & _).
  destruct (Hval _ Hp) as (_ & Hflat & _).
  pose proof (fee_wf (processor w) pay Hflat) as Hwf.
  rewrite Hfee in *. split.
  - unfold feeAmountCents in *. apply round_is_integer; [| exact Hfin].
    apply add_wf; [apply mul_wf | apply or_zero_wf, Hflat].
  - intros F HF Hb. apply round_integer; [| | exact Hb].
    + apply sub_wf; [apply valid_wf, Hva | exact Hwf].
    + apply sub_integers; auto using valid_wf.
Qed.

Lemma net_is_amount_less_fee_witness :
  exists d,
    fst (Scenario.run Scenario.catalog Scenario.default_rules Scenario.card_payment)
    = Return d /\
    is_the_integer (fee_cents (details d)) 56 /\
    is_the_integer (expected_net_cents d) (1250 - 56).
Proof.
  assert (H : exists d,
             fst (Scenario.run Scenario.catalog Scenario.default_rules
                    Scenario.card_payment) = Return d /\
             is_the_integer (fee_cents (details d)) 56 /\
             is_finite (fee_cents (details d)) = true).
  { eexists. split; [vm_compute; reflexivity |]. split; vm_compute; reflexivity. }
  destruct H as (d & Hd & HF & Hfin). exists d. split; [exact Hd |]. split; [exact HF |].
  apply (proj2 (net_is_amount_less_fee 0%nat 1%nat 2%nat
                  (Scenario.heap_of Scenario.catalog Scenario.default_rules
                     Scenario.card_payment)
                  Scenario.catalog Scenario.default_rules Scenario.card_payment d 1250
                  (conj eq_refl (conj eq_refl eq_refl))
                  ltac:(intros p Hp; cbn in Hp;
                        repeat (destruct Hp as [<- | Hp]; [repeat split |]); destruct Hp)
                  ltac:(repeat split)
                  Hd ltac:(vm_compute; reflexivity) Hfin) 56 HF).
  vm_compute. reflexivity.
Defined.

(** ** The strict checks *)

(** X14: lowering the minimal success rate disqualifies nobody.  An
    evaluation that passes the strict checks under a minimal success rate
    passes them under any lower one, with the same fee and the same score. *)
Theorem lower_threshold_keeps_viable processors rules h h' ps r p pay m1 m2 e2 :
  nth_error h processors = Some (ProcessorArray ps) ->
  nth_error h rules = Some (RulesObject (Scenario.with_min_success_rate m2 r)) ->
  nth_error h' processors = Some (ProcessorArray ps) ->
  nth_error h' rules = Some (RulesObject (Scenario.with_min_success_rate m1 r)) ->
  valid (success_rate p) -> valid m1 -> valid m2 ->
  leb m1 m2 = true ->
  fst (evaluateProcessor processors rules p pay h) = Return e2 ->
  truthy (passesStrict e2) = true ->
  exists e1,
    fst (evaluateProcessor processors rules p pay h') = Return e1 /\
    truthy (passesStrict e1) = true /\
    fee_cents e1 = fee_cents e2 /\
    score e1 = score e2.
Proof.
  intros Hp Hr Hp' Hr' Hvs Hv1 Hv2 Hle He2 Hpass.
  rewrite (evaluateProcessor_run _ _ _ _ _ _ _ Hp Hr) in He2. cbn [fst] in He2.
  rewrite (evaluateProcessor_run _ _ _ _ _ _ _ Hp' Hr'). cbn [fst].
  destruct (evaluate_threshold ps r p pay m2 m1 e2 He2)
    as (e1 & He1 & _ & Hfee & _ & _ & _ & Hscore).
  exists e1. split; [exact He1 |]. split; [| split; assumption].
  destruct (evaluate_passes _ _ _ _ _ He2 Hpass) as [Hrate Hwl].
  destruct (evaluate_equations _ _ _ _ _ He1)
    as (stripe & bonus & _ & _ & _ & _ & _ & Hps & _).
  rewrite Hps. cbn [rule_thresholds min_success_rate Scenario.with_min_success_rate] in *.
  unfold geb in *. fold (leb m1 (success_rate p)).
  rewrite (leb_trans m1 m2 (success_rate p) Hv1 Hv2 Hvs Hle Hrate).
  destruct Hwl as [Hf | (names & Hw & Hin)].
  - rewrite Hf. reflexivity.
  - destruct (negb (truthy (requires_whitelist p))); [reflexivity |].
    rewrite Hw. cbn [truthy].
    assert (Hex : existsb (String.eqb (name p)) names = true).
    { apply existsb_exists. exists (name p). split; [exact Hin | apply String.eqb_refl]. }
    rewrite Hex. reflexivity.
Qed.

Lemma lower_threshold_witness :
  let strict := Scenario.with_min_success_rate (decimal 95 100) Scenario.default_rules in
  let lax := Scenario.with_min_success_rate (decimal 90 100) Scenario.default_rules in
  exists e2 e1,
    fst (evaluateProcessor 0%nat 1%nat Scenario.LocalProcessorA Scenario.card_payment
           (Scenario.heap_of Scenario.catalog strict Scenario.card_payment))
    = Return e2 /\
    fst (evaluateProcessor 0%nat 1%nat Scenario.LocalProcessorA Scenario.card_payment
           (Scenario.heap_of Scenario.catalog lax Scenario.card_payment))
    = Return e1 /\
    truthy (passesStrict e1) = true /\
    fee_cents e1 = fee_cents e2 /\
    score e1 = score e2.
Proof.
  cbv zeta.
  assert (H : exists e2,
             fst (evaluateProcessor 0%nat 1%nat Scenario.LocalProcessorA
                    Scenario.card_payment
                    (Scenario.heap_of Scenario.catalog
                       (Scenario.with_min_success_rate (decimal 95 100)
                          Scenario.default_rules)
                       Scenario.card_payment))
             = Return e2 /\
             truthy (passesStrict e2) = true).
  { eexists. split; vm_compute; reflexivity. }
  destruct H as (e2 & He2 & Hpass). exists e2.
  destruct (lower_threshold_keeps_viable 0%nat 1%nat
              (Scenario.heap_of Scenario.catalog
                 (Scenario.with_min_success_rate (decimal 95 100) Scenario.default_rules)
                 Scenario.card_payment)
              (Scenario.heap_of Scenario.catalog
                 (Scenario.with_min_success_rate (decimal 90 100) Scenario.default_rules)
                 Scenario.card_payment)
              Scenario.catalog Scenario.default_rules
              Scenario.LocalProcessorA Scenario.card_payment
              (decimal 90 100) (decimal 95 100) e2
              eq_refl eq_refl eq_refl eq_refl
              ltac:(vm_compute; reflexivity) ltac:(vm_compute; reflexivity)
              ltac:(vm_compute; reflexivity) ltac:(vm_compute; reflexivity)
              He2 Hpass)
    as (e1 & He1 & H1 & H2 & H3).
  exists e1. auto.
Defined.

(** ** The order of the catalog, again *)

(** X15: the order of the catalog matters for ties only.  Two catalogs that
    hold the same processors, each name once, give the same outcome when no
    two evaluations have the same score and no two the same success rate
    (the keys being numbers, not NaN). *)
Theorem catalog_order_matters_for_ties_only
    h processors rules payment h' processors' rules' payment' ps ps' r pay es :
  snapshot h processors rules payment ps r pay ->
  snapshot h' processors' rules' payment' ps' r pay ->
  (forall p, In p ps <-> In p ps') ->
  NoDup (map name ps') ->
  valid_rules r ->
  (forall p, In p ps -> valid_processor p) ->
  Pure.evaluations ps r pay = Return es ->
  (forall e, In e es -> is_nan (score e) = false /\ is_nan (rate e) = false) ->
  (forall e1 e2, In e1 es -> In e2 es -> eq (score e1) (score e2) -> e1 = e2) ->
  (forall e1 e2, In e1 es -> In e2 es -> eq (rate e1) (rate e2) -> e1 = e2) ->
  fst (decide processors rules payment h) = fst (decide processors' rules' payment' h').
Proof.
  intros H H' Hin Hnd Hr Hval Hes Hnan Hscore Hrate.
  rewrite (decide_run _ _ _ _ _ _ _ H), (decide_run _ _ _ _ _ _ _ H'). cbn [fst].
  apply (decide_any_order ps ps' r pay es); assumption.
Qed.

Lemma catalog_order_witness :
  fst (Scenario.run Scenario.catalog Scenario.default_rules Scenario.card_payment)
  = fst (Scenario.run Samples.reversed_catalog Scenario.default_rules
           Scenario.card_payment).
Proof.
  apply (catalog_order_matters_for_ties_only
           (Scenario.heap_of Scenario.catalog Scenario.default_rules
              Scenario.card_payment) 0%nat 1%nat 2%nat
           (Scenario.heap_of Samples.reversed_catalog Scenario.default_rules
              Scenario.card_payment) 0%nat 1%nat 2%nat
           Scenario.catalog Samples.reversed_catalog
           Scenario.default_rules Scenario.card_payment scenario_A_evaluations).
  - repeat split.
  - repeat split.
  - intros p. cbn. tauto.
  - repeat constructor; cbn; intuition discriminate.
  - repeat split.
  - intros p Hp. cbn in Hp.
    repeat (destruct Hp as [<- | Hp]; [repeat split |]). destruct Hp.
  - vm_compute. reflexivity.
  - intros e He. cbn in He.
    repeat (destruct He as [<- | He]; [split; reflexivity |]). destruct He.
  - intros e1 e2 H1 H2 He. cbn in H1, H2.
    destruct H1 as [<- | [<- | []]], H2 as [<- | [<- | []]];
      try reflexivity; vm_compute in He; discriminate He.
  - intros e1 e2 H1 H2 He. cbn in H1, H2.
    destruct H1 as [<- | [<- | []]], H2 as [<- | [<- | []]];
      try reflexivity; vm_compute in He; discriminate He.
Defined.
